(** * Speech socket handlers: audio chunking and transcription sessions

    A shallow embedding of [src/sockets/index.ts] (the [/speech] namespace
    handlers): the WAV header helpers, the per-session temp file, the
    readiness check, the retry loop around the Groq transcription call with
    its local Whisper fallback, and the socket event handlers.

    Conventions.
    - A Node [Buffer] and a file's content are lists of bytes, each byte a
      [Z] in [0, 255].
    - The [sessions] map, the temp files and everything the handlers emit
      live in one [World] that every operation threads; a thrown JS error is
      the [Throw] outcome of the monad [M].
    - What the code cannot control is read from oracles: the clock, the
      uuid generator, [Math.random], the replies of the Groq API and of the
      local Whisper service.  They are streams indexed by counters kept in
      the [World], so that a theorem quantified over all oracles covers
      every behaviour of the environment.
    - Each [async] function is run to completion: a handler is one step.
    - Integers are [Z].  Where the code computes with fractions (the
      backoff delay, the byte rate and the block align of a header) a
      number is a rational, and every operation is rounded to the nearest
      double. *)

From Stdlib Require Import ZArith QArith Qround Qabs Qpower Lia Lqa.
From stdpp Require Import gmap strings list pretty.

Local Open Scope Z_scope.

(** ** Numbers

    A JS number is an IEEE 754 binary64 value.  The finite ones are
    rationals, and every arithmetic operation returns the exact result
    rounded to the nearest double, ties to the even significand.  [double]
    is that rounding on the normal range (no overflow, no subnormals: the
    delays computed below stay between 2^-1022 and 2^1024), so that
    [a * b] of the code is [double (a * b)] here, and a literal [0.8] is
    [double (4 # 5)]. *)

Module Number.

(** Rounding to the nearest integer, ties to even. *)
Definition round_even (x : Q) : Z :=
  let f := Qfloor x in
  match (x - inject_Z f ?= 1 # 2)%Q with
  | Lt => f
  | Gt => f + 1
  | Eq => if Z.even f then f else f + 1
  end.

(** The exponent [e] for which [x * 2^-e] has a 53-bit integer part:
    [2^52 <= x * 2^-e < 2^53], for [x > 0]. *)
Definition binade (x : Q) : Z :=
  let e := Z.log2 (Qnum x) - Z.log2 (Zpos (Qden x)) - 53 in
  if Qle_bool (inject_Z (2 ^ 53)) (x * 2 ^ (- e))%Q then e + 1 else e.

Definition nearest (x : Q) : Q :=
  let e := binade x in
  (inject_Z (round_even (x * 2 ^ (- e))) * 2 ^ e)%Q.

Definition double (x : Q) : Q :=
  match (x ?= 0)%Q with
  | Eq => 0%Q
  | Gt => nearest x
  | Lt => (- nearest (- x))%Q
  end.

End Number.

(** ** Buffers *)

Module Buf.
Import Number.

Definition Buffer := list Z.

(** [Buffer.alloc(n)] *)
Definition alloc (n : nat) : Buffer := replicate n 0.

(** The bytes of an ASCII string, as [buffer.write(str, offset)] sees them. *)
Definition ascii_codes (s : string) : list Z :=
  (λ c, Z.of_nat (Ascii.nat_of_ascii c)) <$> String.list_ascii_of_string s.

(** Copy [src] into [buf] from [off] on; bytes that do not fit are dropped,
    the buffer never grows. *)
Fixpoint blit (src : list Z) (off : nat) (buf : Buffer) : Buffer :=
  match src with
  | [] => buf
  | b :: src' => blit src' (S off) (<[off := b]> buf)
  end.

(** [buffer.write(str, offset)] *)
Definition write (s : string) (off : nat) (buf : Buffer) : Buffer :=
  blit (ascii_codes s) off buf.

(** The [w] little-endian bytes of [v]. *)
Definition le_bytes (w : nat) (v : Z) : list Z :=
  (λ i : nat, Z.land (Z.shiftr v (8 * Z.of_nat i)) 255) <$> seq 0 w.

(** [buffer.writeUIntNLE(value, offset)]: a [RangeError] ([None]) when the
    value is not in [0, 2^(8w) - 1] or the field does not fit. *)
Definition writeUIntLE (w : nat) (value : Z) (off : nat) (buf : Buffer)
  : option Buffer :=
  if bool_decide (0 ≤ value < 2 ^ (8 * Z.of_nat w)) && bool_decide (off + w ≤ length buf)%nat
  then Some (blit (le_bytes w value) off buf)
  else None.

Definition writeUInt32LE := writeUIntLE 4.
Definition writeUInt16LE := writeUIntLE 2.

(** The same call on a number that need not be an integer: the range
    check is made on the number itself, and the bytes stored are those of
    its integer part (the byte stores and [>>> 8] of the writer cut the
    fraction off). *)
Definition writeNumberLE (w : nat) (value : Q) (off : nat) (buf : Buffer)
  : option Buffer :=
  if Qle_bool 0 value && Qle_bool value (inject_Z (2 ^ (8 * Z.of_nat w) - 1))
     && bool_decide (off + w ≤ length buf)%nat
  then Some (blit (le_bytes w (Qfloor value)) off buf)
  else None.

(** Little-endian value of a byte list. *)
Fixpoint le_value (bs : list Z) : Z :=
  match bs with
  | [] => 0
  | b :: bs' => b + 256 * le_value bs'
  end.

(** [buffer.readUInt32LE(offset)] *)
Definition readUInt32LE (off : nat) (buf : Buffer) : option Z :=
  if bool_decide (off + 4 ≤ length buf)%nat
  then Some (le_value (take 4 (drop off buf)))
  else None.

(** [buffer.readUInt16LE(offset)] *)
Definition readUInt16LE (off : nat) (buf : Buffer) : option Z :=
  if bool_decide (off + 2 ≤ length buf)%nat
  then Some (le_value (take 2 (drop off buf)))
  else None.

(** [buffer.toString('ascii', from, to)] compared with a literal; decoding
    as ['ascii'] clears the high bit of every byte. *)
Definition ascii_at (from to : nat) (buf : Buffer) (s : string) : bool :=
  bool_decide ((λ b, Z.land b 127) <$> take (to - from) (drop from buf) = ascii_codes s).

(** [Buffer.from(array)]: every element is taken modulo 256. *)
Definition from_array (l : list Z) : Buffer := (λ x, x mod 256) <$> l.

End Buf.

(** ** WAV header *)

Module Wav.
Import Number Buf.

Record WavOptions := {
  sampleRate : Z;
  channels : Z;
  bitDepth : Z;
  format : Z
}.

(** [createWavHeader].  [byteRate] and [blockAlign] are quotients by 8,
    computed in doubles before anything is written; they need not be
    integers when they reach their writer. *)
Definition createWavHeader (o : WavOptions) : option Buffer :=
  let byteRate :=
    double (double (double (inject_Z (sampleRate o) * inject_Z (channels o))
                    * inject_Z (bitDepth o)) / 8)%Q in
  let blockAlign :=
    double (double (inject_Z (channels o) * inject_Z (bitDepth o)) / 8)%Q in
  let dataSize := 0 in
  let buffer := alloc 44 in
  let buffer := write "RIFF" 0 buffer in
  buffer ← writeUInt32LE (36 + dataSize) 4 buffer;
  let buffer := write "WAVE" 8 buffer in
  let buffer := write "fmt " 12 buffer in
  buffer ← writeUInt32LE 16 16 buffer;
  buffer ← writeUInt16LE (format o) 20 buffer;
  buffer ← writeUInt16LE (channels o) 22 buffer;
  buffer ← writeUInt32LE (sampleRate o) 24 buffer;
  buffer ← writeNumberLE 4 byteRate 28 buffer;
  buffer ← writeNumberLE 2 blockAlign 32 buffer;
  buffer ← writeUInt16LE (bitDepth o) 34 buffer;
  let buffer := write "data" 36 buffer in
  buffer ← writeUInt32LE dataSize 40 buffer;
  Some buffer.

(** [fd.write(src, 0, length, position)] on a file opened with [r+]. *)
Definition fd_write (src : list Z) (pos : nat) (file : list Z) : list Z :=
  take pos (file ++ replicate (pos - length file) 0) ++ src
    ++ drop (pos + length src) file.

(** The two patches of [updateWavHeader] on the content of the file.  The
    result carries the content left behind, also when a write throws. *)
Definition updateWavHeader_content (file : list Z) (dataSize : Z)
  : list Z * bool :=
  let fileSize := 36 + dataSize in
  match writeUInt32LE (fileSize - 8) 0 (alloc 4) with
  | None => (file, false)
  | Some fileSizeBuffer =>
      let file := fd_write fileSizeBuffer 4 file in
      match writeUInt32LE dataSize 0 (alloc 4) with
      | None => (file, false)
      | Some dataSizeBuffer => (fd_write dataSizeBuffer 40 file, true)
      end
  end.

End Wav.

(** ** Errors, outcomes and the world *)

Module Js.

(** Where an [Error] object was created.  JS compares errors by identity;
    the tag keeps apart an error of the Groq path, one of the Whisper
    fallback and one raised by the handlers themselves. *)
Inductive Origin := Primary | Fallback | Local.

Record JsError := { origin : Origin; message : string }.

Inductive Outcome (A : Type) :=
| Return (a : A)
| Throw (e : JsError).
Arguments Return {A} a.
Arguments Throw {A} e.

(** [includes needle hay] is [hay.includes(needle)] (case sensitive). *)
Fixpoint includes (needle hay : string) : bool :=
  String.prefix needle hay ||
  match hay with
  | EmptyString => false
  | String _ hay' => includes needle hay'
  end.

(** JS truthiness of an optional string and of an optional number. *)
Definition truthy_string (s : option string) : bool :=
  match s with Some s => negb (String.eqb s "") | None => false end.
Definition truthy_number (n : option Z) : bool :=
  match n with Some n => negb (n =? 0) | None => false end.

(** [Math.round] on a rational. *)
Definition Math_round (x : Q) : Z := Qfloor (x + (1 # 2))%Q.

End Js.

Module Session.
Import Buf Js.

(** A [Writable] opened on [ws_path] in append mode. *)
Record WriteStream := { ws_path : string; ws_ended : bool }.

Record SessionData := {
  audioChunks : list Buffer;
  lastProcessed : Z;
  tempFile : option string;
  sampleFile : option string;
  sampleRate : Z;
  writeStream : option WriteStream;
  isPaused : bool;
  pendingFinalize : bool;
  pendingChunks : list Buffer
}.

Definition set_lastProcessed (v : Z) (s : SessionData) : SessionData :=
  {| audioChunks := audioChunks s; lastProcessed := v; tempFile := tempFile s;
     sampleFile := sampleFile s; sampleRate := sampleRate s;
     writeStream := writeStream s; isPaused := isPaused s;
     pendingFinalize := pendingFinalize s; pendingChunks := pendingChunks s |}.
Definition set_tempFile (v : option string) (s : SessionData) : SessionData :=
  {| audioChunks := audioChunks s; lastProcessed := lastProcessed s; tempFile := v;
     sampleFile := sampleFile s; sampleRate := sampleRate s;
     writeStream := writeStream s; isPaused := isPaused s;
     pendingFinalize := pendingFinalize s; pendingChunks := pendingChunks s |}.
Definition set_sampleRate (v : Z) (s : SessionData) : SessionData :=
  {| audioChunks := audioChunks s; lastProcessed := lastProcessed s; tempFile := tempFile s;
     sampleFile := sampleFile s; sampleRate := v;
     writeStream := writeStream s; isPaused := isPaused s;
     pendingFinalize := pendingFinalize s; pendingChunks := pendingChunks s |}.
Definition set_writeStream (v : option WriteStream) (s : SessionData) : SessionData :=
  {| audioChunks := audioChunks s; lastProcessed := lastProcessed s; tempFile := tempFile s;
     sampleFile := sampleFile s; sampleRate := sampleRate s;
     writeStream := v; isPaused := isPaused s;
     pendingFinalize := pendingFinalize s; pendingChunks := pendingChunks s |}.
Definition set_isPaused (v : bool) (s : SessionData) : SessionData :=
  {| audioChunks := audioChunks s; lastProcessed := lastProcessed s; tempFile := tempFile s;
     sampleFile := sampleFile s; sampleRate := sampleRate s;
     writeStream := writeStream s; isPaused := v;
     pendingFinalize := pendingFinalize s; pendingChunks := pendingChunks s |}.
Definition set_pendingFinalize (v : bool) (s : SessionData) : SessionData :=
  {| audioChunks := audioChunks s; lastProcessed := lastProcessed s; tempFile := tempFile s;
     sampleFile := sampleFile s; sampleRate := sampleRate s;
     writeStream := writeStream s; isPaused := isPaused s;
     pendingFinalize := v; pendingChunks := pendingChunks s |}.
Definition set_pendingChunks (v : list Buffer) (s : SessionData) : SessionData :=
  {| audioChunks := audioChunks s; lastProcessed := lastProcessed s; tempFile := tempFile s;
     sampleFile := sampleFile s; sampleRate := sampleRate s;
     writeStream := writeStream s; isPaused := isPaused s;
     pendingFinalize := pendingFinalize s; pendingChunks := v |}.

(** What a handler sends back: the payload of an emitted event or of an
    acknowledgement callback. *)
Inductive Payload :=
| PInit (success : bool) (sessionId : string) (rate : Z) (msg : string) (timestamp : Z)
| PError (msg : string) (details : option string)
| PString (s : string)
| PTranscript (text : string) (isFinal : bool) (source : string)
    (processingTime : Z) (timestamp : Z)
| PAudioAck (status : string) (size : Z)
| PResult (success : bool) (msg : string) (file : option string) (error : option string).

(** Replies of the Groq endpoint to one [fetch]. *)
Inductive ApiReply :=
| FetchRejects (msg : string)
| NotOk (status : Z) (error_message : option string) (body_message : option string)
| BodyRejects (msg : string)
| OkText (text : string)
| OkNoText.

(** Replies of [whisperFallbackService.transcribe]. *)
Inductive WhisperReply :=
| WhisperThrows (msg : string)
| WhisperResult (text : string).

(** Everything observable that a run does, oldest first: what is sent to
    the client, each call of [transcribeAudio] (noted when it starts), each
    request to Groq and to the Whisper service with the bytes sent, and
    each [setTimeout] of the retry loop with the attempt it follows. *)
Inductive Event :=
| Emit (socket : string) (event : string) (p : Payload)
| Ack (socket : string) (p : Payload)
| CallTranscribeAudio (path : string)
| GroqRequest (body : list Z)
| WhisperRequest (audio : list Z) (rate : Z)
| Sleep (attempt : Z) (ms : Z).

(** The environment: configuration and oracles.  The [k]-th read of any
    oracle, counted over the whole run, gets the value at index [k]. *)
Record Env := {
  GROQ_API_KEY : option string;
  TEMP_DIR : string;
  Date_now : nat → Z;
  uuidv4 : nat → string;
  Math_random : nat → Q;
  groq : nat → ApiReply;
  whisper : nat → WhisperReply;
  base64 : string → Buffer
}.

(** [objects] is the heap of [sessionData] objects, one per connection and
    named by the socket id of the connection that created it; [sessions] is
    the key set of the [sessions] map, whose value at key [k] is the object
    [k] (the only [sessions.set] is the one of the connection handler). *)
Record World := {
  objects : gmap string SessionData;
  sessions : gset string;
  files : gmap string (list Z);
  tick : nat;
  log : list Event
}.

Definition set_objects (f : gmap string SessionData → gmap string SessionData)
  (w : World) : World :=
  {| objects := f (objects w); sessions := sessions w; files := files w;
     tick := tick w; log := log w |}.
Definition set_sessions (f : gset string → gset string) (w : World) : World :=
  {| objects := objects w; sessions := f (sessions w); files := files w;
     tick := tick w; log := log w |}.
Definition set_files (f : gmap string (list Z) → gmap string (list Z))
  (w : World) : World :=
  {| objects := objects w; sessions := sessions w; files := f (files w);
     tick := tick w; log := log w |}.
Definition set_tick (f : nat → nat) (w : World) : World :=
  {| objects := objects w; sessions := sessions w; files := files w;
     tick := f (tick w); log := log w |}.
Definition set_log (f : list Event → list Event) (w : World) : World :=
  {| objects := objects w; sessions := sessions w; files := files w;
     tick := tick w; log := f (log w) |}.

Definition empty_world : World :=
  {| objects := ∅; sessions := ∅; files := ∅; tick := 0%nat; log := [] |}.

(** *** The monad of handlers *)

Definition M (A : Type) : Type := World → Outcome A * World.

Definition ret {A} (a : A) : M A := λ w, (Return a, w).
Definition throw {A} (e : JsError) : M A := λ w, (Throw e, w).
Definition bind {A B} (m : M A) (k : A → M B) : M B :=
  λ w, match m w with
       | (Return a, w') => k a w'
       | (Throw e, w') => (Throw e, w')
       end.
(** [try { m } catch (e) { h e }] *)
Definition try_catch {A} (m : M A) (h : JsError → M A) : M A :=
  λ w, match m w with
       | (Return a, w') => (Return a, w')
       | (Throw e, w') => h e w'
       end.
(** [try { m } finally { f }] *)
Definition finally {A} (m : M A) (f : M unit) : M A :=
  λ w, match m w with
       | (o, w') =>
           match f w' with
           | (Return _, w'') => (o, w'')
           | (Throw e, w'') => (Throw e, w'')
           end
       end.

#[global] Instance M_ret : MRet M := @ret.
#[global] Instance M_bind : MBind M := λ A B k m, bind m k.
#[global] Typeclasses Opaque M.

Definition get_world : M World := λ w, (Return w, w).
Definition modify (f : World → World) : M unit := λ w, (Return (), f w).
Definition emit (socket event : string) (p : Payload) : M unit :=
  modify (set_log (λ l, l ++ [Emit socket event p])).
Definition ack (has_callback : bool) (socket : string) (p : Payload) : M unit :=
  if has_callback then modify (set_log (λ l, l ++ [Ack socket p])) else ret ().
Definition record (e : Event) : M unit := modify (set_log (λ l, l ++ [e])).

(** One read of an oracle. *)
Definition ask {A} (oracle : nat → A) : M A :=
  λ w, (Return (oracle (tick w)), set_tick S w).

#[global] Instance SessionData_inhabited : Inhabited SessionData :=
  populate {| audioChunks := []; lastProcessed := 0; tempFile := None;
              sampleFile := None; sampleRate := 0; writeStream := None;
              isPaused := false; pendingFinalize := false; pendingChunks := [] |}.

(** Field reads and writes through a reference to a session object. *)
Definition read (k : string) : M SessionData :=
  λ w, (Return (objects w !!! k), w).
Definition update (k : string) (f : SessionData → SessionData) : M unit :=
  modify (set_objects (λ o, <[k := f (o !!! k)]> o)).

(** [sessions.get(id)]: a reference to the object, or [undefined]. *)
Definition sessions_get (id : string) : M (option string) :=
  λ w, (Return (if bool_decide (id ∈ sessions w) then Some id else None), w).

End Session.

(** ** The speech handlers *)

Module Speech.
Import Number Buf Wav Js Session.

Definition SAMPLE_RATE : Z := 16000.
Definition MAX_AUDIO_SIZE : Z := 25 * 1024 * 1024.
Definition MAX_RETRIES : Z := 3.
Definition RETRY_DELAY_MS : Z := 1000.

Definition Error (o : Origin) (msg : string) : JsError :=
  {| origin := o; message := msg |}.

(** *** The file system

    A call fails only for the reason the model can see: the path names no
    file.  [o] tags the errors of the call site. *)

Definition fs_stat (o : Origin) (path : string) : M nat :=
  w ← get_world;
  match files w !! path with
  | Some content => ret (length content)
  | None => throw (Error o "ENOENT: no such file or directory")
  end.

Definition fs_readFile (o : Origin) (path : string) : M (list Z) :=
  w ← get_world;
  match files w !! path with
  | Some content => ret content
  | None => throw (Error o "ENOENT: no such file or directory")
  end.

Definition fs_access (o : Origin) (path : string) : M unit :=
  fs_stat o path;; ret ().

Definition fs_writeFile (path : string) (content : list Z) : M unit :=
  modify (set_files (<[path := content]>)).

Definition fs_unlink (o : Origin) (path : string) : M unit :=
  fs_stat o path;; modify (set_files (delete path)).

(** [stream.write(data, callback)] on an append stream: the callback gets an
    error once the stream has been ended. *)
Definition stream_write (ws : WriteStream) (data : list Z) : M unit :=
  if ws_ended ws then throw (Error Local "write after end")
  else modify (set_files (λ fs, <[ws_path ws := default [] (fs !! ws_path ws) ++ data]> fs)).

(** [join(TEMP_DIR, name)] *)
Definition join (dir name : string) : string := dir +:+ "/" +:+ name.

(** *** Streaming a frame to the session's temp file *)

Definition streamToDisk (E : Env) (session : string) (audioData : Buffer)
  : M string :=
  s ← read session;
  (if truthy_string (tempFile s) then ret ()
   else
     u ← ask (uuidv4 E);
     let path := join (TEMP_DIR E) (u +:+ ".wav") in
     update session (set_tempFile (Some path));;
     s ← read session;
     match createWavHeader {| Wav.sampleRate := sampleRate s; channels := 1;
                              bitDepth := 16; format := 1 |} with
     | None => throw (Error Local "The value is out of range")
     | Some header =>
         fs_writeFile path header;;
         update session (set_writeStream
                           (Some {| ws_path := path; ws_ended := false |}))
     end);;
  s ← read session;
  match writeStream s with
  | None => throw (Error Local "Write stream not initialized")
  | Some ws =>
      stream_write ws audioData;;
      s ← read session;
      ret (default "" (tempFile s))
  end.

(** [updateWavHeader(filePath, dataSize)] *)
Definition updateWavHeader (filePath : string) (dataSize : Z) : M unit :=
  content ← fs_readFile Local filePath;
  let '(content', ok) := updateWavHeader_content content dataSize in
  fs_writeFile filePath content';;
  if ok then ret () else throw (Error Local "The value is out of range").

(** [cleanupSession(sessionId, session)] *)
Definition cleanupSession (sessionId : string) (session : string) : M unit :=
  finally
    (try_catch
       (s ← read session;
        match writeStream s with
        | Some ws =>
            update session (set_writeStream
                              (Some {| ws_path := ws_path ws; ws_ended := true |}))
        | None => ret ()
        end;;
        s ← read session;
        if truthy_string (tempFile s) then
          try_catch (fs_unlink Local (default "" (tempFile s))) (λ _, ret ())
        else ret ())
       (λ _, ret ()))
    (modify (set_sessions (λ m, m ∖ {[sessionId]}))).

(** *** Transcription *)

(** The message of the error thrown for a reply that is not [ok]. *)
Definition http_error_message (status : Z) (error_message body_message : option string)
  : string :=
  if truthy_string error_message then default "" error_message
  else if truthy_string body_message then default "" body_message
  else "API request failed with status " +:+ pretty status.

(** [transcribeAudio(audioPath)]: the Groq request and, in its [catch], the
    local Whisper fallback. *)
Definition transcribeAudio (E : Env) (audioPath : string) : M string :=
  record (CallTranscribeAudio audioPath);;
  if negb (truthy_string (GROQ_API_KEY E)) then
    throw (Error Primary "Groq API key not configured")
  else
    try_catch
      (try_catch (fs_access Primary audioPath)
         (λ _, throw (Error Primary "File not found or not readable"));;
       size ← fs_stat Primary audioPath;
       if bool_decide (MAX_AUDIO_SIZE < Z.of_nat size) then
         throw (Error Primary ("Audio file too large (" +:+ pretty (Z.of_nat size)
                                 +:+ " > " +:+ pretty MAX_AUDIO_SIZE +:+ " bytes)"))
       else
         audioBuffer ← fs_readFile Primary audioPath;
         record (GroqRequest audioBuffer);;
         response ← ask (groq E);
         match response with
         | FetchRejects msg => throw (Error Primary msg)
         | NotOk status em bm => throw (Error Primary (http_error_message status em bm))
         | BodyRejects msg => throw (Error Primary msg)
         | OkNoText => throw (Error Primary "Invalid response format from Groq API")
         | OkText text => ret text
         end)
      (λ error,
         r ← try_catch
               (audioBuffer ← fs_readFile Fallback audioPath;
                record (WhisperRequest audioBuffer 16000);;
                result ← ask (whisper E);
                match result with
                | WhisperThrows msg => throw (Error Fallback msg)
                | WhisperResult text =>
                    ret (if truthy_string (Some text) then Some text else None)
                end)
               (λ fallbackError, ret None);
         match r with
         | Some text => ret text
         | None => throw error
         end).

Definition nonRetryableErrors : list string :=
  ["API key not configured"; "Invalid response format";
   "invalid file format"; "file not found"].

Definition nonRetryable (error : JsError) : bool :=
  existsb (λ msg, includes msg (message error)) nonRetryableErrors.

(** The base delay after failed attempt [attempt]. *)
Definition baseDelay (attempt : Z) : Z :=
  Z.min (RETRY_DELAY_MS * 2 ^ (attempt - 1)) 30000.

(** The delay actually slept, given the draw of [Math.random]:
    [Math.round(baseDelay * (0.8 + Math.random() * 0.4))], every
    operation in doubles.  [baseDelay] is an integer below 2^53, hence
    exact. *)
Definition jittered (attempt : Z) (rnd : Q) : Z :=
  let jitter := double (double (4 # 5) + double (rnd * double (2 # 5)))%Q in
  Math_round (double (inject_Z (baseDelay attempt) * jitter))%Q.

Definition backoff (E : Env) (attempt : Z) : M unit :=
  rnd ← ask (Math_random E);
  record (Sleep attempt (jittered attempt rnd)).

(** The code after the loop of [transcribeWithRetry]. *)
Definition rethrow_last (lastError : option JsError) : M string :=
  throw (default (Error Local "Transcription failed after multiple attempts")
           lastError).

(** The [for] loop of [transcribeWithRetry]: [remaining] iterations are
    left, the next one with loop variable [attempt]. *)
Fixpoint retry_loop (E : Env) (audioPath : string) (maxRetries : Z)
  (remaining : nat) (attempt : Z) (lastError : option JsError) : M string :=
  match remaining with
  | O => rethrow_last lastError
  | S remaining' =>
      try_catch (transcribeAudio E audioPath)
        (λ error,
           if nonRetryable error then rethrow_last (Some error)
           else
             (if bool_decide (attempt < maxRetries) then backoff E attempt
              else ret ());;
             retry_loop E audioPath maxRetries remaining' (attempt + 1) (Some error))
  end.

Definition transcribeWithRetry (E : Env) (audioPath : string) (maxRetries : Z)
  : M string :=
  let maxRetries := if bool_decide (maxRetries ≤ 0) then 1 else maxRetries in
  retry_loop E audioPath maxRetries (Z.to_nat maxRetries) 1 None.

(** *** Processing a chunk *)

(** [processAudioChunk(socket, sessionId, session)]; [socket] is the id of
    the socket the events are emitted on, [sessionId] is only logged. *)
Definition processAudioChunk (E : Env) (socket sessionId session : string)
  : M unit :=
  s ← read session;
  if negb (truthy_string (tempFile s)) then
    throw (Error Local "No temporary file to process")
  else
    let tempFileToCleanup := default "" (tempFile s) in
      try_catch
        (size ← fs_stat Local tempFileToCleanup;
         if bool_decide (size < 44)%nat then
           throw (Error Local ("Audio file is too small (" +:+ pretty size +:+ " bytes)"))
         else
           let dataSize := Z.of_nat size - 44 in
           updateWavHeader tempFileToCleanup dataSize;;
           startTime ← ask (Date_now E);
           transcript ← try_catch
                          (transcribeWithRetry E tempFileToCleanup MAX_RETRIES)
                          (λ error, throw error);
           finished ← ask (Date_now E);
           let processingTime := finished - startTime in
           (if truthy_string (Some transcript) then
              timestamp ← ask (Date_now E);
              emit socket "transcript"
                (PTranscript transcript true "groq" processingTime timestamp)
            else throw (Error Local "Received empty transcription result"));;
           t ← ask (Date_now E);
           update session (set_lastProcessed t))
        (λ error, emit socket "error" (PString "Failed to process audio")).

(** [shouldProcessChunk(session, audioData)] *)
Definition shouldProcessChunk (E : Env) (session : string) (audioData : Buffer)
  : M bool :=
  s ← read session;
  if negb (truthy_string (tempFile s)) then ret true
  else
      try_catch
        (size ← fs_stat Local (default "" (tempFile s));
         _ ← ask (Date_now E);
         let bytesPerSecond := sampleRate s * 2 in
         let minAudioBytes := (inject_Z bytesPerSecond * (1 # 2))%Q in
         ret (Qle_bool minAudioBytes (inject_Z (Z.of_nat size))
              || ((lastProcessed s =? 0) && (0 <? Z.of_nat size))
              || pendingFinalize s))
        (λ _, ret true).

(** *** Socket events *)

(** A socket: its id, and the [sessionId] property that four handlers read
    off the socket object ([undefined] is [None]). *)
Record Socket := { socket_id : string; socket_sessionId : option string }.

Record InitData := {
  init_sampleRate : option Z;
  init_language : option string;
  init_sessionId : option string
}.

(** The [data] field of an [audio] message: a string, an array of numbers,
    or any other value (with its [typeof] and, if it has one, its
    [length]). *)
Inductive AudioData :=
| DString (s : string)
| DArray (l : list Z)
| DOther (typeof : string) (len : option Z).

Record AudioMsg := {
  data : AudioData;
  format : option string;
  declaredRate : option Z
}.

(** The buffer both branches of the [audio] handler build from a message,
    if any. *)
Definition decode (E : Env) (msg : AudioMsg) : option Buffer :=
  match data msg with
  | DString s =>
      if bool_decide (format msg = Some "wav") then Some (base64 E s) else None
  | DArray l => Some (from_array l)
  | DOther _ _ => None
  end.

Definition typeof_data (msg : AudioMsg) : string :=
  match data msg with
  | DString _ => "string"
  | DArray _ => "object"
  | DOther t _ => t
  end.

(** [data.data?.length || 0] *)
Definition data_length (msg : AudioMsg) : Z :=
  match data msg with
  | DString s => Z.of_nat (String.length s)
  | DArray l => Z.of_nat (length l)
  | DOther _ len => default 0 len
  end.

Definition isWav (audioData : Buffer) : bool :=
  bool_decide (12 < length audioData)%nat
  && ascii_at 0 4 audioData "RIFF" && ascii_at 8 12 audioData "WAVE".

(** [speechNsp.on('connection', ...)] up to the registration of the
    handlers. *)
Definition on_connection (E : Env) (socket : Socket) : M unit :=
  let sessionId := socket_id socket in
  t ← ask (Date_now E);
  let sessionData :=
    {| audioChunks := []; lastProcessed := t; sampleRate := SAMPLE_RATE;
       tempFile := None; sampleFile := None; writeStream := None;
       isPaused := false; pendingFinalize := false; pendingChunks := [] |} in
  modify (set_objects (<[sessionId := sessionData]>));;
  modify (set_sessions (λ m, {[sessionId]} ∪ m)).

(** [socket.on('init', ...)]; [data] is [None] for a payload that is not an
    object. *)
Definition on_init (E : Env) (socket : Socket) (data : option InitData)
  (has_callback : bool) : M unit :=
  let sessionId := socket_id socket in
  try_catch
    (match data with
     | None => throw (Error Local "Cannot read properties of undefined")
     | Some data =>
         (if truthy_number (init_sampleRate data) then
            update sessionId (set_sampleRate (default 0 (init_sampleRate data)))
          else ret ());;
         s ← read sessionId;
         t ← ask (Date_now E);
         let response :=
           PInit true sessionId (sampleRate s) "Session initialized successfully" t in
         ack has_callback sessionId response;;
         emit sessionId "init_ack" response
     end)
    (λ _, emit sessionId "error" (PError "Failed to initialize session" None)).

(** The inner [try]/[catch] of the [audio] handler: decode the frame, check
    it, stream it to disk, acknowledge it and process the chunk when it is
    ready. *)
Definition on_audio_frame (E : Env) (sessionId session : string) (msg : AudioMsg)
  (has_ack : bool) : M unit :=
  try_catch
    (audioData ←
       match decode E msg with
       | Some b => ret b
       | None => throw (Error Local ("Invalid audio data format: "
                                       +:+ typeof_data msg))
       end;
     if negb (isWav audioData) then
       throw (Error Local "Invalid WAV data: Missing RIFF/WAVE headers")
     else
       streamToDisk E session audioData;;
       ack has_ack sessionId
         (PAudioAck "received" (Z.of_nat (length audioData)));;
       shouldProcess ← shouldProcessChunk E session audioData;
       s ← read session;
       (if shouldProcess && truthy_string (tempFile s) then
          try_catch (processAudioChunk E sessionId sessionId session)
            (λ error, emit sessionId "error"
                        (PError "Background processing error"
                           (Some (message error))))
        else ret ());;
       s ← read session;
       if pendingFinalize s then
         processAudioChunk E sessionId sessionId session;;
         update session (set_pendingFinalize false)
       else ret ())
    (λ error, emit sessionId "error"
                (PError "Error processing audio data"
                   (Some (message error)))).

(** A property read on the payload of an event: a [TypeError] when the
    payload is [null] or [undefined] ([None]); any other payload has its
    fields, possibly undefined ones. *)
Definition fields {A : Type} (payload : option A) : M A :=
  match payload with
  | Some data => ret data
  | None => throw (Error Local "Cannot read properties of undefined")
  end.

(** [socket.on('audio', ...)]; the payload is read for the first time in
    the test of the paused branch, or else after [lastProcessed] has been
    set. *)
Definition on_audio_payload (E : Env) (socket : Socket)
  (payload : option AudioMsg) (has_ack : bool) : M unit :=
  let sessionId := socket_id socket in
  try_catch
    (session ← sessions_get sessionId;
     match session with
     | None => ret ()
     | Some session =>
         s ← read session;
         if isPaused s then
           msg ← fields payload;
           match decode E msg with
           | Some chunk =>
               update session (set_pendingChunks (pendingChunks s ++ [chunk]))
           | None => ret ()
           end;;
           ack has_ack sessionId (PAudioAck "buffered" (data_length msg))
         else
           t ← ask (Date_now E);
           update session (set_lastProcessed t);;
           msg ← fields payload;
           (if truthy_number (declaredRate msg) then
              update session (set_sampleRate (default 0 (declaredRate msg)))
            else ret ());;
           on_audio_frame E sessionId session msg has_ack
     end)
    (λ error, emit sessionId "error"
                (PError "Error in audio handler" (Some (message error)))).

(** The handler on a payload that is an object. *)
Definition on_audio (E : Env) (socket : Socket) (msg : AudioMsg)
  (has_ack : bool) : M unit :=
  on_audio_payload E socket (Some msg) has_ack.

(** [socket.on('pause-recording', ...)] *)
Definition on_pause (socket : Socket) (has_callback : bool) : M unit :=
  let sessionId := socket_sessionId socket in
  if negb (truthy_string sessionId) then
    ack has_callback (socket_id socket) (PResult false "No session ID found" None None)
  else
    session ← sessions_get (default "" sessionId);
    match session with
    | Some session =>
        update session (set_isPaused true);;
        ack has_callback (socket_id socket) (PResult true "Recording paused" None None)
    | None =>
        ack has_callback (socket_id socket) (PResult false "Session not found" None None)
    end.

(** The [for ... of session.pendingChunks] loop of the resume handler. *)
Fixpoint replay (E : Env) (session : string) (chunks : list Buffer) : M unit :=
  match chunks with
  | [] => ret ()
  | chunk :: chunks' =>
      try_catch (streamToDisk E session chunk;; ret ()) (λ _, ret ());;
      replay E session chunks'
  end.

(** [socket.on('resume-recording', ...)] *)
Definition on_resume (E : Env) (socket : Socket) (has_callback : bool) : M unit :=
  let sessionId := socket_sessionId socket in
  if negb (truthy_string sessionId) then
    ack has_callback (socket_id socket) (PResult false "No session ID found" None None)
  else
    session ← sessions_get (default "" sessionId);
    match session with
    | Some session =>
        update session (set_isPaused false);;
        s ← read session;
        (if bool_decide (0 < length (pendingChunks s))%nat then
           replay E session (pendingChunks s);;
           update session (set_pendingChunks [])
         else ret ());;
        ack has_callback (socket_id socket) (PResult true "Recording resumed" None None)
    | None =>
        ack has_callback (socket_id socket) (PResult false "Session not found" None None)
    end.

(** [socket.on('stop-recording', ...)] *)
Definition on_stop (E : Env) (socket : Socket) (has_callback : bool) : M unit :=
  let sessionId := socket_sessionId socket in
  if negb (truthy_string sessionId) then
    ack has_callback (socket_id socket) (PResult false "No session ID found" None None)
  else
    let sessionId := default "" sessionId in
    session ← sessions_get sessionId;
    match session with
    | None =>
        ack has_callback (socket_id socket) (PResult false "Session not found" None None)
    | Some session =>
        try_catch
          (update session (set_pendingFinalize true);;
           s ← read session;
           (if truthy_string (tempFile s) then
              processAudioChunk E (socket_id socket) sessionId session
            else ret ());;
           update session (set_pendingFinalize false);;
           s ← read session;
           ack has_callback (socket_id socket)
             (PResult true "Recording stopped and final chunk processed"
                (tempFile s) None))
          (λ error,
             ack has_callback (socket_id socket)
               (PResult false "Error stopping recording" None (Some (message error))))
    end.

(** [socket.on('disconnect', ...)] *)
Definition on_disconnect (E : Env) (socket : Socket) : M unit :=
  let sessionId := socket_sessionId socket in
  if negb (truthy_string sessionId) then ret ()
  else
    let sessionId := default "" sessionId in
    session ← sessions_get sessionId;
    match session with
    | None => ret ()
    | Some session =>
        try_catch
          (s ← read session;
           (if truthy_string (tempFile s) && negb (isPaused s) then
              try_catch (processAudioChunk E (socket_id socket) sessionId session)
                (λ _, ret ())
            else ret ());;
           cleanupSession sessionId session)
          (λ _, cleanupSession sessionId session)
    end.

(** Running a handler from a world: the outcome and the world after. *)
Definition run {A} (m : M A) (w : World) : Outcome A * World := m w.
Definition exec {A} (m : M A) (w : World) : World := (m w).2.

End Speech.

(** ** Concrete runs *)

Module Scenario.
Import Buf Wav Js Session Speech.

Definition clock0 : Z := 1700000000000.

(** An environment whose Groq endpoint times out and whose local Whisper
    engine fails, whatever is sent. *)
Definition E_down : Env :=
  {| GROQ_API_KEY := Some "gsk-test";
     TEMP_DIR := "/srv/temp";
     Date_now := λ k, clock0 + Z.of_nat k;
     uuidv4 := λ k, "chunk-" +:+ pretty k;
     Math_random := λ _, (1 # 2)%Q;
     groq := λ _, FetchRejects "request timed out";
     whisper := λ _, WhisperThrows "Whisper fallback transcription failed";
     base64 := λ _, [] |}.

(** An environment whose Groq endpoint answers every request. *)
Definition E_up : Env :=
  {| GROQ_API_KEY := Some "gsk-test";
     TEMP_DIR := "/srv/temp";
     Date_now := λ k, clock0 + Z.of_nat k;
     uuidv4 := λ k, "chunk-" +:+ pretty k;
     Math_random := λ _, (1 # 2)%Q;
     groq := λ _, OkText "hello";
     whisper := λ _, WhisperThrows "Whisper fallback transcription failed";
     base64 := λ _, [] |}.

(** A frame of [n] bytes that passes the RIFF/WAVE check, padded with
    [fill]. *)
Definition wav_frame (n : nat) (fill : Z) : list Z :=
  ascii_codes "RIFF" ++ [0; 0; 0; 0] ++ ascii_codes "WAVE" ++ replicate (n - 12) fill.

Definition frame_msg (bytes : list Z) (rate : option Z) : AudioMsg :=
  {| data := DArray bytes; format := Some "wav"; declaredRate := rate |}.

(** The socket as the connection handler gets it: nothing in the server
    assigns its [sessionId] property. *)
Definition client : Socket := {| socket_id := "s1"; socket_sessionId := None |}.

(** The same socket with the [sessionId] property set to its id. *)
Definition client_with_id : Socket :=
  {| socket_id := "s1"; socket_sessionId := Some "s1" |}.

Definition connected (E : Env) : World := exec (on_connection E client) empty_world.

(** The bodies of the requests sent to Groq, oldest first. *)
Definition groq_bodies (l : list Event) : list (list Z) :=
  omap (λ e, match e with GroqRequest b => Some b | _ => None end) l.

(** A session whose temp file holds one 16-byte frame after its header,
    and the path of that file. *)
Definition small_chunk (E : Env) : World :=
  exec (on_audio E client (frame_msg (wav_frame 16 0) None) true) (connected E).
Definition small_chunk_path : string := "/srv/temp/chunk-2.wav".

End Scenario.

(** ** Properties stated about runs *)

Module Props.
Import Buf Wav Js Session Speech.

(** The content of the session's temp file, if it has one. *)
Definition chunk_file (w : World) (session : string) : option (list Z) :=
  tempFile (objects w !!! session) ≫= λ path, files w !! path.

(** The bytes streamed to the session's temp file after its 44-byte
    header. *)
Definition chunk_data (w : World) (session : string) : list Z :=
  drop 44 (default [] (chunk_file w session)).

(** A sample rate [createWavHeader] can write: the rate and the byte rate
    [2 * rate] are unsigned 32-bit numbers. *)
Definition rate_ok (r : Z) : Prop := 0 ≤ r ∧ 2 * r < 2 ^ 32.

(** The session can take a frame: either it has no temp file yet and its
    rate can be written into a header, or its temp file exists, holds a
    header, and its append stream is open on it. *)
Definition storage_ok (w : World) (session : string) : Prop :=
  let s := objects w !!! session in
  match tempFile s with
  | None => rate_ok (sampleRate s) ∧ writeStream s = None
  | Some path =>
      path ≠ ""
      ∧ writeStream s = Some {| ws_path := path; ws_ended := false |}
      ∧ ∃ content, files w !! path = Some content ∧ (44 ≤ length content)%nat
  end.

Definition is_call (e : Event) : bool :=
  match e with CallTranscribeAudio _ => true | _ => false end.
Definition is_groq (e : Event) : bool :=
  match e with GroqRequest _ => true | _ => false end.
Definition is_whisper (e : Event) : bool :=
  match e with WhisperRequest _ _ => true | _ => false end.
Definition is_sleep (e : Event) : bool :=
  match e with Sleep _ _ => true | _ => false end.
Definition is_emit (e : Event) : bool :=
  match e with Emit _ _ _ | Ack _ _ => true | _ => false end.

(** How many events of a kind a log holds. *)
Definition count (kind : Event → bool) (l : list Event) : nat :=
  length (filter (λ e, kind e = true) l).

(** A sleep whose length is within [0.8, 1.2] times
    [min(1000 * 2^(n-1), 30000)] for its attempt [n]. *)
Definition sleep_in_bounds (e : Event) : Prop :=
  match e with
  | Sleep n ms =>
      1 ≤ n ∧
      ((4 # 5) * inject_Z (Z.min (1000 * 2 ^ (n - 1)) 30000) <= inject_Z ms)%Q ∧
      (inject_Z ms <= (6 # 5) * inject_Z (Z.min (1000 * 2 ^ (n - 1)) 30000))%Q
  | _ => True
  end.

(** A request to one of the two engines. *)
Definition is_request (e : Event) : bool := is_groq e || is_whisper e.

(** The events of the attempts of [transcribeWithRetry] from attempt [n]
    on.  An attempt is one call of [transcribeAudio] with the requests it
    makes; an attempt that is followed by another one is separated from it
    by exactly one sleep, the one after failed attempt [n], whose length
    is within the bounds for [n]; nothing is slept after the last
    attempt. *)
Inductive backed_off (path : string) : Z → list Event → Prop :=
| backed_off_last (n : Z) (requests : list Event) :
    Forall (λ e, is_request e = true) requests →
    backed_off path n (CallTranscribeAudio path :: requests)
| backed_off_retry (n ms : Z) (requests rest : list Event) :
    Forall (λ e, is_request e = true) requests →
    sleep_in_bounds (Sleep n ms) →
    backed_off path (n + 1) rest →
    backed_off path n (CallTranscribeAudio path :: requests ++ Sleep n ms :: rest).

(** The error events a log holds for a socket. *)
Definition error_events (socket : string) (l : list Event) : list Payload :=
  omap (λ e, match e with
             | Emit s "error" p => if bool_decide (s = socket) then Some p else None
             | _ => None
             end) l.

(** [w'] differs from [w] in its log, which gained [evs], and in the
    oracle counter at most. *)
Definition only_log (w w' : World) (evs : list Event) : Prop :=
  objects w' = objects w ∧ sessions w' = sessions w ∧ files w' = files w
  ∧ log w' = log w ++ evs ∧ (tick w ≤ tick w')%nat.

(** The error the [try] block of [transcribeAudio] throws for a reply of
    the Groq endpoint, if it throws. *)
Definition groq_error (r : ApiReply) : option JsError :=
  match r with
  | FetchRejects msg => Some (Error Primary msg)
  | NotOk status em bm => Some (Error Primary (http_error_message status em bm))
  | BodyRejects msg => Some (Error Primary msg)
  | OkNoText => Some (Error Primary "Invalid response format from Groq API")
  | OkText _ => None
  end.

(** The text the fallback block of [transcribeAudio] returns for a reply of
    the Whisper service, if it returns one. *)
Definition whisper_text (r : WhisperReply) : option string :=
  match r with
  | WhisperThrows _ => None
  | WhisperResult text => if truthy_string (Some text) then Some text else None
  end.

Definition too_large (size : nat) : JsError :=
  Error Primary ("Audio file too large (" +:+ pretty (Z.of_nat size)
                   +:+ " > " +:+ pretty MAX_AUDIO_SIZE +:+ " bytes)").

(** [e] is a failure of the primary path: the missing key, the unreadable
    or oversize file, or the error made from one of Groq's replies. *)
Definition primary_failure (E : Env) (w : World) (path : string) (e : JsError) : Prop :=
  e = Error Primary "Groq API key not configured"
  ∨ e = Error Primary "File not found or not readable"
  ∨ (∃ content, files w !! path = Some content ∧ e = too_large (length content))
  ∨ (∃ k, groq_error (groq E k) = Some e).

(** The payload of an error event gives [msg] as its reason. *)
Definition surfaces (msg : string) (p : Payload) : Prop :=
  match p with
  | PError m details => m = msg ∨ details = Some msg
  | PString s => s = msg
  | _ => False
  end.

(** No call of [transcribeAudio] follows an invocation of the fallback
    engine, as a check on a log. *)
Fixpoint no_call_after_whisper (l : list Event) : bool :=
  match l with
  | [] => true
  | e :: l' =>
      (if is_whisper e then forallb (λ e', negb (is_call e')) l' else true)
      && no_call_after_whisper l'
  end.

(** What [transcribeAudio] does with the primary error [e] once the
    fallback block has run. *)
Definition after_fallback (e : JsError) (r : WhisperReply) : Outcome string :=
  match whisper_text r with
  | Some text => Return text
  | None => Throw e
  end.

(** Every session object has the same sample rate in [w'] as in [w]. *)
Definition same_rates (w w' : World) : Prop :=
  ∀ k, sampleRate (objects w' !!! k) = sampleRate (objects w !!! k).

(** Whatever the world it starts from, [m] ends in a world related to it
    by [R]. *)
Definition preserves {A} (R : World → World → Prop) (m : M A) : Prop :=
  ∀ w, R w (m w).2.

(** The fields of a session that decide where a frame goes. *)
Definition same_control (w w' : World) (session : string) : Prop :=
  isPaused (objects w' !!! session) = isPaused (objects w !!! session)
  ∧ pendingChunks (objects w' !!! session) = pendingChunks (objects w !!! session)
  ∧ sessions w' = sessions w.

(** From [w] to [w'] the bytes [extra] were appended to the session's
    chunk, the session can still take a frame, it has kept its temp file
    if it had one, and its control fields are as they were. *)
Definition appended (session : string) (extra : list Z) (w w' : World) : Prop :=
  storage_ok w' session
  ∧ chunk_data w' session = chunk_data w session ++ extra
  ∧ same_control w w' session
  ∧ (is_Some (tempFile (objects w !!! session)) →
     is_Some (tempFile (objects w' !!! session))).


(** Every session object has the same [audioChunks] in [w'] as in [w]. *)
Definition same_chunks (w w' : World) : Prop :=
  ∀ k, audioChunks (objects w' !!! k) = audioChunks (objects w !!! k).

(** The session has been given a temp file name but no append stream:
    what [streamToDisk] leaves behind when [createWavHeader] throws. *)
Definition stranded (w : World) (session : string) : Prop :=
  ∃ path, tempFile (objects w !!! session) = Some path ∧ path ≠ ""
          ∧ writeStream (objects w !!! session) = None.

(** The reason the [audio] handler gives for turning a frame down before
    it is stored. *)
Definition rejection (E : Env) (msg : AudioMsg) : option string :=
  match decode E msg with
  | None => Some ("Invalid audio data format: " +:+ typeof_data msg)
  | Some audioData =>
      if isWav audioData then None
      else Some "Invalid WAV data: Missing RIFF/WAVE headers"
  end.

(** The session's sample rate once a frame that is not buffered has been
    taken in. *)
Definition rate_after (msg : AudioMsg) (s : SessionData) : Z :=
  if truthy_number (declaredRate msg) then default 0 (declaredRate msg)
  else sampleRate s.

End Props.

(** ** The idle-session sweep *)

Module Reaper.
Import Buf Js Session Speech.

Definition SESSION_TIMEOUT : Z := 5 * 60 * 1000.

(** The [for ... of sessions.entries()] loop of the sweep; [order] lists
    the keys of the session map in the order the map yields them.  The
    loop starts [cleanupSession] without awaiting it; here each cleanup
    runs to its end before the next test, as every handler does. *)
Fixpoint sweep (now : Z) (order : list string) : M unit :=
  match order with
  | [] => ret ()
  | sessionId :: order' =>
      session ← read sessionId;
      (if bool_decide (SESSION_TIMEOUT < now - lastProcessed session) then
         cleanupSession sessionId sessionId
       else ret ());;
      sweep now order'
  end.

(** One tick of the [setInterval] callback. *)
Definition reap (E : Env) (order : list string) : M unit :=
  now ← ask (Date_now E);
  sweep now order.

(** [order] is what iterating over the session map of [w] yields: every
    key once. *)
Definition enumerates (order : list string) (w : World) : Prop :=
  NoDup order ∧ ∀ k, k ∈ order ↔ k ∈ sessions w.

(** The sweep's test on a session, at clock reading [now]. *)
Definition idle (now : Z) (w : World) (sessionId : string) : Prop :=
  SESSION_TIMEOUT < now - lastProcessed (objects w !!! sessionId).

End Reaper.

(** ** A socket's events, one after the other *)

Module Trace.
Import Buf Js Session Speech Reaper.

(** [socket.on('process-audio', ...)] *)
Definition on_process_audio (E : Env) (socket : Socket) : M unit :=
  let sessionId := socket_id socket in
  session ← sessions_get sessionId;
  match session with
  | Some session =>
      s ← read session;
      if bool_decide (0 < length (audioChunks s))%nat then
        processAudioChunk E sessionId sessionId session
      else ret ()
  | None => ret ()
  end.

Inductive ClientEvent :=
| Init (data : option InitData) (has_callback : bool)
| Audio (payload : option AudioMsg) (has_ack : bool)
| Process
| Pause (has_callback : bool)
| Resume (has_callback : bool)
| Stop (has_callback : bool).

(** The handler socket.io runs for an event. *)
Definition handle (E : Env) (socket : Socket) (ev : ClientEvent) : M unit :=
  match ev with
  | Init data has_callback => on_init E socket data has_callback
  | Audio payload has_ack => on_audio_payload E socket payload has_ack
  | Process => on_process_audio E socket
  | Pause has_callback => on_pause socket has_callback
  | Resume has_callback => on_resume E socket has_callback
  | Stop has_callback => on_stop E socket has_callback
  end.

Definition handle_all (E : Env) (socket : Socket) (evs : list ClientEvent)
  (w : World) : World :=
  foldl (λ w ev, exec (handle E socket ev) w) w evs.

(** The sample rates an event asks the session to take, if any, can be
    written into a WAV header. *)
Definition rates_fit (ev : ClientEvent) : Prop :=
  match ev with
  | Init (Some data) _ =>
      truthy_number (init_sampleRate data) = true →
      0 ≤ default 0 (init_sampleRate data) ∧ 2 * default 0 (init_sampleRate data) < 2 ^ 32
  | Audio (Some msg) _ =>
      truthy_number (declaredRate msg) = true →
      0 ≤ default 0 (declaredRate msg) ∧ 2 * default 0 (declaredRate msg) < 2 ^ 32
  | _ => True
  end.

(** What happens to the server: a socket connects, sends an event or
    disconnects, or the sweep timer fires (with the order in which the
    session map is iterated). *)
Inductive Step :=
| Connect (socket : Socket)
| Receive (socket : Socket) (ev : ClientEvent)
| Disconnect (socket : Socket)
| Sweep (order : list string).

Definition step (E : Env) (s : Step) : M unit :=
  match s with
  | Connect socket => on_connection E socket
  | Receive socket ev => handle E socket ev
  | Disconnect socket => on_disconnect E socket
  | Sweep order => reap E order
  end.

(** The world after a history of the server. *)
Definition server (E : Env) (history : list Step) (w : World) : World :=
  foldl (λ w s, exec (step E s) w) w history.

End Trace.

(** ** The video-call rooms: [WebRTCService] and its socket handlers *)

Module Rooms.

(** The [user] of a [join-room] message: a participant without [id] and
    [joinedAt]. *)
Record User := {
  userId : string;
  name : string;
  role : string
}.

(** [{ ...participant, id, joinedAt }] *)
Record Participant := {
  p_user : User;
  p_id : string;
  p_joinedAt : string
}.

(** [{ ...metadata, createdAt, createdBy }] for the metadata the
    [join-room] handler passes (a title). *)
Record Metadata := {
  title : string;
  createdAt : string;
  createdBy : string
}.

Record Room := {
  room_id : string;
  participants : gmap string Participant;
  metadata : Metadata
}.

(** The names an empty object literal inherits from [Object.prototype]:
    [this.rooms[name]] is defined for them although no room was stored. *)
Definition inherited_names : list string :=
  ["constructor"; "__proto__"; "hasOwnProperty"; "isPrototypeOf";
   "propertyIsEnumerable"; "toLocaleString"; "toString"; "valueOf";
   "__defineGetter__"; "__defineSetter__"; "__lookupGetter__";
   "__lookupSetter__"].

(** What [this.rooms[roomId]] evaluates to: a stored room, a value
    inherited from the prototype (truthy, with no [participants]), or
    [undefined]. *)
Inductive Slot :=
| Own (room : Room)
| Inherited
| Undefined.

Definition rooms_get (rooms : gmap string Room) (roomId : string) : Slot :=
  match rooms !! roomId with
  | Some room => Own room
  | None => if bool_decide (roomId ∈ inherited_names) then Inherited else Undefined
  end.

(** The outcome of a call: a value, or a thrown error with its message. *)
Inductive Res (A : Type) :=
| Ok (a : A)
| Raise (msg : string).
Arguments Ok {A} a.
Arguments Raise {A} msg.

(** What a handler draws from outside: the title made from the clock,
    the digits [generateRoomId] takes from [Math.random], the time stamp
    [createRoom] makes with [new Date().toISOString()], a uuid and the time
    stamp of [addParticipant]. *)
Record Draw := {
  draw_title : string;
  draw_digits : string;
  draw_createdAt : string;
  draw_uuid : string;
  draw_joinedAt : string
}.

(** [generateRoomId()] *)
Definition generateRoomId (d : Draw) : string := "room_" +:+ draw_digits d.

(** [createRoom(creatorId, metadata)] with [metadata = { title }] *)
Definition createRoom (d : Draw) (creatorId title : string)
  (rooms : gmap string Room) : Room * gmap string Room :=
  let roomId := generateRoomId d in
  let room := {| room_id := roomId; participants := ∅;
                 metadata := {| title := title; createdAt := draw_createdAt d;
                                createdBy := creatorId |} |} in
  (room, <[roomId := room]> rooms).

(** [addParticipant(roomId, participant)]; [null] is [Ok None]. *)
Definition addParticipant (d : Draw) (roomId : string) (user : User)
  (rooms : gmap string Room) : Res (option Participant) * gmap string Room :=
  match rooms_get rooms roomId with
  | Undefined => (Ok None, rooms)
  | Inherited => (Raise "Cannot read properties of undefined (reading 'set')", rooms)
  | Own room =>
      let participantId := draw_uuid d in
      let newParticipant := {| p_user := user; p_id := participantId;
                               p_joinedAt := draw_joinedAt d |} in
      (Ok (Some newParticipant),
       <[roomId := {| room_id := room_id room;
                      participants := <[participantId := newParticipant]> (participants room);
                      metadata := metadata room |}]> rooms)
  end.

(** [removeParticipant(roomId, participantId)] *)
Definition removeParticipant (roomId participantId : string)
  (rooms : gmap string Room) : Res bool * gmap string Room :=
  match rooms_get rooms roomId with
  | Undefined => (Ok false, rooms)
  | Inherited => (Raise "Cannot read properties of undefined (reading 'delete')", rooms)
  | Own room =>
      (Ok (bool_decide (is_Some (participants room !! participantId))),
       <[roomId := {| room_id := room_id room;
                      participants := delete participantId (participants room);
                      metadata := metadata room |}]> rooms)
  end.

(** [getRoom(roomId)]: [this.rooms[roomId] || null]. *)
Definition getRoom (roomId : string) (rooms : gmap string Room) : Slot :=
  rooms_get rooms roomId.

(** [endCall(roomId)] *)
Definition endCall (roomId : string) (rooms : gmap string Room)
  : bool * gmap string Room :=
  match rooms_get rooms roomId with
  | Undefined => (false, rooms)
  | _ => (true, delete roomId rooms)
  end.

(** What a handler does to the sockets. *)
Inductive Effect :=
| SocketJoin (socket roomId : string)
| SocketLeave (socket roomId : string)
| ParticipantJoined (from roomId : string) (participant : Participant)
| ParticipantLeft (from roomId participantId : string)
| RoomInfo (socket : string) (room : Slot) (participantId : string)
| JoinError (socket : string) (details : string).

(** [socket.on('join-room', ...)] *)
Definition on_join_room (d : Draw) (socket roomId : string) (user : User)
  (rooms : gmap string Room) : list Effect * gmap string Room :=
  let '(created, rooms) :=
    match getRoom roomId rooms with
    | Undefined =>
        let '(room, rooms) := createRoom d (userId user) (draw_title d) rooms in
        (Some room, rooms)
    | _ => (None, rooms)
    end in
  match addParticipant d roomId user rooms with
  | (Raise msg, rooms) => ([JoinError socket msg], rooms)
  | (Ok None, rooms) => ([JoinError socket "Failed to join room"], rooms)
  | (Ok (Some participant), rooms) =>
      ([SocketJoin socket roomId;
        ParticipantJoined socket roomId participant;
        RoomInfo socket
          (match created with
           | Some room => rooms_get rooms (room_id room)
           | None => rooms_get rooms roomId
           end)
          (p_id participant)], rooms)
  end.

(** [socket.on('leave-room', ...)]; the handler has no [try]: an error
    thrown by the service leaves it. *)
Definition on_leave_room (socket roomId participantId : string)
  (rooms : gmap string Room) : Res (list Effect) * gmap string Room :=
  match removeParticipant roomId participantId rooms with
  | (Raise msg, rooms) => (Raise msg, rooms)
  | (Ok has_left, rooms) =>
      (Ok ((if has_left then [ParticipantLeft socket roomId participantId] else [])
           ++ [SocketLeave socket roomId]), rooms)
  end.

(** Every room is stored under an id [generateRoomId] made. *)
Definition generated_keys (rooms : gmap string Room) : Prop :=
  ∀ roomId, is_Some (rooms !! roomId) → String.prefix "room_" roomId = true.

End Rooms.


(** ** The local fallback engine: [WhisperFallbackService] *)

Module WhisperService.
Import Buf Js Session Speech.

(** How the spawned process settles the promise of [executeCommand]:
    [spawn] reports an error, or the process closes with an exit code
    ([null] when a signal ended it), its output and its error output. *)
Inductive Closed :=
| SpawnError (msg : string)
| Exit (code : option Z) (stdout stderr : string).

(** What [JSON.parse] makes of the output, as far as [parseTranscriptionResult]
    reads it: a syntax error, [null], or a value with the four fields it
    looks up (each absent or of its declared type). *)
Inductive Parsed :=
| SyntaxError
| JsonNull
| Fields (text language : option string) (duration confidence : option Q).

Record WhisperTranscriptionResult := {
  text : string;
  language : string;
  duration : Q;
  confidence : Q
}.

(** The process table, [String.prototype.trim] and [JSON.parse]. *)
Record Host := {
  spawn : string → list string → Closed;
  trim : string → string;
  JSON_parse : string → Parsed
}.

(** The service object: the fields the constructor sets. *)
Record Service := {
  pythonPath : string;
  scriptPath : string;
  tempDir : string
}.

(** [executeCommand(command, args)] *)
Definition executeCommand (H : Host) (command : string) (args : list string)
  : M string :=
  match spawn H command args with
  | SpawnError msg => throw (Error Fallback msg)
  | Exit (Some 0) stdout _ => ret (trim H stdout)
  | Exit code _ stderr =>
      throw (Error Fallback
               ("Command failed with code "
                  +:+ from_option pretty "null" code +:+ ": " +:+ stderr))
  end.

(** [parseTranscriptionResult(output)] *)
Definition parseTranscriptionResult (H : Host) (output : string)
  : M WhisperTranscriptionResult :=
  try_catch
    (match JSON_parse H output with
     | SyntaxError => throw (Error Fallback "Unexpected token in JSON")
     | JsonNull => throw (Error Fallback "Cannot read properties of null (reading 'text')")
     | Fields text language duration confidence =>
         ret {| text := if truthy_string text then default "" text else "";
                language := if truthy_string language then default "" language else "en";
                duration := default 0%Q duration;
                confidence := default 0%Q confidence |}
     end)
    (λ _, throw (Error Fallback "Failed to parse transcription result")).

(** The arguments [transcribe] passes to the script. *)
Definition script_args (S : Service) (tempAudioPath : string) (sampleRate : Z)
  : list string :=
  [scriptPath S; "--audio"; tempAudioPath; "--sample-rate"; pretty sampleRate;
   "--model"; "base"; "--language"; "en"].

(** [transcribe(audioData, sampleRate)] *)
Definition transcribe (E : Env) (H : Host) (S : Service) (audioData : Buffer)
  (sampleRate : Z) : M WhisperTranscriptionResult :=
  u ← ask (uuidv4 E);
  let tempAudioPath := join (tempDir S) (u +:+ ".wav") in
  finally
    (try_catch
       (fs_writeFile tempAudioPath audioData;;
        result ← executeCommand H (pythonPath S) (script_args S tempAudioPath sampleRate);
        parseTranscriptionResult H result)
       (λ _, throw (Error Fallback "Whisper fallback transcription failed")))
    (try_catch (fs_unlink Fallback tempAudioPath) (λ _, ret ())).

(** What [transcribeAudio] sees of a call of [transcribe]. *)
Definition reply (o : Outcome WhisperTranscriptionResult) : WhisperReply :=
  match o with
  | Return result => WhisperResult (text result)
  | Throw error => WhisperThrows (message error)
  end.

End WhisperService.

(** ** More concrete environments *)

Module Samples.
Import Buf Wav Js Session Speech Scenario.

(** An environment in which [GROQ_API_KEY] is not set. *)
Definition E_no_key : Env :=
  {| GROQ_API_KEY := None;
     TEMP_DIR := "/srv/temp";
     Date_now := λ k, clock0 + Z.of_nat k;
     uuidv4 := λ k, "chunk-" +:+ pretty k;
     Math_random := λ _, (1 # 2)%Q;
     groq := λ _, OkText "hello";
     whisper := λ _, WhisperThrows "Whisper fallback transcription failed";
     base64 := λ _, [] |}.


(** The options [streamToDisk] passes to [createWavHeader] for a session
    at 16 kHz. *)
Definition speech_options : WavOptions :=
  {| Wav.sampleRate := 16000; channels := 1; bitDepth := 16; Wav.format := 1 |}.

(** An environment whose Groq endpoint answers with an empty text. *)
Definition E_silent : Env :=
  {| GROQ_API_KEY := Some "gsk-test";
     TEMP_DIR := "/srv/temp";
     Date_now := λ k, clock0 + Z.of_nat k;
     uuidv4 := λ k, "chunk-" +:+ pretty k;
     Math_random := λ _, (1 # 2)%Q;
     groq := λ _, OkText "";
     whisper := λ _, WhisperResult "local text";
     base64 := λ _, [] |}.

(** An environment whose Groq endpoint answers without a text and whose
    local Whisper engine returns an empty one. *)
Definition E_malformed : Env :=
  {| GROQ_API_KEY := Some "gsk-test";
     TEMP_DIR := "/srv/temp";
     Date_now := λ k, clock0 + Z.of_nat k;
     uuidv4 := λ k, "chunk-" +:+ pretty k;
     Math_random := λ _, (1 # 2)%Q;
     groq := λ _, OkNoText;
     whisper := λ _, WhisperResult "";
     base64 := λ _, [] |}.

(** A world whose only file is a header-sized chunk. *)
Definition one_file : World :=
  set_files (<["/srv/temp/a.wav" := wav_frame 44 0]>) empty_world.

(** What a [join-room] draws, a user, and a room of the service. *)
Definition draw1 : Rooms.Draw :=
  {| Rooms.draw_title := "Consultation 1/1/2025, 10:00:00 AM";
     Rooms.draw_digits := "k3j9x2m1q";
     Rooms.draw_createdAt := "2025-01-01T10:00:00.000Z";
     Rooms.draw_uuid := "uuid-1";
     Rooms.draw_joinedAt := "2025-01-01T10:00:00.001Z" |}.

Definition ann : Rooms.User :=
  {| Rooms.userId := "u1"; Rooms.name := "Ann"; Rooms.role := "doctor" |}.

Definition room_abc : Rooms.Room :=
  {| Rooms.room_id := "room_abc"; Rooms.participants := ∅;
     Rooms.metadata := {| Rooms.title := "Consultation";
                          Rooms.createdAt := "2025-01-01T09:00:00.000Z";
                          Rooms.createdBy := "u0" |} |}.

(** A host whose script ends with code 0 and prints an empty JSON object,
    and the service object. *)
Definition host_empty : WhisperService.Host :=
  {| WhisperService.spawn := λ _ _, WhisperService.Exit (Some 0) "{}" "";
     WhisperService.trim := λ s, s;
     WhisperService.JSON_parse := λ _, WhisperService.Fields None None None None |}.

Definition service : WhisperService.Service :=
  {| WhisperService.pythonPath := "python3";
     WhisperService.scriptPath := "/srv/whisper_integration/src/whisper_service.py";
     WhisperService.tempDir := "/srv/temp" |}.

(** An environment whose clock advances 400 seconds between two
    readings. *)
Definition E_slow : Env :=
  {| GROQ_API_KEY := Some "gsk-test";
     TEMP_DIR := "/srv/temp";
     Date_now := λ k, clock0 + 400000 * Z.of_nat k;
     uuidv4 := λ k, "chunk-" +:+ pretty k;
     Math_random := λ _, (1 # 2)%Q;
     groq := λ _, OkText "hello";
     whisper := λ _, WhisperThrows "Whisper fallback transcription failed";
     base64 := λ _, [] |}.

End Samples.

Import Number Buf Wav Js Session Speech Scenario Props.
Import Reaper Trace Samples.

(** ** Running the monad *)

Lemma run_bind {A B} (m : M A) (k : A → M B) (w : World) :
  (m ≫= k) w =
  match m w with
  | (Return a, w') => k a w'
  | (Throw e, w') => (Throw e, w')
  end.
Proof. reflexivity. Qed.

Lemma run_try_catch {A} (m : M A) (h : JsError → M A) (w : World) :
  try_catch m h w =
  match m w with
  | (Return a, w') => (Return a, w')
  | (Throw e, w') => h e w'
  end.
Proof. reflexivity. Qed.

(** Unfold the monad and the accessors of the world, nothing else. *)
Ltac mrun :=
  lazy beta iota zeta delta
    [mbind M_bind mret M_ret bind ret throw try_catch finally get_world modify
     emit ack record ask read update sessions_get run exec];
  cbn [fst snd set_log set_tick set_objects set_files set_sessions
       objects sessions files tick log].

Tactic Notation "mrun" "in" hyp(H) :=
  lazy beta iota zeta delta
    [mbind M_bind mret M_ret bind ret throw try_catch finally get_world modify
     emit ack record ask read update sessions_get run exec] in H;
  cbn [fst snd set_log set_tick set_objects set_files set_sessions
       objects sessions files tick log] in H.

Lemma lookup_total_update (o : gmap string SessionData) (k j : string) (v : SessionData) :
  <[k := v]> o !!! j = if decide (k = j) then v else o !!! j.
Proof.
  destruct (decide (k = j)) as [->|Hne].
  - apply lookup_total_insert_eq.
  - by apply lookup_total_insert_ne.
Qed.

(** ** The WAV header *)

Lemma le_value_le_bytes_4 (v : Z) :
  0 ≤ v < 2 ^ 32 → le_value (le_bytes 4 v) = v.
Proof.
  intros Hv. unfold le_bytes. cbn [seq fmap list_fmap le_value].
  change 255 with (Z.ones 8).
  rewrite !Z.land_ones, !Z.shiftr_div_pow2 by lia.
  change (2 ^ (8 * Z.of_nat 0)) with 1.
  change (2 ^ (8 * Z.of_nat 1)) with 256.
  change (2 ^ (8 * Z.of_nat 2)) with (256 * 256).
  change (2 ^ (8 * Z.of_nat 3)) with (256 * 256 * 256).
  change (2 ^ 8) with 256.
  rewrite Z.div_1_r, <- !Z.div_div by lia.
  set (q1 := v / 256). set (q2 := q1 / 256). set (q3 := q2 / 256).
  pose proof (Z.div_mod v 256 ltac:(lia)) as H0.
  pose proof (Z.div_mod q1 256 ltac:(lia)) as H1.
  pose proof (Z.div_mod q2 256 ltac:(lia)) as H2.
  assert (0 ≤ q3 < 256) as H3.
  { subst q3 q2 q1. rewrite !Z.div_div by lia. split.
    - apply Z.div_pos; lia.
    - apply Z.div_lt_upper_bound; lia. }
  rewrite (Z.mod_small q3 256) by lia.
  fold q1 in H0. fold q2 in H1. fold q3 in H2. lia.
Qed.

(** What [updateWavHeader] leaves in a file that holds a header: the field
    at offset 4 is [28 + dataSize], the field at offset 40 is [dataSize],
    and nothing after the header moves. *)
Lemma updateWavHeader_content_fields (file : list Z) (n : Z) :
  (44 ≤ length file)%nat → 0 ≤ n → n + 28 < 2 ^ 32 →
  ∃ file', updateWavHeader_content file n = (file', true)
    ∧ readUInt32LE 4 file' = Some (28 + n)
    ∧ readUInt32LE 40 file' = Some n
    ∧ length file' = length file
    ∧ drop 44 file' = drop 44 file.
Proof.
  intros Hlen Hn Hmax.
  do 44 (destruct file as [|? file]; [simpl in Hlen; lia|]).
  unfold updateWavHeader_content, writeUInt32LE, writeUIntLE.
  rewrite !bool_decide_eq_true_2 by (simpl; lia).
  cbn [andb]. eexists. split; [reflexivity|].
  pose proof (le_value_le_bytes_4 (28 + n) ltac:(lia)) as E1.
  pose proof (le_value_le_bytes_4 n ltac:(lia)) as E2.
  unfold le_bytes in *. cbn [seq fmap list_fmap] in *.
  unfold readUInt32LE, fd_write, alloc.
  cbn [replicate blit length Nat.add Nat.sub take drop app insert list_insert].
  rewrite !bool_decide_eq_true_2 by (cbn [length]; lia).
  cbn [replicate blit length Nat.add Nat.sub take drop app insert list_insert].
  replace (36 + n - 8) with (28 + n) by lia.
  repeat split; try (f_equal; assumption); reflexivity.
Qed.

(** ** Finalizing, resetting and readiness on concrete runs *)

(** C1. The claim asks for the RIFF size field at offset 4 to be [36 + n]
    after a chunk with [n] data bytes is finalized.  Here a fresh session
    streams 3000 bytes and the chunk is processed: the data size field at
    offset 40 is 3000, but the field at offset 4 holds 3028 = 28 + 3000
    ([updateWavHeader] subtracts 8 from a value that is already the file
    size minus 8), not 3036. *)
Theorem finalized_riff_size_is_28_plus_n :
  let frame := wav_frame 3000 0 in
  let w1 := exec (on_audio E_down client (frame_msg frame None) true) (connected E_down) in
  let w2 := exec (processAudioChunk E_down "s1" "s1" "s1") w1 in
  ∃ file, chunk_file w2 "s1" = Some file
    ∧ length (drop 44 file) = 3000%nat
    ∧ readUInt32LE 40 file = Some 3000
    ∧ readUInt32LE 4 file = Some (28 + 3000)
    ∧ readUInt32LE 4 file ≠ Some (36 + 3000).
Proof.
  eexists. split; [vm_compute; reflexivity|].
  vm_compute. repeat split; try reflexivity. discriminate.
Qed.

(** C2. The claim asks for the chunk buffer to be reset once a chunk has
    been sent to transcription.  Here frame [A] (16000 bytes) is streamed
    and transcribed, then frame [B] (3000 bytes) arrives: the session keeps
    the same temp file, and the second request sent to Groq holds the
    bytes of [A] again, followed by [B]. *)
Theorem transcribed_bytes_are_sent_again :
  let A := wav_frame (Z.to_nat 16000) 1 in
  let B := wav_frame 3000 2 in
  let wA := exec (on_audio E_up client (frame_msg A None) true) (connected E_up) in
  let wB := exec (on_audio E_up client (frame_msg B None) true) wA in
  is_Some (tempFile (objects wA !!! "s1"))
  ∧ tempFile (objects wB !!! "s1") = tempFile (objects wA !!! "s1")
  ∧ ∃ h1 h2, length h1 = 44%nat ∧ length h2 = 44%nat
      ∧ groq_bodies (log wA) = [h1 ++ A]
      ∧ groq_bodies (log wB) = [h1 ++ A; h2 ++ A ++ B].
Proof.
  intros A B wA wB.
  split; [vm_compute; eauto|].
  split; [vm_compute; reflexivity|].
  exists (take 44 (default [] (groq_bodies (log wB) !! 0%nat))),
         (take 44 (default [] (groq_bodies (log wB) !! 1%nat))).
  vm_compute. repeat split; reflexivity.
Qed.

(** C6. The claim asks for the readiness check to be true for the first
    non-empty chunk of a session whatever its size.  Here a fresh session
    at 16 kHz streams its first 3000 bytes: [shouldProcessChunk] answers
    false and no transcription is started ([lastProcessed] was set to the
    clock at connection, so the test [lastProcessed === 0] fails, and the
    temp file already exists when the check runs). *)
Theorem first_chunk_is_not_ready :
  let frame := wav_frame 3000 0 in
  let w0 := connected E_down in
  let w1 := exec (on_audio E_down client (frame_msg frame None) true) w0 in
  sampleRate (objects w0 !!! "s1") = 16000
  ∧ chunk_file w0 "s1" = None
  ∧ chunk_data w1 "s1" = frame
  ∧ (run (shouldProcessChunk E_down "s1" frame) w1).1 = Return false
  ∧ log w1 = [Ack "s1" (PAudioAck "received" 3000)].
Proof. vm_compute. repeat split; reflexivity. Qed.

(** ** Initialisation *)

(** C10, as stated, fails.  The [init] handler leaves the rate alone when
    the message has no [sampleRate]; it does not set the default.  A
    session whose first frame declares 44100 Hz and whose [init] message,
    sent after it, has no [sampleRate] is at 44100 Hz, not 16000, and the
    acknowledgement says so.  And an [init] event with no payload at all
    is not acknowledged: reading [data.sampleRate] throws, and the client
    gets the error event "Failed to initialize session". *)
Lemma declared_rate_survives_init :
  let data := {| init_sampleRate := None; init_language := None;
                 init_sessionId := None |} in
  let w1 := exec (on_audio E_up client (frame_msg (wav_frame 16 0) (Some 44100)) true)
              (connected E_up) in
  let w2 := exec (on_init E_up client (Some data) true) w1 in
  let w3 := exec (on_init E_up client None true) (connected E_up) in
  sampleRate (objects w2 !!! "s1") = 44100
  ∧ sampleRate (objects w2 !!! "s1") ≠ 16000
  ∧ (∃ t, last (log w2)
          = Some (Emit "s1" "init_ack"
                    (PInit true "s1" 44100 "Session initialized successfully" t)))
  ∧ log w3 = log (connected E_up)
             ++ [Emit "s1" "error" (PError "Failed to initialize session" None)].
Proof. vm_compute. split_and!; [reflexivity|discriminate|eauto|reflexivity]. Qed.

(** C10, amended.  An [init] message that is an object without a
    [sampleRate] leaves the session's sample rate as it is - the default
    of 16000 Hz when the message is the first thing handled after the
    connection - and the acknowledgement (the callback, when there is one,
    and the [init_ack] event) reports [success: true] with the session id
    and that rate. *)
Theorem init_without_sampleRate_keeps_the_rate (E : Env) (w : World) (socket : Socket)
    (language sid : option string) (has_callback : bool) :
  let data := {| init_sampleRate := None; init_language := language;
                 init_sessionId := sid |} in
  let rate := sampleRate (objects w !!! socket_id socket) in
  let w' := exec (on_init E socket (Some data) has_callback) w in
  let response := PInit true (socket_id socket) rate
                    "Session initialized successfully" (Date_now E (tick w)) in
  sampleRate (objects w' !!! socket_id socket) = rate
  ∧ log w' = log w
             ++ (if has_callback then [Ack (socket_id socket) response] else [])
             ++ [Emit (socket_id socket) "init_ack" response]
  ∧ (∀ w0, w = exec (on_connection E socket) w0 → rate = 16000)
  ∧ SAMPLE_RATE = 16000.
Proof.
  intros data rate w' response. subst rate w' response.
  unfold on_init, data, truthy_number, init_sampleRate.
  split_and!.
  - by destruct has_callback; mrun.
  - destruct has_callback; mrun; rewrite <- ?app_assoc; reflexivity.
  - intros w0 ->. unfold on_connection. mrun.
    by rewrite lookup_total_insert_eq.
  - reflexivity.
Qed.

(** ** One call of [transcribeAudio] *)

Lemma only_log_refl (w : World) : only_log w w [].
Proof. unfold only_log. rewrite app_nil_r. auto. Qed.

Lemma only_log_trans (w1 w2 w3 : World) (evs1 evs2 : list Event) :
  only_log w1 w2 evs1 → only_log w2 w3 evs2 → only_log w1 w3 (evs1 ++ evs2).
Proof.
  unfold only_log. intros (?&?&?&?&?) (?&?&?&?&?).
  repeat split; try congruence; [|lia].
  rewrite app_assoc. congruence.
Qed.

Ltac only_log_tac :=
  unfold only_log; mrun; rewrite <- ?app_assoc; repeat split; (reflexivity || lia).

(** Every way a call of [transcribeAudio] can go, with what it logs. *)
Lemma transcribeAudio_cases (E : Env) (path : string) (w : World) :
  ∃ o w' evs,
    transcribeAudio E path w = (o, w')
    ∧ only_log w w' (CallTranscribeAudio path :: evs)
    ∧ ((truthy_string (GROQ_API_KEY E) = false ∧ evs = []
        ∧ o = Throw (Error Primary "Groq API key not configured"))
       ∨ (truthy_string (GROQ_API_KEY E) = true ∧ files w !! path = None ∧ evs = []
          ∧ o = Throw (Error Primary "File not found or not readable"))
       ∨ (truthy_string (GROQ_API_KEY E) = true
          ∧ ∃ c, files w !! path = Some c ∧ MAX_AUDIO_SIZE < Z.of_nat (length c)
              ∧ evs = [WhisperRequest c 16000]
              ∧ o = after_fallback (too_large (length c)) (whisper E (tick w)))
       ∨ (truthy_string (GROQ_API_KEY E) = true
          ∧ ∃ c, files w !! path = Some c ∧ ¬ MAX_AUDIO_SIZE < Z.of_nat (length c)
              ∧ match groq_error (groq E (tick w)) with
                | None => ∃ t, groq E (tick w) = OkText t
                               ∧ evs = [GroqRequest c] ∧ o = Return t
                | Some e => evs = [GroqRequest c; WhisperRequest c 16000]
                            ∧ o = after_fallback e (whisper E (S (tick w)))
                end)).
Proof.
  unfold transcribeAudio, fs_access, fs_stat, fs_readFile.
  destruct (truthy_string (GROQ_API_KEY E)) eqn:Hkey; cbn [negb]; mrun.
  2:{ do 3 eexists. split; [reflexivity|]. split; [only_log_tac|]. left. auto. }
  destruct (files w !! path) as [c|] eqn:Hfile; mrun.
  2:{ rewrite Hfile. do 3 eexists. split; [reflexivity|].
      split; [only_log_tac|]. right. left. auto. }
  rewrite Hfile. mrun.
  destruct (bool_decide (MAX_AUDIO_SIZE < Z.of_nat (length c))) eqn:Hsize; mrun.
  - apply bool_decide_eq_true_1 in Hsize. rewrite Hfile. mrun.
    unfold after_fallback, whisper_text, too_large.
    destruct (whisper E (tick w)) as [msg|text]; mrun.
    + do 3 eexists. split; [reflexivity|]. split; [only_log_tac|].
      right. right. left. split; [done|]. exists c. auto.
    + destruct (truthy_string (Some text)); mrun;
        (do 3 eexists; split; [reflexivity|]; split; [only_log_tac|];
         right; right; left; split; [done|]; exists c; auto).
  - apply bool_decide_eq_false_1 in Hsize. rewrite Hfile. mrun.
    unfold after_fallback, whisper_text.
    destruct (groq E (tick w)) as [msg|status em bm|msg|text|] eqn:Hreply;
      cbn [groq_error]; mrun; rewrite ?Hfile; mrun.
    4:{ do 3 eexists. split; [reflexivity|]. split; [only_log_tac|].
        right. right. right. split; [done|]. exists c. repeat split; eauto. }
    all: destruct (whisper E (S (tick w))) as [wmsg|wtext]; mrun;
      [|destruct (truthy_string (Some wtext)); mrun];
      (do 3 eexists; split; [reflexivity|]; split; [only_log_tac|];
       right; right; right; split; [done|]; exists c; auto).
Qed.

(** ** The backoff delay *)

(** *** Rounding to a double moves a number by at most one part in 2^53 *)

Lemma round_even_error (y : Q) :
  (inject_Z (round_even y) - y <= 1 # 2)%Q ∧ (y - inject_Z (round_even y) <= 1 # 2)%Q.
Proof.
  unfold round_even.
  pose proof (Qfloor_le y) as H1. pose proof (Qlt_floor y) as H2.
  rewrite inject_Z_plus in H2. change (inject_Z 1) with 1%Q in H2.
  destruct (Qcompare_spec (y - inject_Z (Qfloor y)) (1 # 2)) as [H|H|H];
    [destruct (Z.even (Qfloor y))|..];
    rewrite ?inject_Z_plus; change (inject_Z 1) with 1%Q; split; lra.
Qed.

Lemma binade_spec (x : Q) :
  (0 < x)%Q → (inject_Z (2 ^ 52) <= x * 2 ^ (- binade x))%Q.
Proof.
  intros Hx. unfold binade.
  set (e0 := Z.log2 (Qnum x) - Z.log2 (Z.pos (Qden x)) - 53).
  destruct (Qle_bool (inject_Z (2 ^ 53)) (x * 2 ^ (- e0))) eqn:Htest.
  - apply Qle_bool_iff in Htest.
    replace (- (e0 + 1)) with (- e0 + -1) by lia.
    rewrite Qpower_plus by discriminate.
    change ((2:Q) ^ (-1))%Q with (1 # 2)%Q.
    change (inject_Z (2 ^ 53)) with (9007199254740992 # 1)%Q in Htest.
    change (inject_Z (2 ^ 52)) with (4503599627370496 # 1)%Q.
    set (y := (x * 2 ^ (- e0))%Q) in *.
    rewrite Qmult_assoc. fold y. lra.
  - clear Htest.
    assert (Hn : 0 < Qnum x) by (destruct x as [n d]; unfold Qlt in Hx; cbn in *; lia).
    set (n := Qnum x) in *. set (d := Z.pos (Qden x)) in *.
    assert (Hd : 0 < d) by (unfold d; lia).
    pose proof (Z.log2_spec n Hn) as [Ha _].
    pose proof (Z.log2_spec d Hd) as [_ Hb].
    pose proof (Z.log2_nonneg n) as Ha0. pose proof (Z.log2_nonneg d) as Hb0.
    set (a := Z.log2 n) in *. set (b := Z.log2 d) in *.
    assert (He : - e0 = b + 53 + - a) by (unfold e0; lia).
    rewrite He, !Qpower_plus, Qpower_opp by discriminate.
    change 2%Q with (inject_Z 2).
    rewrite <- !Zpower_Qpower by lia.
    assert (Hx' : (x == inject_Z n / inject_Z d)%Q).
    { destruct x as [n' d']. unfold n, d. cbn [Qnum Qden]. apply Qmake_Qdiv. }
    rewrite Hx'.
    assert (HA : (0 < inject_Z (2 ^ a))%Q).
    { change 0%Q with (inject_Z 0). rewrite <- Zlt_Qlt. lia. }
    assert (HD : (0 < inject_Z d)%Q).
    { change 0%Q with (inject_Z 0). rewrite <- Zlt_Qlt. lia. }
    assert (Heq : (inject_Z n / inject_Z d
                   * (inject_Z (2 ^ b) * inject_Z (2 ^ 53) * / inject_Z (2 ^ a))
                   == inject_Z (n * 2 ^ b * 2 ^ 53) / inject_Z (d * 2 ^ a))%Q).
    { rewrite !inject_Z_mult. field. split; lra. }
    rewrite Heq. apply Qle_shift_div_l.
    { rewrite inject_Z_mult. apply Qmult_lt_0_compat; lra. }
    rewrite <- inject_Z_mult, <- Zle_Qle.
    rewrite Z.pow_succ_r in Hb by lia.
    change (2 ^ 53) with (2 * 2 ^ 52).
    assert (0 < 2 ^ a) by lia. assert (0 < 2 ^ b) by lia.
    nia.
Qed.

Lemma nearest_error (x : Q) :
  (0 < x)%Q →
  (x * (1 - (1 # 9007199254740992)) <= nearest x)%Q
  ∧ (nearest x <= x * (1 + (1 # 9007199254740992)))%Q.
Proof.
  intros Hx. unfold nearest.
  pose proof (binade_spec x Hx) as Hy.
  set (e := binade x) in *.
  pose proof (Qpower_0_lt 2 e ltac:(reflexivity)) as Hs.
  pose proof (round_even_error (x * 2 ^ (- e))) as [H1 H2].
  assert (Hxy : (x == x * 2 ^ (- e) * 2 ^ e)%Q).
  { rewrite <- Qmult_assoc, <- Qpower_plus by discriminate.
    replace (- e + e) with 0 by lia. change ((2:Q) ^ 0)%Q with 1%Q. ring. }
  set (y := (x * 2 ^ (- e))%Q) in *. set (s := ((2:Q) ^ e)%Q) in *.
  set (m := inject_Z (round_even y)) in *.
  change (inject_Z (2 ^ 52)) with (4503599627370496 # 1)%Q in Hy.
  split.
  - assert (H : (0 <= (m - y * (1 - (1 # 9007199254740992))) * s)%Q).
    { apply Qmult_le_0_compat; lra. }
    rewrite Hxy at 1. lra.
  - assert (H : (0 <= (y * (1 + (1 # 9007199254740992)) - m) * s)%Q).
    { apply Qmult_le_0_compat; lra. }
    rewrite Hxy at 1. lra.
Qed.

Lemma double_error (x : Q) :
  (0 <= x)%Q →
  (x * (1 - (1 # 9007199254740992)) <= double x)%Q
  ∧ (double x <= x * (1 + (1 # 9007199254740992)))%Q.
Proof.
  intros Hx. unfold double.
  destruct (Qcompare_spec x 0) as [H|H|H].
  - rewrite H. split; lra.
  - lra.
  - by apply nearest_error.
Qed.

(** *** Where rounding to a double is exact *)

Lemma round_even_int (y : Q) (m : Z) : (y == inject_Z m)%Q → round_even y = m.
Proof.
  intros H. unfold round_even.
  rewrite (Qfloor_comp _ _ H), Qfloor_Z.
  replace (y - inject_Z m ?= 1 # 2)%Q with Lt; [done|].
  symmetry. rewrite <- Qlt_alt, H. lra.
Qed.

Lemma pow2_int (k : Z) : 0 ≤ k → ((2:Q) ^ k == inject_Z (2 ^ k))%Q.
Proof. intros Hk. change 2%Q with (inject_Z 2). by rewrite Zpower_Qpower. Qed.

Lemma pow2_negative (k : Z) : k < 0 → ((2:Q) ^ k <= 1 # 2)%Q.
Proof.
  intros Hk. replace k with (- (- k - 1) + -1) by lia.
  rewrite Qpower_plus by discriminate. change ((2:Q) ^ (-1))%Q with (1 # 2)%Q.
  rewrite Qpower_opp.
  assert (H1 : (1 <= 2 ^ (- k - 1))%Q).
  { rewrite pow2_int by lia. change 1%Q with (inject_Z 1). rewrite <- Zle_Qle.
    pose proof (Z.pow_pos_nonneg 2 (- k - 1)). lia. }
  assert (H2 : (/ 2 ^ (- k - 1) <= 1)%Q).
  { apply Qle_shift_inv_r; lra. }
  set (p := (/ 2 ^ (- k - 1))%Q) in *. lra.
Qed.

Lemma nearest_exact (x : Q) (n e : Z) :
  (x == inject_Z n * 2 ^ e)%Q → 0 < n < 2 ^ 53 → (nearest x == x)%Q.
Proof.
  intros Hx [Hn0 Hn1].
  pose proof (Qpower_0_lt 2 e ltac:(reflexivity)) as He.
  assert (HN0 : (0 < inject_Z n)%Q) by (change 0%Q with (inject_Z 0); by rewrite <- Zlt_Qlt).
  assert (HN1 : (inject_Z n <= 9007199254740991)%Q).
  { change 9007199254740991%Q with (inject_Z (2 ^ 53 - 1)). rewrite <- Zle_Qle. lia. }
  assert (Hpos : (0 < x)%Q) by (rewrite Hx; apply Qmult_lt_0_compat; assumption).
  pose proof (binade_spec x Hpos) as Hy. unfold nearest.
  set (b := binade x) in *.
  assert (Hxb : (x * 2 ^ (- b) == inject_Z n * 2 ^ (e - b))%Q).
  { rewrite Hx, <- Qmult_assoc, <- Qpower_plus by discriminate.
    by replace (e + - b) with (e - b) by lia. }
  assert (Hk : 0 ≤ e - b).
  { destruct (Z_lt_le_dec (e - b) 0) as [Hneg|]; [exfalso|done].
    pose proof (pow2_negative _ Hneg) as Hp.
    rewrite Hxb in Hy. change (inject_Z (2 ^ 52)) with 4503599627370496%Q in Hy.
    set (p := ((2:Q) ^ (e - b))%Q) in *.
    assert (H : (0 <= inject_Z n * ((1 # 2) - p))%Q) by (apply Qmult_le_0_compat; lra).
    lra. }
  assert (Hint : (x * 2 ^ (- b) == inject_Z (n * 2 ^ (e - b)))%Q).
  { by rewrite inject_Z_mult, <- pow2_int. }
  rewrite (round_even_int _ _ Hint), inject_Z_mult, <- pow2_int by done.
  rewrite <- Qmult_assoc, <- Qpower_plus by discriminate.
  replace (e - b + b) with e by lia. by rewrite Hx.
Qed.

(** A number with a significand below 2^53 is a double. *)
Lemma double_exact (x : Q) (n e : Z) :
  (x == inject_Z n * 2 ^ e)%Q → - 2 ^ 53 < n < 2 ^ 53 → (double x == x)%Q.
Proof.
  intros Hx Hn. unfold double.
  pose proof (Qpower_0_lt 2 e ltac:(reflexivity)) as He.
  set (p := ((2:Q) ^ e)%Q) in *.
  destruct (Qcompare_spec x 0) as [H|H|H].
  - by rewrite H.
  - assert (Hneg : n < 0).
    { destruct (Z_lt_le_dec n 0) as [|Hge]; [done|exfalso].
      rewrite Zle_Qle in Hge. change (inject_Z 0) with 0%Q in Hge.
      assert (0 <= inject_Z n * p)%Q by (apply Qmult_le_0_compat; lra). lra. }
    rewrite (nearest_exact (- x) (- n) e); [ring| |lia].
    rewrite Hx, inject_Z_opp. fold p. ring.
  - assert (Hpos : 0 < n).
    { destruct (Z_lt_le_dec 0 n) as [|Hle]; [done|exfalso].
      rewrite Zle_Qle in Hle. change (inject_Z 0) with 0%Q in Hle.
      assert (0 <= (- inject_Z n) * p)%Q by (apply Qmult_le_0_compat; lra). lra. }
    apply (nearest_exact x n e); [done|lia].
Qed.

Lemma double_negative (x : Q) : (x < 0)%Q → (double x < 0)%Q.
Proof.
  intros Hx. unfold double.
  destruct (Qcompare_spec x 0) as [H|H|H]; [lra| |lra].
  assert (Hm : (0 < - x)%Q) by lra.
  pose proof (nearest_error (- x) Hm) as [Hlo _]. lra.
Qed.

(** *** A quotient by 8 in a header field

    [writeNumberLE] on [double (double q / 8)], where [q] is the product
    [p] written exactly.  Below 2^53 nothing is rounded; above, the
    rounded quotient is still out of the range of the field. *)
Lemma writeNumberLE_eighth (w : nat) (q : Q) (p : Z) (off : nat) (buf : Buffer) :
  (q == inject_Z p)%Q → 2 ^ (8 * Z.of_nat w) ≤ 2 ^ 32 →
  writeNumberLE w (double (double q / 8)) off buf
  = if bool_decide (0 ≤ p ≤ 8 * (2 ^ (8 * Z.of_nat w) - 1))
       && bool_decide (off + w ≤ length buf)%nat
    then Some (blit (le_bytes w (p / 8)) off buf)
    else None.
Proof.
  intros Hq Hw. unfold writeNumberLE.
  set (M := 2 ^ (8 * Z.of_nat w)) in *.
  assert (HM : (inject_Z (M - 1) <= 4294967295)%Q).
  { change 4294967295%Q with (inject_Z (2 ^ 32 - 1)). rewrite <- Zle_Qle. lia. }
  assert (HM0 : 0 < M) by (apply Z.pow_pos_nonneg; lia).
  destruct (Z_lt_le_dec p (2 ^ 53)) as [Hhi|Hhi];
    [destruct (Z_lt_le_dec (- 2 ^ 53) p) as [Hlo|Hlo]|].
  - (* nothing is rounded *)
    assert (E1 : (double q == inject_Z p)%Q).
    { rewrite (double_exact q p 0); [done| |lia]. rewrite Hq.
      change ((2:Q) ^ 0)%Q with 1%Q. ring. }
    assert (E2 : (double (double q / 8) == inject_Z p / 8)%Q).
    { rewrite (double_exact _ p (-3)); [by rewrite E1| |lia]. rewrite E1.
      change ((2:Q) ^ (-3))%Q with (1 # 8)%Q. field. }
    assert (E3 : (double (double q / 8) == p # 8)%Q).
    { rewrite E2. symmetry. apply (Qmake_Qdiv p 8). }
    rewrite (Qfloor_comp _ _ E3). change (Qfloor (p # 8)) with (p / 8).
    assert (T1 : Qle_bool 0 (double (double q / 8)) = bool_decide (0 ≤ p)).
    { destruct (bool_decide_reflect (0 ≤ p)) as [Hp|Hp].
      - apply Qle_bool_iff. rewrite E3. unfold Qle. cbn. lia.
      - destruct (Qle_bool 0 _) eqn:T; [|done]. exfalso. apply Hp.
        apply Qle_bool_iff in T. rewrite E3 in T. unfold Qle in T. cbn in T. lia. }
    assert (T2 : Qle_bool (double (double q / 8)) (inject_Z (M - 1))
                 = bool_decide (p ≤ 8 * (M - 1))).
    { destruct (bool_decide_reflect (p ≤ 8 * (M - 1))) as [Hp|Hp].
      - apply Qle_bool_iff. rewrite E3. unfold Qle. cbn. lia.
      - destruct (Qle_bool _ (inject_Z _)) eqn:T; [|done]. exfalso. apply Hp.
        apply Qle_bool_iff in T. rewrite E3 in T. unfold Qle in T. cbn in T. lia. }
    rewrite T1, T2.
    destruct (bool_decide (off + w ≤ length buf)%nat);
      repeat case_bool_decide; cbn; try done; lia.
  - (* a negative product stays negative *)
    assert (Hneg : (q < 0)%Q).
    { rewrite Hq. change 0%Q with (inject_Z 0). rewrite <- Zlt_Qlt. lia. }
    pose proof (double_negative q Hneg) as H1.
    assert (H2 : (double q / 8 < 0)%Q).
    { unfold Qdiv. change (/ 8)%Q with (1 # 8)%Q. lra. }
    pose proof (double_negative _ H2) as H3.
    replace (Qle_bool 0 (double (double q / 8))) with false.
    2:{ symmetry. apply not_true_is_false. intros T. apply Qle_bool_iff in T. lra. }
    rewrite (bool_decide_eq_false_2 (0 ≤ p ≤ _)) by lia. done.
  - (* a product of 2^53 or more stays out of range *)
    assert (Hbig : (9007199254740992 <= q)%Q).
    { rewrite Hq. change 9007199254740992%Q with (inject_Z (2 ^ 53)).
      by rewrite <- Zle_Qle. }
    pose proof (double_error q ltac:(lra)) as [H1 _].
    assert (H2 : (0 <= double q / 8)%Q).
    { unfold Qdiv. change (/ 8)%Q with (1 # 8)%Q. lra. }
    pose proof (double_error _ H2) as [H3 _].
    unfold Qdiv in H3. change (/ 8)%Q with (1 # 8)%Q in H3.
    unfold Qdiv. change (/ 8)%Q with (1 # 8)%Q.
    set (d := double (double q * (1 # 8))) in *.
    replace (Qle_bool d (inject_Z (M - 1))) with false.
    2:{ symmetry. apply not_true_is_false. intros T. apply Qle_bool_iff in T. lra. }
    rewrite (bool_decide_eq_false_2 (0 ≤ p ≤ _)) by lia.
    by rewrite andb_false_r.
Qed.

Lemma byteRate_field (sr ch bd : Z) (off : nat) (buf : Buffer) :
  0 ≤ sr < 2 ^ 32 → 0 ≤ ch < 2 ^ 16 →
  writeNumberLE 4
    (double (double (double (inject_Z sr * inject_Z ch) * inject_Z bd) / 8)) off buf
  = if bool_decide (0 ≤ sr * ch * bd ≤ 8 * (2 ^ 32 - 1))
       && bool_decide (off + 4 ≤ length buf)%nat
    then Some (blit (le_bytes 4 (sr * ch * bd / 8)) off buf)
    else None.
Proof.
  intros Hsr Hch. apply (writeNumberLE_eighth 4 _ (sr * ch * bd)); [|done].
  rewrite (double_exact _ (sr * ch) 0).
  - rewrite !inject_Z_mult. ring.
  - rewrite inject_Z_mult. change ((2:Q) ^ 0)%Q with 1%Q. ring.
  - change (2 ^ 32) with 4294967296 in Hsr. change (2 ^ 16) with 65536 in Hch.
    change (2 ^ 53) with 9007199254740992. nia.
Qed.

Lemma blockAlign_field (ch bd : Z) (off : nat) (buf : Buffer) :
  writeNumberLE 2 (double (double (inject_Z ch * inject_Z bd) / 8)) off buf
  = if bool_decide (0 ≤ ch * bd ≤ 8 * (2 ^ 16 - 1))
       && bool_decide (off + 2 ≤ length buf)%nat
    then Some (blit (le_bytes 2 (ch * bd / 8)) off buf)
    else None.
Proof.
  apply (writeNumberLE_eighth 2 _ (ch * bd)); [|done].
  by rewrite inject_Z_mult.
Qed.

(** *** The delay *)

Lemma baseDelay_multiple (n : Z) : 1 ≤ n → ∃ k, 0 ≤ k ∧ baseDelay n = 5 * k.
Proof.
  intros Hn. unfold baseDelay, RETRY_DELAY_MS.
  destruct (Z.min_spec (1000 * 2 ^ (n - 1)) 30000) as [[_ ->]|[_ ->]].
  - exists (200 * 2 ^ (n - 1)). pose proof (Z.pow_nonneg 2 (n - 1)). lia.
  - exists 6000. lia.
Qed.

Lemma baseDelay_max (n : Z) : baseDelay n ≤ 30000.
Proof. unfold baseDelay. lia. Qed.

(** The jitter factor, as computed in doubles, is within a hair of
    [0.8, 1.2]. *)
Lemma jitter_range (rnd : Q) :
  (0 <= rnd)%Q → (rnd < 1)%Q →
  ((4 # 5) - (1 # 1000000000000000)
   <= double (double (4 # 5) + double (rnd * double (2 # 5))))%Q
  ∧ (double (double (4 # 5) + double (rnd * double (2 # 5)))
     <= (6 # 5) + (1 # 1000000000000000))%Q.
Proof.
  intros H0 H1.
  assert (H8 : (4 # 5 <= double (4 # 5))%Q
               ∧ (double (4 # 5) <= (4 # 5) + (1 # 10000000000000000))%Q).
  { split; vm_compute; discriminate. }
  assert (H4 : (0 <= double (2 # 5))%Q
               ∧ (double (2 # 5) <= (2 # 5) + (1 # 10000000000000000))%Q).
  { split; vm_compute; discriminate. }
  set (c8 := double (4 # 5)) in *. set (c4 := double (2 # 5)) in *.
  assert (Hp0 : (0 <= rnd * c4)%Q) by (apply Qmult_le_0_compat; lra).
  assert (Hp1 : (rnd * c4 <= 1 * c4)%Q).
  { apply Qmult_le_compat_r; lra. }
  pose proof (double_error (rnd * c4) Hp0) as [Hs0 Hs1].
  set (s := double (rnd * c4)) in *.
  assert (Ht : (0 <= c8 + s)%Q) by lra.
  pose proof (double_error (c8 + s) Ht) as [Hj0 Hj1].
  split; lra.
Qed.

Lemma jittered_bounds (n : Z) (rnd : Q) :
  1 ≤ n → (0 <= rnd)%Q → (rnd < 1)%Q →
  ((4 # 5) * inject_Z (baseDelay n) <= inject_Z (jittered n rnd))%Q
  ∧ (inject_Z (jittered n rnd) <= (6 # 5) * inject_Z (baseDelay n))%Q.
Proof.
  intros Hn H0 H1. unfold jittered, Math_round.
  destruct (jitter_range rnd H0 H1) as [Hj0 Hj1].
  set (j := double (double (4 # 5) + double (rnd * double (2 # 5)))) in *.
  pose proof (baseDelay_max n) as Hmax.
  destruct (baseDelay_multiple n Hn) as (k & Hk & E). rewrite E in *. clear E.
  assert (0 <= inject_Z k)%Q as HK by (rewrite <- (Zle_Qle 0); exact Hk).
  assert (inject_Z k <= 6000)%Q as HK'.
  { change 6000%Q with (inject_Z 6000). rewrite <- Zle_Qle. lia. }
  assert (inject_Z (5 * k) == 5 * inject_Z k)%Q as E5 by (rewrite inject_Z_mult; reflexivity).
  assert (Hu0 : (inject_Z (5 * k) * ((4 # 5) - (1 # 1000000000000000))
                 <= inject_Z (5 * k) * j)%Q).
  { rewrite !(Qmult_comm (inject_Z (5 * k))). apply Qmult_le_compat_r; lra. }
  assert (Hu1 : (inject_Z (5 * k) * j
                 <= inject_Z (5 * k) * ((6 # 5) + (1 # 1000000000000000)))%Q).
  { rewrite !(Qmult_comm (inject_Z (5 * k))). apply Qmult_le_compat_r; lra. }
  set (u := (inject_Z (5 * k) * j)%Q) in *.
  assert (Hu : (0 <= u)%Q) by lra.
  pose proof (double_error u Hu) as [Hx0 Hx1].
  set (x := (double u + (1 # 2))%Q).
  assert (inject_Z (4 * k) <= x)%Q as Lo.
  { unfold x. rewrite inject_Z_mult. change (inject_Z 4) with 4%Q. lra. }
  assert (x < inject_Z (6 * k + 1))%Q as Hi.
  { unfold x. rewrite inject_Z_plus, inject_Z_mult.
    change (inject_Z 6) with 6%Q. change (inject_Z 1) with 1%Q. lra. }
  split.
  - apply Qfloor_resp_le in Lo. rewrite Qfloor_Z in Lo.
    rewrite Zle_Qle in Lo. rewrite inject_Z_mult in Lo.
    rewrite E5. change (inject_Z 4) with 4%Q in Lo. lra.
  - pose proof (Qfloor_le x) as F.
    assert (Qfloor x < 6 * k + 1) as F'.
    { rewrite Zlt_Qlt. eapply Qle_lt_trans; eassumption. }
    assert (Qfloor x ≤ 6 * k) as F'' by lia.
    rewrite Zle_Qle in F''. rewrite inject_Z_mult in F''.
    rewrite E5. change (inject_Z 6) with 6%Q in F''. lra.
Qed.

(** The rounding shows in the delay: for this draw the exact product is
    just below 800.5, the product computed in doubles is 800.5, and the
    delay is 801 ms. *)
Example jittered_rounds_in_doubles :
  let r := (2882303761517117 # 2305843009213693952)%Q in
  jittered 1 r = 801
  ∧ Math_round (inject_Z (baseDelay 1) * ((4 # 5) + r * (2 # 5)))%Q = 800.
Proof. by vm_compute. Qed.

(** ** The retry loop *)

Lemma count_app (kind : Event → bool) (l1 l2 : list Event) :
  count kind (l1 ++ l2) = (count kind l1 + count kind l2)%nat.
Proof. unfold count. by rewrite filter_app, length_app. Qed.

Lemma count_cons (kind : Event → bool) (e : Event) (l : list Event) :
  count kind (e :: l) = ((if kind e then 1 else 0) + count kind l)%nat.
Proof.
  unfold count. destruct (kind e) eqn:He.
  - by rewrite filter_cons_True.
  - rewrite filter_cons_False; [done|]. rewrite He. discriminate.
Qed.

Lemma after_fallback_throw (e e' : JsError) (r : WhisperReply) :
  after_fallback e r = Throw e' → e' = e.
Proof. unfold after_fallback. destruct (whisper_text r); congruence. Qed.

(** One call of [transcribeAudio]: one call event, at most one request to
    each engine, no sleep; and what it throws is a primary failure. *)
Lemma transcribeAudio_summary (E : Env) (path : string) (w : World) :
  ∃ o w' evs,
    transcribeAudio E path w = (o, w') ∧ only_log w w' evs
    ∧ count is_call evs = 1%nat
    ∧ (count is_groq evs ≤ 1)%nat
    ∧ (count is_whisper evs ≤ 1)%nat
    ∧ count is_emit evs = 0%nat
    ∧ Forall sleep_in_bounds evs
    ∧ (∃ evs', evs = CallTranscribeAudio path :: evs')
    ∧ ∀ e, o = Throw e → primary_failure E w path e.
Proof.
  destruct (transcribeAudio_cases E path w) as (o & w' & evs & Hrun & Hlog & Hcases).
  exists o, w', (CallTranscribeAudio path :: evs).
  split; [done|]. split; [done|].
  cut (count is_call (CallTranscribeAudio path :: evs) = 1%nat
       ∧ (count is_groq (CallTranscribeAudio path :: evs) ≤ 1)%nat
       ∧ (count is_whisper (CallTranscribeAudio path :: evs) ≤ 1)%nat
       ∧ count is_emit (CallTranscribeAudio path :: evs) = 0%nat
       ∧ Forall sleep_in_bounds (CallTranscribeAudio path :: evs)
       ∧ ∀ e, o = Throw e → primary_failure E w path e).
  { intros (?&?&?&?&?&?). eauto 10. }
  unfold primary_failure.
  destruct Hcases as [(_ & -> & ->)|[(_ & _ & -> & ->)|[(_ & c & Hc & _ & -> & ->)|(_ & c & Hc & _ & H)]]].
  - split_and!; try (cbv -[jittered]; lia); [repeat constructor|].
    intros e [= <-]. auto.
  - split_and!; try (cbv -[jittered]; lia); [repeat constructor|].
    intros e [= <-]. auto.
  - split_and!; try (cbv -[jittered]; lia); [repeat constructor|].
    intros e He. apply after_fallback_throw in He as ->. right. right. left. eauto.
  - destruct (groq_error (groq E (tick w))) as [e0|] eqn:Hg.
    + destruct H as [-> ->].
      split_and!; try (cbv -[jittered]; lia); [repeat constructor|].
      intros e He. apply after_fallback_throw in He as ->. right. right. right. eauto.
    + destruct H as (t & _ & -> & ->).
      split_and!; try (cbv -[jittered]; lia); [repeat constructor|].
      intros e [=].
Qed.

Lemma primary_failure_files (E : Env) (w w' : World) (path : string) (e : JsError) :
  files w' = files w → primary_failure E w' path e → primary_failure E w path e.
Proof. unfold primary_failure. intros ->. auto. Qed.

(** The loop: with [remaining] iterations left it calls [transcribeAudio]
    at most [remaining] times, sleeps within the bounds, changes nothing
    but the log, and throws either the error it was given or a primary
    failure. *)
Lemma retry_loop_spec (E : Env) (path : string) (maxRetries : Z) (remaining : nat) :
  ∀ (attempt : Z) (lastError : option JsError) (w : World),
    1 ≤ attempt →
    ∃ o w' evs,
      retry_loop E path maxRetries remaining attempt lastError w = (o, w')
      ∧ only_log w w' evs
      ∧ (count is_call evs ≤ remaining)%nat
      ∧ (count is_groq evs ≤ remaining)%nat
      ∧ count is_emit evs = 0%nat
      ∧ ((∀ k, (0 <= Math_random E k)%Q ∧ (Math_random E k < 1)%Q) →
         Forall sleep_in_bounds evs)
      ∧ ((0 < remaining)%nat → ∃ evs', evs = CallTranscribeAudio path :: evs')
      ∧ ∀ e, o = Throw e →
             (remaining = 0%nat
              ∧ e = default (Error Local "Transcription failed after multiple attempts")
                      lastError)
             ∨ primary_failure E w path e.
Proof.
  induction remaining as [|remaining IH]; intros attempt lastError w Hattempt.
  - cbn [retry_loop]. unfold rethrow_last. mrun.
    do 3 eexists. split; [reflexivity|]. split; [apply only_log_refl|].
    split_and!;
      [vm_compute; lia | vm_compute; lia | reflexivity
      | intros _; by apply Forall_nil | lia |].
    intros e [= <-]. left. auto.
  - cbn [retry_loop]. rewrite run_try_catch.
    destruct (transcribeAudio_summary E path w)
      as (o & w1 & evs1 & -> & Hlog1 & Hc1 & Hg1 & _ & He1 & Hs1 & [evs1' Hfirst] & Herr1).
    destruct o as [text|error].
    { exists (Return text), w1, evs1. split; [done|]. split; [done|].
      split_and!; try lia; [done|eauto|]. intros e [=]. }
    destruct (nonRetryable error).
    { unfold rethrow_last. mrun.
      exists (Throw error), w1, evs1. split; [done|]. split; [done|].
      split_and!; try lia; [done|eauto|]. intros e [= <-]. right. eauto. }
    rewrite run_bind.
    assert (∃ w2 evs2,
               (if bool_decide (attempt < maxRetries) then backoff E attempt else ret ()) w1
               = (Return (), w2)
               ∧ only_log w1 w2 evs2
               ∧ count is_call evs2 = 0%nat ∧ count is_groq evs2 = 0%nat
               ∧ count is_emit evs2 = 0%nat
               ∧ ((∀ k, (0 <= Math_random E k)%Q ∧ (Math_random E k < 1)%Q) →
                  Forall sleep_in_bounds evs2))
      as (w2 & evs2 & -> & Hlog2 & Hc2 & Hg2 & He2 & Hs2).
    { destruct (bool_decide (attempt < maxRetries)).
      - unfold backoff. mrun. do 2 eexists. split; [reflexivity|].
        split; [only_log_tac|]. split_and!; try (cbv -[jittered]; lia).
        intros Hrnd. constructor; [|constructor].
        destruct (Hrnd (tick w1)) as [H0 H1].
        pose proof (jittered_bounds attempt _ Hattempt H0 H1) as [Hlo Hhi].
        unfold baseDelay, RETRY_DELAY_MS in Hlo, Hhi.
        cbn [sleep_in_bounds]. auto.
      - mrun. do 2 eexists. split; [reflexivity|].
        split; [apply only_log_refl|]. split_and!; try (cbv -[jittered]; lia).
        intros _. constructor. }
    destruct (IH (attempt + 1) (Some error) w2 ltac:(lia))
      as (o3 & w3 & evs3 & -> & Hlog3 & Hc3 & Hg3 & He3 & Hs3 & _ & Herr3).
    exists o3, w3, ((evs1 ++ evs2) ++ evs3).
    split; [done|].
    split; [eauto using only_log_trans|].
    rewrite !count_app.
    split_and!; try lia.
    + intros Hrnd. rewrite !Forall_app. auto.
    + intros _. subst evs1. eauto.
    + intros e He. right. destruct (Herr3 e He) as [[_ ->]|Hp].
      * cbn [default]. eauto.
      * destruct Hlog1 as (_ & _ & Hf1 & _), Hlog2 as (_ & _ & Hf2 & _).
        eapply primary_failure_files; [|exact Hp]. congruence.
Qed.

Lemma retry_loop_unfold (E : Env) (path : string) (maxRetries : Z) (remaining : nat)
    (attempt : Z) (lastError : option JsError) :
  retry_loop E path maxRetries (S remaining) attempt lastError
  = try_catch (transcribeAudio E path)
      (λ error,
         if nonRetryable error then rethrow_last (Some error)
         else
           (if bool_decide (attempt < maxRetries) then backoff E attempt
            else ret ());;
           retry_loop E path maxRetries remaining (attempt + 1) (Some error)).
Proof. reflexivity. Qed.

(** What one call of [transcribeAudio] logs after the call itself:
    requests to the engines, nothing else. *)
Lemma transcribeAudio_requests (E : Env) (path : string) (w : World) :
  ∃ o w' requests,
    transcribeAudio E path w = (o, w')
    ∧ only_log w w' (CallTranscribeAudio path :: requests)
    ∧ Forall (λ e, is_request e = true) requests.
Proof.
  destruct (transcribeAudio_cases E path w) as (o & w' & evs & Hrun & Hlog & Hcases).
  exists o, w', evs. split; [done|]. split; [done|].
  destruct Hcases
    as [(_ & -> & _)|[(_ & _ & -> & _)|[(_ & c & _ & _ & -> & _)|(_ & c & _ & _ & H)]]].
  - constructor.
  - constructor.
  - by repeat constructor.
  - destruct (groq_error (groq E (tick w))).
    + destruct H as [-> _]. by repeat constructor.
    + destruct H as (t & _ & -> & _). by repeat constructor.
Qed.

(** The loop of [transcribeWithRetry], [remaining] iterations before its
    end: every attempt but the last one made is followed by its sleep. *)
Lemma retry_loop_backed_off (E : Env) (path : string) (maxRetries : Z)
    (remaining : nat) :
  (∀ k, (0 <= Math_random E k)%Q ∧ (Math_random E k < 1)%Q) →
  ∀ (attempt : Z) (lastError : option JsError) (w : World),
    1 ≤ attempt →
    attempt + Z.of_nat remaining = maxRetries →
    ∃ o w' evs,
      retry_loop E path maxRetries (S remaining) attempt lastError w = (o, w')
      ∧ only_log w w' evs
      ∧ backed_off path attempt evs.
Proof.
  intros Hrnd.
  induction remaining as [|remaining IH]; intros attempt lastError w Hattempt Hmax.
  - cbn [retry_loop]. rewrite run_try_catch.
    destruct (transcribeAudio_requests E path w)
      as (o & w1 & requests & -> & Hlog1 & Hreq).
    destruct o as [text|error].
    { do 3 eexists. split; [reflexivity|]. split; [done|]. by constructor. }
    destruct (nonRetryable error); unfold rethrow_last.
    { mrun. do 3 eexists. split; [reflexivity|]. split; [done|]. by constructor. }
    rewrite (bool_decide_eq_false_2 (attempt < maxRetries)) by lia. mrun.
    do 3 eexists. split; [reflexivity|]. split; [done|]. by constructor.
  - rewrite retry_loop_unfold, run_try_catch.
    destruct (transcribeAudio_requests E path w)
      as (o & w1 & requests & -> & Hlog1 & Hreq).
    destruct o as [text|error].
    { do 3 eexists. split; [reflexivity|]. split; [done|]. by constructor. }
    destruct (nonRetryable error); unfold rethrow_last.
    { mrun. do 3 eexists. split; [reflexivity|]. split; [done|]. by constructor. }
    rewrite (bool_decide_eq_true_2 (attempt < maxRetries)) by lia.
    rewrite run_bind. unfold backoff at 1. mrun.
    set (ms := jittered attempt (Math_random E (tick w1))).
    set (w2 := set_log _ _).
    destruct (IH (attempt + 1) (Some error) w2 ltac:(lia) ltac:(lia))
      as (o3 & w3 & evs3 & -> & Hlog3 & Hback).
    exists o3, w3, ((CallTranscribeAudio path :: requests) ++ Sleep attempt ms :: evs3).
    split; [done|]. split.
    + replace ((CallTranscribeAudio path :: requests) ++ Sleep attempt ms :: evs3)
        with (((CallTranscribeAudio path :: requests) ++ [Sleep attempt ms]) ++ evs3)
        by (by rewrite <- app_assoc).
      eapply only_log_trans; [|exact Hlog3].
      eapply only_log_trans; [exact Hlog1|]. subst w2. only_log_tac.
    + cbn [app]. constructor; [done| |done].
      destruct (Hrnd (tick w1)) as [H0 H1].
      pose proof (jittered_bounds attempt _ Hattempt H0 H1) as [Hlo Hhi].
      unfold baseDelay, RETRY_DELAY_MS in Hlo, Hhi.
      cbn [sleep_in_bounds]. auto.
Qed.

(** ** Processing a chunk *)

Lemma truthy_path (path : string) : path ≠ "" → truthy_string (Some path) = true.
Proof.
  intros Hne. unfold truthy_string. destruct (String.eqb_spec path ""); done.
Qed.

Lemma updateWavHeader_content_frame (file : list Z) (n : Z) :
  (44 ≤ length file)%nat →
  length (updateWavHeader_content file n).1 = length file
  ∧ drop 44 (updateWavHeader_content file n).1 = drop 44 file.
Proof.
  intros Hlen.
  do 44 (destruct file as [|? file]; [simpl in Hlen; lia|]).
  unfold updateWavHeader_content, writeUInt32LE, writeUIntLE.
  rewrite !(bool_decide_eq_true_2 (0 + 4 ≤ length (alloc 4))%nat) by (cbn; lia).
  rewrite !andb_true_r.
  destruct (bool_decide (0 ≤ 36 + n - 8 < 2 ^ (8 * Z.of_nat 4))); [|done].
  destruct (bool_decide (0 ≤ n < 2 ^ (8 * Z.of_nat 4))); split; reflexivity.
Qed.

Lemma error_events_app (socket : string) (l1 l2 : list Event) :
  error_events socket (l1 ++ l2) = error_events socket l1 ++ error_events socket l2.
Proof. unfold error_events. apply omap_app. Qed.

Lemma error_events_quiet (socket : string) (l : list Event) :
  count is_emit l = 0%nat → error_events socket l = [].
Proof.
  induction l as [|e l IH]; [done|].
  rewrite count_cons. destruct e; cbn [is_emit]; try lia; intros H; apply IH; lia.
Qed.

Lemma transcribeWithRetry_MAX (E : Env) (path : string) :
  transcribeWithRetry E path MAX_RETRIES = retry_loop E path 3 3 1 None.
Proof. reflexivity. Qed.

(** [processAudioChunk] on a session with a temp file never throws.  It
    leaves the session map alone, changes no session field but
    [lastProcessed], rewrites nothing but the header of the temp file, and
    the only error event it emits is the fixed text.  When the temp file
    holds a header, a call of [transcribeAudio] on it is made. *)
Lemma processAudioChunk_spec (E : Env) (socket sessionId session path : string)
    (w : World) :
  tempFile (objects w !!! session) = Some path → path ≠ "" →
  ∃ w' evs,
    processAudioChunk E socket sessionId session w = (Return (), w')
    ∧ sessions w' = sessions w
    ∧ log w' = log w ++ evs
    ∧ (tick w ≤ tick w')%nat
    ∧ (objects w' = objects w
       ∨ ∃ t, objects w'
              = <[session := set_lastProcessed t (objects w !!! session)]> (objects w))
    ∧ (files w' = files w
       ∨ ∃ c c', files w !! path = Some c ∧ (44 ≤ length c)%nat
                 ∧ files w' = <[path := c']> (files w)
                 ∧ length c' = length c ∧ drop 44 c' = drop 44 c)
    ∧ (error_events socket evs = []
       ∨ error_events socket evs = [PString "Failed to process audio"])
    ∧ (∀ c, files w !! path = Some c → (44 ≤ length c)%nat →
            Z.of_nat (length c) - 44 + 28 < 2 ^ 32 →
            ∃ evs', evs = CallTranscribeAudio path :: evs')
    ∧ (count is_call evs ≤ 3)%nat.
Proof.
  intros Htemp Hpath. unfold processAudioChunk. mrun. rewrite Htemp.
  rewrite (truthy_path path Hpath). cbn [negb default from_option id].
  unfold fs_stat. mrun.
  set (failed := Emit socket "error" (PString "Failed to process audio")).
  assert (error_events socket [failed] = [PString "Failed to process audio"]) as Herr.
  { cbn. by rewrite bool_decide_eq_true_2. }
  assert (count is_call [failed] = 0%nat) as Hnocall by done.
  destruct (files w !! path) as [c|] eqn:Hfile; mrun.
  2:{ eexists. exists [failed]. split; [reflexivity|]. mrun.
      split_and!; solve [auto | done | lia]. }
  destruct (bool_decide (length c < 44)%nat) eqn:Hsmall; mrun.
  { apply bool_decide_eq_true_1 in Hsmall.
    eexists. exists [failed]. split; [reflexivity|]. mrun.
    split_and!; solve [auto | done | lia | intros c0 [= <-]; lia]. }
  apply bool_decide_eq_false_1 in Hsmall.
  unfold updateWavHeader, fs_readFile, fs_writeFile. mrun. rewrite Hfile. mrun.
  pose proof (updateWavHeader_content_frame c (Z.of_nat (length c) - 44) ltac:(lia))
    as [Hlen Hdrop].
  assert (Z.of_nat (length c) - 44 + 28 < 2 ^ 32 →
          (updateWavHeader_content c (Z.of_nat (length c) - 44)).2 = true) as Hok.
  { intros Hmax.
    destruct (updateWavHeader_content_fields c (Z.of_nat (length c) - 44))
      as (c' & -> & _); [lia..|done]. }
  destruct (updateWavHeader_content c (Z.of_nat (length c) - 44)) as [c' ok].
  cbn [fst snd] in Hlen, Hdrop, Hok. mrun.
  assert (∃ c0 c1, Some c = Some c0 ∧ (44 ≤ length c0)%nat
                   ∧ <[path := c']> (files w) = <[path := c1]> (files w)
                   ∧ length c1 = length c0 ∧ drop 44 c1 = drop 44 c0) as Hfiles.
  { exists c, c'. split_and!; auto. lia. }
  destruct ok; mrun.
  2:{ eexists. exists [failed]. split; [reflexivity|]. mrun.
      split_and!;
        solve [auto | done | lia | intros c0 [= <-] _ Hmax; by specialize (Hok Hmax)]. }
  rewrite transcribeWithRetry_MAX.
  match goal with |- context [retry_loop E path 3 3 1 None ?w2] =>
    destruct (retry_loop_spec E path 3 3 1 None w2 ltac:(lia))
      as (o & w3 & evs3 & -> & (Ho3 & Hs3 & Hf3 & Hl3 & Ht3) & Hc3 & _ & He3 & _ & Hfirst & _)
  end.
  destruct (Hfirst ltac:(lia)) as [evs3' Hevs3].
  mrun in Ho3. mrun in Hs3. mrun in Hf3. mrun in Hl3. mrun in Ht3.
  pose proof (error_events_quiet socket evs3 He3) as Hq.
  assert (∀ tail, count is_call tail = 0%nat → (count is_call (evs3 ++ tail) ≤ 3)%nat)
    as Hcount by (intros tail Htail; rewrite count_app; lia).
  assert (∀ tail, ∃ evs', evs3 ++ tail = CallTranscribeAudio path :: evs') as Hhead
    by (intros tail; subst evs3; cbn; eauto).
  destruct o as [transcript|error]; mrun.
  2:{ eexists. exists (evs3 ++ [failed]). split; [reflexivity|]. mrun.
      rewrite Hs3, Hl3, Ho3, Hf3, <- app_assoc.
      split_and!;
        solve [auto | done | lia | rewrite error_events_app, Hq, Herr; auto]. }
  destruct (truthy_string (Some transcript)); mrun.
  - eexists.
    match goal with |- context [Emit socket "transcript" ?p] =>
      exists (evs3 ++ [Emit socket "transcript" p]) end.
    split; [reflexivity|]. mrun.
    rewrite Hs3, Hl3, Ho3, Hf3, <- app_assoc.
    split_and!;
      solve [eauto | done | lia | left; rewrite error_events_app, Hq; reflexivity].
  - eexists. exists (evs3 ++ [failed]). split; [reflexivity|]. mrun.
    rewrite Hs3, Hl3, Ho3, Hf3, <- app_assoc.
    split_and!;
      solve [auto | done | lia | rewrite error_events_app, Hq, Herr; auto].
Qed.

(** ** Retry, backoff and fallback *)

(** C7. One run of [transcribeWithRetry] with the default [MAX_RETRIES]
    calls [transcribeAudio], and so the primary service, at most 3 times.
    Its attempts are numbered from 1, and every attempt that is followed
    by another one is separated from it by exactly one sleep: after failed
    attempt [n] it lasts between 0.8 and 1.2 times
    [min(1000 * 2^(n-1), 30000)] milliseconds, whatever [Math.random]
    draws in [0, 1); nothing else is slept. *)
Theorem retries_and_backoff_are_bounded (E : Env) (path : string) (w : World) :
  (∀ k, (0 <= Math_random E k)%Q ∧ (Math_random E k < 1)%Q) →
  ∃ evs,
    log (exec (transcribeWithRetry E path MAX_RETRIES) w) = log w ++ evs
    ∧ (count is_call evs ≤ Z.to_nat MAX_RETRIES)%nat
    ∧ (count is_groq evs ≤ Z.to_nat MAX_RETRIES)%nat
    ∧ MAX_RETRIES = 3
    ∧ Forall sleep_in_bounds evs
    ∧ backed_off path 1 evs.
Proof.
  intros Hrnd. rewrite transcribeWithRetry_MAX. unfold exec.
  destruct (retry_loop_spec E path 3 3 1 None w ltac:(lia))
    as (o & w' & evs & Hrun & (_ & _ & _ & Hlog & _) & Hc & Hg & _ & Hs & _).
  destruct (retry_loop_backed_off E path 3 2 Hrnd 1 None w ltac:(lia) ltac:(lia))
    as (o' & w'' & evs' & Hrun' & (_ & _ & _ & Hlog' & _) & Hback).
  rewrite Hrun in Hrun'. simplify_eq. rewrite Hlog in Hlog'.
  apply app_inv_head in Hlog' as <-.
  exists evs. rewrite Hrun. cbn [snd]. split_and!; auto.
Qed.

Lemma retries_and_backoff_are_bounded_witness :
  ∃ evs,
    log (exec (transcribeWithRetry E_down small_chunk_path MAX_RETRIES)
           (small_chunk E_down))
    = log (small_chunk E_down) ++ evs
    ∧ (count is_call evs ≤ Z.to_nat MAX_RETRIES)%nat
    ∧ (count is_groq evs ≤ Z.to_nat MAX_RETRIES)%nat
    ∧ MAX_RETRIES = 3
    ∧ Forall sleep_in_bounds evs
    ∧ backed_off small_chunk_path 1 evs.
Proof.
  apply (retries_and_backoff_are_bounded E_down small_chunk_path (small_chunk E_down)).
  intros k. unfold Qle, Qlt. simpl. lia.
Defined.

(** C3, as stated, fails.  The claim asks that the fallback engine run
    only when no primary attempt is left.  With Groq timing out and Whisper
    failing, the log of one run of [transcribeWithRetry] has a call of
    [transcribeAudio] after a Whisper request: the fallback ran inside the
    first attempt, with two retries still to come. *)
Lemma fallback_runs_before_the_retries :
  let w := exec (transcribeWithRetry E_down small_chunk_path MAX_RETRIES)
             (small_chunk E_down) in
  count is_call (log w) = 3%nat
  ∧ count is_whisper (log w) = 3%nat
  ∧ no_call_after_whisper (log w) = false.
Proof. vm_compute. auto. Qed.

(** C3, amended.  With the API key set and the file in place, one call of
    [transcribeAudio] - one attempt of the retry loop - invokes the local
    Whisper engine, with the bytes of the file and the rate 16000, exactly
    when its Groq path fails: for a file over the size limit (no request is
    sent to Groq then) and for every reply of Groq but a text.  It does so
    before the call ends, so before any retry; when Groq returns a text the
    fallback is not invoked. *)
Theorem fallback_runs_in_each_failed_attempt (E : Env) (path : string)
    (w : World) (content : list Z) :
  truthy_string (GROQ_API_KEY E) = true →
  files w !! path = Some content →
  ∃ o w' evs,
    run (transcribeAudio E path) w = (o, w')
    ∧ log w' = log w ++ CallTranscribeAudio path :: evs
    ∧ if bool_decide (MAX_AUDIO_SIZE < Z.of_nat (length content)) then
        evs = [WhisperRequest content 16000]
      else
        match groq E (tick w) with
        | OkText text => evs = [GroqRequest content] ∧ o = Return text
        | _ => evs = [GroqRequest content; WhisperRequest content 16000]
        end.
Proof.
  intros Hkey Hfile.
  destruct (transcribeAudio_cases E path w)
    as (o & w' & evs & Hrun & (_ & _ & _ & Hlog & _) & Hcases).
  exists o, w', evs. split; [exact Hrun|]. split; [exact Hlog|].
  destruct Hcases as [(? & _)|[(_ & ? & _)|[(_ & c & Hc & Hsize & -> & _)|(_ & c & Hc & Hsize & H)]]];
    try congruence.
  - assert (c = content) as -> by congruence.
    by rewrite bool_decide_eq_true_2.
  - assert (c = content) as -> by congruence.
    rewrite bool_decide_eq_false_2 by done.
    destruct (groq E (tick w)); cbn [groq_error] in H;
      try (destruct H as [-> _]; reflexivity).
    destruct H as (t & [= <-] & -> & ->). auto.
Qed.

Lemma fallback_runs_in_each_failed_attempt_witness :
  let w := small_chunk E_down in
  let content := default [] (files w !! small_chunk_path) in
  ∃ o w' evs,
    run (transcribeAudio E_down small_chunk_path) w = (o, w')
    ∧ log w' = log w ++ CallTranscribeAudio small_chunk_path :: evs
    ∧ if bool_decide (MAX_AUDIO_SIZE < Z.of_nat (length content)) then
        evs = [WhisperRequest content 16000]
      else
        match groq E_down (tick w) with
        | OkText text => evs = [GroqRequest content] ∧ o = Return text
        | _ => evs = [GroqRequest content; WhisperRequest content 16000]
        end.
Proof.
  apply (fallback_runs_in_each_failed_attempt E_down small_chunk_path
           (small_chunk E_down)
           (default [] (files (small_chunk E_down) !! small_chunk_path))).
  - reflexivity.
  - vm_compute. reflexivity.
Defined.

Lemma primary_failure_origin (E : Env) (w : World) (path : string) (e : JsError) :
  primary_failure E w path e → origin e = Primary.
Proof.
  intros [->|[->|[(c & _ & ->)|[k Hk]]]]; try reflexivity.
  destruct (groq E k); cbn in Hk; by simplify_eq.
Qed.

(** Whenever [transcribeAudio] or [transcribeWithRetry] throws, the error
    thrown to the caller is a failure of the primary path (the missing
    key, the unreadable or oversize file, or the error made from a reply
    of Groq), never an error of the fallback engine. *)
Lemma thrown_error_is_a_primary_failure (E : Env) (path : string) (w w' : World)
    (e : JsError) :
  run (transcribeAudio E path) w = (Throw e, w')
  ∨ run (transcribeWithRetry E path MAX_RETRIES) w = (Throw e, w') →
  primary_failure E w path e ∧ origin e = Primary.
Proof.
  intros Hthrow.
  assert (primary_failure E w path e) as Hp.
  { destruct Hthrow as [H|H]; unfold run in H.
    - destruct (transcribeAudio_summary E path w)
        as (o & w1 & evs & Hrun & _ & _ & _ & _ & _ & _ & _ & Herr).
      rewrite Hrun in H. apply Herr. congruence.
    - rewrite transcribeWithRetry_MAX in H.
      destruct (retry_loop_spec E path 3 3 1 None w ltac:(lia))
        as (o & w1 & evs & Hrun & _ & _ & _ & _ & _ & _ & Herr).
      rewrite Hrun in H.
      destruct (Herr e ltac:(congruence)) as [[? _]|?]; [lia|done]. }
  split; [exact Hp|]. eapply primary_failure_origin; exact Hp.
Qed.

(** C8.  Session "s1" holds a chunk, Groq times out on every attempt and
    the local Whisper engine fails.  [transcribeWithRetry] throws the
    primary error, "request timed out", not the fallback's; but
    [processAudioChunk], which calls it, does not throw: its outer [catch]
    swallows the error, and the one error event the client gets is the
    fixed text "Failed to process audio", which gives neither the primary
    failure nor any other reason. *)
Theorem client_error_hides_the_primary_failure :
  let w := small_chunk E_down in
  (run (transcribeWithRetry E_down small_chunk_path MAX_RETRIES) w).1
  = Throw (Error Primary "request timed out")
  ∧ (run (processAudioChunk E_down "s1" "s1" "s1") w).1 = Return ()
  ∧ error_events "s1" (log (exec (processAudioChunk E_down "s1" "s1" "s1") w))
    = [PString "Failed to process audio"]
  ∧ ¬ surfaces "request timed out" (PString "Failed to process audio").
Proof. vm_compute. split_and!; try reflexivity. discriminate. Qed.

(** ** Frame reasoning: what an operation leaves alone *)

Section Preserves.
Context (R : World → World → Prop) `{!PreOrder R}.

Lemma preserves_ret {A} (a : A) : preserves R (ret a).
Proof. intros w. reflexivity. Qed.

Lemma preserves_throw {A} (e : JsError) : preserves R (@throw A e).
Proof. intros w. reflexivity. Qed.

Lemma preserves_bind {A B} (m : M A) (k : A → M B) :
  preserves R m → (∀ a, preserves R (k a)) → preserves R (m ≫= k).
Proof.
  intros Hm Hk w. rewrite run_bind. specialize (Hm w).
  destruct (m w) as [[a|e] w1]; cbn [snd] in *; [|done].
  etrans; [exact Hm|apply Hk].
Qed.

Lemma preserves_try_catch {A} (m : M A) (h : JsError → M A) :
  preserves R m → (∀ e, preserves R (h e)) → preserves R (try_catch m h).
Proof.
  intros Hm Hh w. rewrite run_try_catch. specialize (Hm w).
  destruct (m w) as [[a|e] w1]; cbn [snd] in *; [done|].
  etrans; [exact Hm|apply Hh].
Qed.

Lemma preserves_finally {A} (m : M A) (f : M unit) :
  preserves R m → preserves R f → preserves R (finally m f).
Proof.
  intros Hm Hf w. unfold finally. specialize (Hm w).
  destruct (m w) as [o w1]. specialize (Hf w1).
  destruct (f w1) as [[[]|e] w2]; cbn [snd] in *; etrans; eauto.
Qed.

End Preserves.

#[global] Instance same_rates_preorder : PreOrder same_rates.
Proof.
  split.
  - intros w k. reflexivity.
  - intros w1 w2 w3 H12 H23 k. rewrite H23. apply H12.
Qed.

Lemma rates_modify (f : World → World) :
  (∀ w, objects (f w) = objects w) → preserves same_rates (modify f).
Proof. intros Hf w k. mrun. by rewrite Hf. Qed.

Lemma rates_update (session : string) (f : SessionData → SessionData) :
  (∀ s, sampleRate (f s) = sampleRate s) → preserves same_rates (update session f).
Proof.
  intros Hf w k. mrun. rewrite lookup_total_update. case_decide; subst; auto.
Qed.

Lemma rates_ask {A} (oracle : nat → A) : preserves same_rates (ask oracle).
Proof. intros w k. reflexivity. Qed.

Lemma rates_get_world : preserves same_rates get_world.
Proof. intros w k. reflexivity. Qed.

Lemma rates_read (session : string) : preserves same_rates (read session).
Proof. intros w k. reflexivity. Qed.

Lemma rates_sessions_get (id : string) : preserves same_rates (sessions_get id).
Proof. intros w k. reflexivity. Qed.

Lemma rates_emit (socket event : string) (p : Payload) :
  preserves same_rates (emit socket event p).
Proof. intros w k. reflexivity. Qed.

Lemma rates_ack (has_callback : bool) (socket : string) (p : Payload) :
  preserves same_rates (ack has_callback socket p).
Proof. intros w k. by destruct has_callback. Qed.

Lemma rates_record (e : Event) : preserves same_rates (record e).
Proof. intros w k. reflexivity. Qed.

Create HintDb frame discriminated.
#[global] Hint Resolve rates_ask rates_get_world rates_read rates_sessions_get
  rates_emit rates_ack rates_record : frame.

(** One step of a frame proof: follow the structure of the operation. *)
Ltac frame_step :=
  lazymatch goal with
  | |- preserves _ (ret _) => apply preserves_ret; apply _
  | |- preserves _ (throw _) => apply preserves_throw; apply _
  | |- preserves _ (mbind _ _) => apply preserves_bind; [apply _| |intros ?]
  | |- preserves _ (try_catch _ _) => apply preserves_try_catch; [apply _| |intros ?]
  | |- preserves _ (finally _ _) => apply preserves_finally; [apply _| |]
  | |- preserves _ (modify _) => apply rates_modify; intros ?; reflexivity
  | |- preserves _ (update _ _) => apply rates_update; intros ?; reflexivity
  | |- preserves _ (match ?x with _ => _ end) => destruct x
  | |- preserves _ _ => solve [eauto with frame]
  end.

Ltac frame := repeat frame_step.

Lemma rates_fs_stat (o : Origin) (path : string) : preserves same_rates (fs_stat o path).
Proof. unfold fs_stat. frame. Qed.

Lemma rates_fs_readFile (o : Origin) (path : string) :
  preserves same_rates (fs_readFile o path).
Proof. unfold fs_readFile. frame. Qed.

#[global] Hint Resolve rates_fs_stat rates_fs_readFile : frame.

Lemma rates_fs_access (o : Origin) (path : string) :
  preserves same_rates (fs_access o path).
Proof. unfold fs_access. frame. Qed.

Lemma rates_fs_writeFile (path : string) (content : list Z) :
  preserves same_rates (fs_writeFile path content).
Proof. unfold fs_writeFile. frame. Qed.

Lemma rates_fs_unlink (o : Origin) (path : string) :
  preserves same_rates (fs_unlink o path).
Proof. unfold fs_unlink. frame. Qed.

Lemma rates_stream_write (ws : WriteStream) (data : list Z) :
  preserves same_rates (stream_write ws data).
Proof. unfold stream_write. frame. Qed.

#[global] Hint Resolve rates_fs_access rates_fs_writeFile rates_fs_unlink
  rates_stream_write : frame.

Lemma rates_streamToDisk (E : Env) (session : string) (audioData : Buffer) :
  preserves same_rates (streamToDisk E session audioData).
Proof. unfold streamToDisk. frame. Qed.

Lemma rates_updateWavHeader (path : string) (dataSize : Z) :
  preserves same_rates (updateWavHeader path dataSize).
Proof. unfold updateWavHeader. frame. Qed.

Lemma rates_cleanupSession (sessionId session : string) :
  preserves same_rates (cleanupSession sessionId session).
Proof. unfold cleanupSession. frame. Qed.

Lemma rates_transcribeAudio (E : Env) (path : string) :
  preserves same_rates (transcribeAudio E path).
Proof. unfold transcribeAudio. frame. Qed.

#[global] Hint Resolve rates_streamToDisk rates_updateWavHeader rates_cleanupSession
  rates_transcribeAudio : frame.

Lemma rates_retry_loop (E : Env) (path : string) (maxRetries : Z) (remaining : nat) :
  ∀ attempt lastError,
    preserves same_rates (retry_loop E path maxRetries remaining attempt lastError).
Proof.
  induction remaining as [|remaining IH]; intros attempt lastError;
    cbn [retry_loop]; unfold rethrow_last, backoff; frame.
Qed.

Lemma rates_transcribeWithRetry (E : Env) (path : string) (maxRetries : Z) :
  preserves same_rates (transcribeWithRetry E path maxRetries).
Proof. unfold transcribeWithRetry. apply rates_retry_loop. Qed.

#[global] Hint Resolve rates_retry_loop rates_transcribeWithRetry : frame.

Lemma rates_processAudioChunk (E : Env) (socket sessionId session : string) :
  preserves same_rates (processAudioChunk E socket sessionId session).
Proof. unfold processAudioChunk. frame. Qed.

Lemma rates_shouldProcessChunk (E : Env) (session : string) (audioData : Buffer) :
  preserves same_rates (shouldProcessChunk E session audioData).
Proof. unfold shouldProcessChunk. frame. Qed.

#[global] Hint Resolve rates_processAudioChunk rates_shouldProcessChunk : frame.

Lemma rates_on_audio_frame (E : Env) (sessionId session : string) (msg : AudioMsg)
    (has_ack : bool) :
  preserves same_rates (on_audio_frame E sessionId session msg has_ack).
Proof. unfold on_audio_frame. frame. Qed.

Lemma rates_replay (E : Env) (session : string) (chunks : list Buffer) :
  preserves same_rates (replay E session chunks).
Proof. induction chunks as [|chunk chunks IH]; cbn [replay]; frame. Qed.

#[global] Hint Resolve rates_on_audio_frame rates_replay : frame.

Lemma rates_on_pause (socket : Socket) (has_callback : bool) :
  preserves same_rates (on_pause socket has_callback).
Proof. unfold on_pause. frame. Qed.

Lemma rates_on_resume (E : Env) (socket : Socket) (has_callback : bool) :
  preserves same_rates (on_resume E socket has_callback).
Proof. unfold on_resume. frame. Qed.

Lemma rates_on_stop (E : Env) (socket : Socket) (has_callback : bool) :
  preserves same_rates (on_stop E socket has_callback).
Proof. unfold on_stop. frame. Qed.

Lemma rates_on_disconnect (E : Env) (socket : Socket) :
  preserves same_rates (on_disconnect E socket).
Proof. unfold on_disconnect. frame. Qed.

(** ** The stored sample rate *)

(** C9, as stated, fails.  A session is initialised at 16000 Hz; an audio
    frame that declares 44100 Hz then arrives while the session records:
    the stored [sampleRate] becomes 44100. *)
Lemma declared_rate_overwrites_sampleRate :
  let data := {| init_sampleRate := Some 16000; init_language := None;
                 init_sessionId := None |} in
  let w1 := exec (on_init E_down client (Some data) true) (connected E_down) in
  let w2 := exec (on_audio E_down client (frame_msg (wav_frame 16 0) (Some 44100)) true) w1 in
  sampleRate (objects w1 !!! "s1") = 16000
  ∧ sampleRate (objects w2 !!! "s1") = 44100.
Proof. vm_compute. auto. Qed.

(** C9, amended.  The stored [sampleRate] of a session changes only in two
    places: [init] sets it when the message gives a non-zero rate, and an
    [audio] frame sets it when the session is in the session map, is not
    paused, and the frame declares a non-zero rate.  Every other frame
    (handled while paused, or declaring no rate) and the pause, resume,
    stop and disconnect handlers leave the rate of every session as it
    was. *)
Theorem sampleRate_changes_only_by_init_and_declaring_frames (E : Env)
    (socket : Socket) (data : InitData) (msg : AudioMsg)
    (has_callback : bool) (w : World) (k : string) :
  sampleRate (objects (exec (on_init E socket (Some data) has_callback) w) !!! k)
  = (if bool_decide (k = socket_id socket) && truthy_number (init_sampleRate data)
     then default 0 (init_sampleRate data)
     else sampleRate (objects w !!! k))
  ∧ sampleRate (objects (exec (on_audio E socket msg has_callback) w) !!! k)
    = (if bool_decide (k = socket_id socket ∧ socket_id socket ∈ sessions w)
          && negb (isPaused (objects w !!! socket_id socket))
          && truthy_number (declaredRate msg)
       then default 0 (declaredRate msg)
       else sampleRate (objects w !!! k))
  ∧ same_rates w (exec (on_pause socket has_callback) w)
  ∧ same_rates w (exec (on_resume E socket has_callback) w)
  ∧ same_rates w (exec (on_stop E socket has_callback) w)
  ∧ same_rates w (exec (on_disconnect E socket) w).
Proof.
  split_and!.
  - unfold on_init.
    destruct (truthy_number (init_sampleRate data)), has_callback; mrun;
      rewrite ?lookup_total_update; rewrite ?andb_true_r, ?andb_false_r;
      try reflexivity;
      case_decide; case_bool_decide; simplify_eq; reflexivity.
  - unfold on_audio, on_audio_payload, fields. mrun.
    destruct (bool_decide (socket_id socket ∈ sessions w)) eqn:Hlive.
    2:{ apply bool_decide_eq_false_1 in Hlive. mrun.
        rewrite bool_decide_eq_false_2 by tauto. reflexivity. }
    apply bool_decide_eq_true_1 in Hlive.
    destruct (isPaused (objects w !!! socket_id socket)) eqn:Hpaused.
    { rewrite andb_false_r. cbn [andb].
      destruct (decode E msg), has_callback; mrun;
        rewrite ?lookup_total_update; try reflexivity;
        case_decide; simplify_eq; reflexivity. }
    rewrite andb_true_r.
    destruct (truthy_number (declaredRate msg)) eqn:Hrate; mrun;
      match goal with
      | |- context [on_audio_frame ?a ?b ?c ?d ?e ?w2] =>
          pose proof (rates_on_audio_frame a b c d e w2 k) as Hp;
          destruct (on_audio_frame a b c d e w2) as [[[]|err] w3]
      end; cbn [snd] in Hp; mrun in Hp; mrun; rewrite Hp;
      rewrite ?lookup_total_update, ?andb_true_r, ?andb_false_r;
      repeat case_decide; try case_bool_decide; simplify_eq; try reflexivity;
      tauto.
  - apply rates_on_pause.
  - apply rates_on_resume.
  - apply rates_on_stop.
  - apply rates_on_disconnect.
Qed.

(** ** Disconnection *)

(** [cleanupSession] never throws: it ends the write stream, unlinks the
    temp file and removes the session from the map. *)
Lemma cleanupSession_spec (sessionId session : string) (w : World) :
  ∃ w',
    cleanupSession sessionId session w = (Return (), w')
    ∧ sessions w' = sessions w ∖ {[sessionId]}
    ∧ log w' = log w
    ∧ (∀ path, tempFile (objects w !!! session) = Some path → path ≠ "" →
               files w' !! path = None)
    ∧ (∀ ws, writeStream (objects w !!! session) = Some ws →
             writeStream (objects w' !!! session)
             = Some {| ws_path := ws_path ws; ws_ended := true |}).
Proof.
  unfold cleanupSession, fs_unlink, fs_stat. mrun.
  destruct (writeStream (objects w !!! session)) as [ws|] eqn:Hws; mrun;
    rewrite ?lookup_total_insert_eq; cbn [tempFile set_writeStream];
    (destruct (tempFile (objects w !!! session)) as [path|] eqn:Htemp;
     [destruct (String.eqb_spec path "") as [->|Hne];
      [|rewrite (truthy_path path Hne); cbn [default from_option id]; mrun;
        destruct (files w !! path) eqn:Hfile; mrun]|]);
    cbn [truthy_string String.eqb negb]; mrun;
    (eexists; split; [reflexivity|]; mrun;
     rewrite ?lookup_total_insert_eq; cbn [writeStream set_writeStream];
     split_and!; try done;
     try (intros p [= <-] ?; first [done | apply lookup_delete_eq]);
     try (intros ws' [= <-]; reflexivity)).
Qed.

(** What the disconnect handler does on a socket that carries the
    session id in its [sessionId] property, as the handler expects (the
    connection handler does not set it): a session with a temp file that
    is not paused has its remainder submitted - a call of [transcribeAudio]
    on the temp file is the first thing the handler does - a paused one
    has nothing submitted; in every case the write stream is ended, the
    temp file is unlinked and the session is removed from the session
    map. *)
Lemma on_disconnect_with_sessionId (E : Env)
    (socket : Socket) (sid : string) (w : World) :
  socket_sessionId socket = Some sid →
  truthy_string (Some sid) = true →
  sid ∈ sessions w →
  let s := objects w !!! sid in
  let w' := exec (on_disconnect E socket) w in
  ∃ evs,
    log w' = log w ++ evs
    ∧ (sid ∉ sessions w')
    ∧ (∀ path, tempFile s = Some path → path ≠ "" → files w' !! path = None)
    ∧ (∀ ws, writeStream s = Some ws →
             writeStream (objects w' !!! sid)
             = Some {| ws_path := ws_path ws; ws_ended := true |})
    ∧ (isPaused s = true → evs = [])
    ∧ (isPaused s = false →
       ∀ path c, tempFile s = Some path → path ≠ "" →
                 files w !! path = Some c → (44 ≤ length c)%nat →
                 Z.of_nat (length c) - 44 + 28 < 2 ^ 32 →
                 ∃ evs', evs = CallTranscribeAudio path :: evs').
Proof.
  intros Hsid Htruthy Hlive s w'. subst s w'.
  unfold on_disconnect. rewrite Hsid, Htruthy. cbn [negb default from_option id].
  mrun. rewrite (bool_decide_eq_true_2 _ Hlive).
  set (s := objects w !!! sid) in *.
  assert (truthy_string (tempFile s) && negb (isPaused s) = true
          → ∃ path, tempFile s = Some path ∧ path ≠ "" ∧ isPaused s = false) as Hgo.
  { intros [H1 H2]%andb_true_iff. destruct (tempFile s) as [path|]; [|done].
    exists path. split_and!; [done| |by destruct (isPaused s)].
    intros ->. done. }
  destruct (truthy_string (tempFile s) && negb (isPaused s)) eqn:Hcond.
  - destruct (Hgo eq_refl) as (path & Htemp & Hpath & Hpaused).
    destruct (processAudioChunk_spec E (socket_id socket) sid sid path w Htemp Hpath)
      as (w2 & evs & Hrun & Hs2 & Hl2 & _ & Ho2 & Hf2 & _ & Hfirst & _).
    rewrite Hrun.
    destruct (cleanupSession_spec sid sid w2) as (w3 & Hrun3 & Hs3 & Hl3 & Hf3 & Hw3).
    rewrite Hrun3. cbn [snd].
    assert (tempFile (objects w2 !!! sid) = tempFile s
            ∧ writeStream (objects w2 !!! sid) = writeStream s) as [Ht2 Hw2].
    { destruct Ho2 as [->|[t ->]]; [done|].
      rewrite lookup_total_insert_eq. done. }
    exists evs. split_and!.
    + congruence.
    + rewrite Hs3. intros [_ Hn]%elem_of_difference.
      apply Hn. by apply elem_of_singleton.
    + intros p Hp Hne. apply Hf3; congruence.
    + intros ws Hws. apply Hw3. congruence.
    + congruence.
    + intros _ p c Hp Hne Hc Hlen Hmax. assert (p = path) as -> by congruence. eauto.
  - destruct (cleanupSession_spec sid sid w) as (w3 & Hrun3 & Hs3 & Hl3 & Hf3 & Hw3).
    rewrite Hrun3. cbn [snd].
    exists []. rewrite app_nil_r. split_and!; auto.
    + rewrite Hs3. intros [_ Hn]%elem_of_difference.
      apply Hn. by apply elem_of_singleton.
    + intros Hpaused p c Hp Hne. exfalso.
      fold s in Hp. rewrite Hp, (truthy_path p Hne), Hpaused in Hcond. done.
Qed.

(** C5.  A session on the socket as the server has it - the [sessionId]
    property is not set - holds a remainder of 16 bytes in its temp file
    when the client disconnects.  The handler returns at once: the world is
    unchanged, so the remainder is not submitted, the temp file stays, the
    write stream stays open and the session stays in the session map. *)
Theorem disconnect_leaves_the_session_behind :
  let w := small_chunk E_up in
  let w' := exec (on_disconnect E_up client) w in
  chunk_data w "s1" = wav_frame 16 0
  ∧ w' = w
  ∧ count is_call (log w') = 0%nat
  ∧ (∃ content, files w' !! small_chunk_path = Some content
                ∧ drop 44 content = wav_frame 16 0)
  ∧ tempFile (objects w' !!! "s1") = Some small_chunk_path
  ∧ writeStream (objects w' !!! "s1")
    = Some {| ws_path := small_chunk_path; ws_ended := false |}
  ∧ bool_decide ("s1" ∈ sessions w') = true.
Proof.
  cbv zeta. split_and!.
  - by vm_compute.
  - reflexivity.
  - by vm_compute.
  - eexists. split; by vm_compute.
  - by vm_compute.
  - by vm_compute.
  - by vm_compute.
Qed.

(** ** Pause and resume *)

(** The writes of [createWavHeader], one after the other, for fields that
    are in range. *)
Ltac header_fields :=
  repeat first
    [ rewrite byteRate_field by (cbn; lia)
    | rewrite blockAlign_field
    | match goal with
      | |- context [bool_decide ?P] =>
          rewrite (bool_decide_eq_true_2 P) by (cbn; lia)
      end
    | progress cbn [andb mbind option_bind alloc write ascii_codes] ].

Lemma createWavHeader_ok (r : Z) :
  rate_ok r →
  ∃ header,
    createWavHeader {| Wav.sampleRate := r; channels := 1; bitDepth := 16; Wav.format := 1 |}
    = Some header
    ∧ length header = 44%nat.
Proof.
  intros [H0 H1]. unfold createWavHeader, writeUInt32LE, writeUInt16LE, writeUIntLE.
  cbn [Wav.sampleRate channels bitDepth Wav.format].
  header_fields.
  eexists. split; [reflexivity|]. reflexivity.
Qed.

Lemma chunk_data_eq (w : World) (session path : string) (c : list Z) :
  tempFile (objects w !!! session) = Some path → files w !! path = Some c →
  chunk_data w session = drop 44 c.
Proof.
  intros Ht Hf. unfold chunk_data, chunk_file. rewrite Ht. cbn. by rewrite Hf.
Qed.

Lemma chunk_data_none (w : World) (session : string) :
  tempFile (objects w !!! session) = None → chunk_data w session = [].
Proof. intros Ht. unfold chunk_data, chunk_file. by rewrite Ht. Qed.

(** [streamToDisk] on a session that can take a frame: the frame lands at
    the end of the chunk, and the session can take the next one. *)
Lemma streamToDisk_spec (E : Env) (session : string) (audioData : Buffer) (w : World) :
  storage_ok w session →
  ∃ path w',
    streamToDisk E session audioData w = (Return path, w')
    ∧ appended session audioData w w'
    ∧ is_Some (tempFile (objects w' !!! session))
    ∧ log w' = log w.
Proof.
  unfold appended, storage_ok, same_control.
  destruct (tempFile (objects w !!! session)) as [path|] eqn:Htemp.
  - intros (Hne & Hws & c & Hc & Hlen).
    unfold streamToDisk, stream_write. mrun.
    rewrite Htemp, (truthy_path path Hne). mrun. rewrite Hws.
    cbn [ws_ended ws_path]. mrun.
    do 2 eexists. split; [reflexivity|]. mrun. rewrite Htemp, Hws, Hc.
    cbn [default from_option id].
    split_and!; try done; try (by eexists).
    + eexists. split; [apply lookup_insert_eq|]. rewrite length_app. lia.
    + rewrite (chunk_data_eq _ session path (c ++ audioData));
        [|mrun; exact Htemp|mrun; rewrite Hc; apply lookup_insert_eq].
      rewrite (chunk_data_eq w session path c Htemp Hc).
      apply drop_app_le. lia.
  - intros [Hrate Hws].
    unfold streamToDisk, stream_write, fs_writeFile. mrun.
    rewrite Htemp. cbn [truthy_string]. mrun.
    rewrite !lookup_total_insert_eq. cbn [sampleRate set_tempFile].
    destruct (createWavHeader_ok _ Hrate) as (header & -> & Hlen). mrun.
    rewrite !lookup_total_insert_eq.
    cbn [writeStream set_writeStream ws_ended ws_path tempFile set_tempFile].
    mrun. rewrite !lookup_total_insert_eq.
    cbn [writeStream set_writeStream ws_ended ws_path tempFile set_tempFile
         default from_option id isPaused pendingChunks].
    do 2 eexists. split; [reflexivity|]. mrun. rewrite !lookup_total_insert_eq.
    cbn [writeStream set_writeStream ws_ended ws_path tempFile set_tempFile
         default from_option id isPaused pendingChunks].
    rewrite !lookup_insert_eq. cbn [default from_option id].
    split_and!; try done; try (by eexists).
    + unfold join. by destruct (TEMP_DIR E).
    + eexists. split; [reflexivity|]. rewrite length_app. lia.
    + rewrite (chunk_data_eq _ session
                 (join (TEMP_DIR E) (uuidv4 E (tick w) +:+ ".wav"))
                 (header ++ audioData));
        [|mrun; rewrite !lookup_total_insert_eq; reflexivity
         |mrun; rewrite !lookup_insert_eq; reflexivity].
      rewrite (chunk_data_none w session Htemp).
      rewrite drop_app_le by lia. rewrite drop_ge by lia. reflexivity.
Qed.

Lemma appended_trans (session : string) (a b : list Z) (w1 w2 w3 : World) :
  appended session a w1 w2 → appended session b w2 w3 →
  appended session (a ++ b) w1 w3.
Proof.
  unfold appended, same_control.
  intros (_ & Hd1 & (Hp1 & Hc1 & Hs1) & Ht1) (Hok & Hd2 & (Hp2 & Hc2 & Hs2) & Ht2).
  split_and!; try congruence; [|auto]. rewrite Hd2, Hd1. by rewrite app_assoc.
Qed.

(** A step that keeps the storage fields and the control fields of the
    session, and every file, appends nothing. *)
Lemma appended_fields (session : string) (w w' : World) :
  storage_ok w session →
  tempFile (objects w' !!! session) = tempFile (objects w !!! session) →
  writeStream (objects w' !!! session) = writeStream (objects w !!! session) →
  sampleRate (objects w' !!! session) = sampleRate (objects w !!! session) →
  isPaused (objects w' !!! session) = isPaused (objects w !!! session) →
  pendingChunks (objects w' !!! session) = pendingChunks (objects w !!! session) →
  files w' = files w → sessions w' = sessions w →
  appended session [] w w'.
Proof.
  intros Hok Ht Hw Hr Hp Hc Hf Hs.
  unfold appended, same_control, storage_ok, chunk_data, chunk_file in *.
  rewrite Ht, Hw, Hr, Hf, app_nil_r. split_and!; auto.
Qed.

Lemma appended_refl (session : string) (w : World) :
  storage_ok w session → appended session [] w w.
Proof. intros Hok. by apply appended_fields. Qed.

Lemma replay_spec (E : Env) (session : string) (chunks : list Buffer) :
  ∀ w, storage_ok w session →
       ∃ w', replay E session chunks w = (Return (), w')
             ∧ appended session (concat chunks) w w'
             ∧ log w' = log w.
Proof.
  induction chunks as [|chunk chunks IH]; intros w Hok; cbn [replay concat].
  - exists w. split; [reflexivity|]. split; [by apply appended_refl|done].
  - rewrite run_bind, run_try_catch, run_bind.
    destruct (streamToDisk_spec E session chunk w Hok) as (p & w1 & -> & Happ1 & _ & Hl1).
    mrun. destruct (IH w1 ltac:(apply Happ1)) as (w2 & -> & Happ2 & Hl2).
    exists w2. split; [reflexivity|].
    split; [eapply appended_trans; eassumption|congruence].
Qed.

Lemma shouldProcessChunk_spec (E : Env) (session : string) (audioData : Buffer)
    (w : World) :
  ∃ b w',
    shouldProcessChunk E session audioData w = (Return b, w')
    ∧ objects w' = objects w ∧ files w' = files w
    ∧ sessions w' = sessions w ∧ log w' = log w.
Proof.
  unfold shouldProcessChunk, fs_stat. mrun.
  destruct (truthy_string (tempFile (objects w !!! session))); cbn [negb]; mrun.
  2:{ by do 2 eexists. }
  destruct (files w !! default "" (tempFile (objects w !!! session))); mrun;
    by do 2 eexists.
Qed.

(** [processAudioChunk] keeps the chunk: it rewrites the header of the
    temp file only. *)
Lemma processAudioChunk_keeps_chunk (E : Env) (socket sessionId session : string)
    (w : World) :
  storage_ok w session →
  is_Some (tempFile (objects w !!! session)) →
  ∃ w',
    processAudioChunk E socket sessionId session w = (Return (), w')
    ∧ appended session [] w w'
    ∧ pendingFinalize (objects w' !!! session) = pendingFinalize (objects w !!! session).
Proof.
  intros Hok [path Htemp].
  pose proof Hok as Hok'. unfold storage_ok in Hok'. rewrite Htemp in Hok'.
  destruct Hok' as (Hne & Hws & c & Hc & Hlen).
  destruct (processAudioChunk_spec E socket sessionId session path w Htemp Hne)
    as (w' & evs & Hrun & Hs & _ & _ & Ho & Hf & _).
  exists w'. split; [exact Hrun|].
  assert (tempFile (objects w' !!! session) = Some path
          ∧ writeStream (objects w' !!! session)
            = Some {| ws_path := path; ws_ended := false |}
          ∧ isPaused (objects w' !!! session) = isPaused (objects w !!! session)
          ∧ pendingChunks (objects w' !!! session) = pendingChunks (objects w !!! session)
          ∧ pendingFinalize (objects w' !!! session)
            = pendingFinalize (objects w !!! session)) as (Ht' & Hw' & Hp' & Hc' & Hpf').
  { destruct Ho as [->|[t ->]]; [done|]. by rewrite lookup_total_insert_eq. }
  split; [|exact Hpf'].
  assert (∃ c', files w' !! path = Some c' ∧ length c' = length c
                ∧ drop 44 c' = drop 44 c) as (c' & Hc'' & Hlen' & Hdrop).
  { destruct Hf as [->|(c0 & c1 & Hc0 & _ & -> & Hl & Hd)]; [by exists c|].
    exists c1. rewrite lookup_insert_eq. split_and!; congruence. }
  unfold appended, same_control, storage_ok.
  rewrite Ht', Hw', Hp', Hc', Hs, app_nil_r.
  rewrite (chunk_data_eq w' session path c' Ht' Hc'').
  rewrite (chunk_data_eq w session path c Htemp Hc).
  split_and!; try done; try (by eexists). exists c'. split; [done|lia].
Qed.

Lemma appended_same (session : string) (w w' : World) :
  storage_ok w session →
  objects w' = objects w → files w' = files w → sessions w' = sessions w →
  appended session [] w w'.
Proof. intros Hok Ho Hf Hs. apply appended_fields; try done; by rewrite Ho. Qed.

Lemma appended_nil_r (session : string) (a : list Z) (w1 w2 w3 : World) :
  appended session a w1 w2 → appended session [] w2 w3 → appended session a w1 w3.
Proof.
  intros H1 H2. rewrite <- (app_nil_r a). eapply appended_trans; eassumption.
Qed.

Lemma appended_has_file (session : string) (a : list Z) (w w' : World) :
  appended session a w w' → is_Some (tempFile (objects w !!! session)) →
  is_Some (tempFile (objects w' !!! session)).
Proof. intros (_ & _ & _ & H). exact H. Qed.

Lemma appended_ok (session : string) (a : list Z) (w w' : World) :
  appended session a w w' → storage_ok w' session.
Proof. intros (H & _). exact H. Qed.

Lemma on_audio_frame_spec (E : Env) (sessionId session : string) (msg : AudioMsg)
    (has_ack : bool) (w : World) (f : Buffer) :
  storage_ok w session → decode E msg = Some f → isWav f = true →
  ∃ w', on_audio_frame E sessionId session msg has_ack w = (Return (), w')
        ∧ appended session f w w'.
Proof.
  intros Hok Hdec Hwav. unfold on_audio_frame.
  rewrite run_try_catch, run_bind, Hdec. mrun. rewrite Hwav. cbn [negb]. mrun.
  destruct (streamToDisk_spec E session f w Hok) as (p & w1 & -> & Happ1 & Hfile1 & Hl1).
  assert (∃ w2, ack has_ack sessionId (PAudioAck "received" (Z.of_nat (length f))) w1
                = (Return (), w2)
                ∧ appended session [] w1 w2) as (w2 & Hack & Happ2).
  { destruct has_ack; mrun; eexists; (split; [reflexivity|]);
      apply appended_same; try done; apply Happ1. }
  unfold ack in Hack. mrun in Hack. rewrite Hack. clear Hack.
  destruct (shouldProcessChunk_spec E session f w2) as (b & w3 & -> & Ho3 & Hf3 & Hs3 & _).
  assert (appended session [] w2 w3) as Happ3
    by (apply appended_same; try done; eapply appended_ok; exact Happ2).
  assert (appended session f w w3) as Hw3.
  { eapply appended_nil_r; [|exact Happ3]. eapply appended_nil_r; eassumption. }
  assert (is_Some (tempFile (objects w3 !!! session))) as Hfile3.
  { eapply appended_has_file; [exact Happ3|].
    eapply appended_has_file; [exact Happ2|exact Hfile1]. }
  clear Happ1 Happ2 Happ3 Hfile1 Hl1 Ho3 Hf3 Hs3.
  assert (∃ w4, (if b && truthy_string (tempFile (objects w3 !!! session))
                 then try_catch (processAudioChunk E sessionId sessionId session)
                        (λ error, emit sessionId "error"
                                    (PError "Background processing error"
                                       (Some (message error))))
                 else ret ()) w3 = (Return (), w4)
                ∧ appended session [] w3 w4) as (w4 & Hrun4 & Happ4).
  { destruct (b && truthy_string (tempFile (objects w3 !!! session))).
    - rewrite run_try_catch.
      destruct (processAudioChunk_keeps_chunk E sessionId sessionId session w3)
        as (w4 & -> & Happ4 & _); [eapply appended_ok; exact Hw3|exact Hfile3|].
      eauto.
    - exists w3. split; [done|]. apply appended_refl.
      eapply appended_ok; exact Hw3. }
  mrun in Hrun4. rewrite Hrun4. clear Hrun4.
  assert (appended session f w w4) as Hw4 by (eapply appended_nil_r; eassumption).
  assert (is_Some (tempFile (objects w4 !!! session))) as Hfile4
    by (eapply appended_has_file; [exact Happ4|exact Hfile3]).
  destruct (pendingFinalize (objects w4 !!! session)).
  - destruct (processAudioChunk_keeps_chunk E sessionId sessionId session w4)
      as (w5 & -> & Happ5 & _); [eapply appended_ok; exact Hw4|exact Hfile4|].
    eexists. split; [reflexivity|].
    eapply appended_nil_r; [exact Hw4|]. eapply appended_nil_r; [exact Happ5|].
    apply appended_fields; mrun; rewrite ?lookup_total_insert_eq; try done.
    eapply appended_ok; exact Happ5.
  - eexists. split; [reflexivity|]. exact Hw4.
Qed.

(** A frame handled while the session is paused goes to [pendingChunks],
    when it decodes, and nowhere else. *)
Lemma on_audio_paused (E : Env) (socket : Socket) (msg : AudioMsg) (has_ack : bool)
    (w : World) :
  socket_id socket ∈ sessions w →
  isPaused (objects w !!! socket_id socket) = true →
  ∃ w',
    on_audio E socket msg has_ack w = (Return (), w')
    ∧ pendingChunks (objects w' !!! socket_id socket)
      = pendingChunks (objects w !!! socket_id socket) ++ option_list (decode E msg)
    ∧ isPaused (objects w' !!! socket_id socket) = true
    ∧ sessions w' = sessions w
    ∧ chunk_data w' (socket_id socket) = chunk_data w (socket_id socket)
    ∧ (storage_ok w (socket_id socket) → storage_ok w' (socket_id socket)).
Proof.
  intros Hlive Hpaused. unfold on_audio, on_audio_payload, fields. mrun.
  rewrite (bool_decide_eq_true_2 _ Hlive), Hpaused.
  unfold chunk_data, chunk_file, storage_ok.
  destruct (decode E msg) as [chunk|], has_ack; mrun;
    (eexists; split; [reflexivity|]); mrun;
    rewrite ?lookup_total_insert_eq;
    cbn [pendingChunks set_pendingChunks isPaused tempFile writeStream sampleRate
         option_list];
    rewrite ?app_nil_r; split_and!; done.
Qed.

(** The frames handled in a row while paused. *)
Lemma on_audio_paused_all (E : Env) (socket : Socket) (has_ack : bool)
    (msgs : list AudioMsg) :
  ∀ w,
    socket_id socket ∈ sessions w →
    isPaused (objects w !!! socket_id socket) = true →
    let w' := foldl (λ w msg, exec (on_audio E socket msg has_ack) w) w msgs in
    pendingChunks (objects w' !!! socket_id socket)
    = pendingChunks (objects w !!! socket_id socket) ++ omap (decode E) msgs
    ∧ isPaused (objects w' !!! socket_id socket) = true
    ∧ socket_id socket ∈ sessions w'
    ∧ chunk_data w' (socket_id socket) = chunk_data w (socket_id socket)
    ∧ (storage_ok w (socket_id socket) → storage_ok w' (socket_id socket)).
Proof.
  induction msgs as [|msg msgs IH]; intros w Hlive Hpaused; cbn [foldl omap].
  - rewrite app_nil_r. auto.
  - destruct (on_audio_paused E socket msg has_ack w Hlive Hpaused)
      as (w1 & Hrun & Hp1 & Hpaused1 & Hs1 & Hd1 & Hok1).
    replace (exec (on_audio E socket msg has_ack) w) with w1
      by (unfold exec; by rewrite Hrun).
    destruct (IH w1 ltac:(by rewrite Hs1) Hpaused1) as (Hp & Hpaused' & Hlive' & Hd & Hok).
    cbv zeta. split_and!; [|done|done|congruence|auto].
    rewrite Hp, Hp1, <- app_assoc. f_equal.
    cbn [list_omap]. fold (omap (decode E) msgs). by destruct (decode E msg).
Qed.

(** A step that keeps the storage fields of the session and every file
    keeps its chunk. *)
Lemma storage_fields (session : string) (w w' : World) :
  tempFile (objects w' !!! session) = tempFile (objects w !!! session) →
  writeStream (objects w' !!! session) = writeStream (objects w !!! session) →
  sampleRate (objects w' !!! session) = sampleRate (objects w !!! session) →
  files w' = files w →
  (storage_ok w session → storage_ok w' session)
  ∧ chunk_data w' session = chunk_data w session.
Proof.
  intros Ht Hw Hr Hf. unfold storage_ok, chunk_data, chunk_file.
  rewrite Ht, Hw, Hr, Hf. auto.
Qed.

(** Resuming: the pending chunks go to the end of the chunk, in order. *)
Lemma on_resume_spec (E : Env) (socket : Socket) (sid : string) (has_callback : bool)
    (w : World) :
  socket_sessionId socket = Some sid → truthy_string (Some sid) = true →
  sid ∈ sessions w → storage_ok w sid →
  ∃ w',
    on_resume E socket has_callback w = (Return (), w')
    ∧ storage_ok w' sid
    ∧ chunk_data w' sid
      = chunk_data w sid ++ concat (pendingChunks (objects w !!! sid))
    ∧ pendingChunks (objects w' !!! sid) = []
    ∧ isPaused (objects w' !!! sid) = false
    ∧ sessions w' = sessions w.
Proof.
  intros Hsid Htruthy Hlive Hok. unfold on_resume.
  rewrite Hsid, Htruthy. cbn [negb default from_option id].
  rewrite run_bind. mrun. rewrite (bool_decide_eq_true_2 _ Hlive).
  rewrite !lookup_total_insert_eq. cbn [pendingChunks set_isPaused].
  set (w0 := set_objects _ w).
  destruct (storage_fields sid w w0) as [Hok0 Hd0];
    try (subst w0; mrun; by rewrite ?lookup_total_insert_eq).
  specialize (Hok0 Hok).
  assert (isPaused (objects w0 !!! sid) = false) as Hpaused0
    by (subst w0; mrun; by rewrite lookup_total_insert_eq).
  assert (sessions w0 = sessions w) as Hs0 by done.
  assert (∃ w1, (if bool_decide (0 < length (pendingChunks (objects w !!! sid)))%nat
                 then replay E sid (pendingChunks (objects w !!! sid));;
                      update sid (set_pendingChunks [])
                 else ret ()) w0 = (Return (), w1)
                ∧ storage_ok w1 sid
                ∧ chunk_data w1 sid
                  = chunk_data w sid ++ concat (pendingChunks (objects w !!! sid))
                ∧ pendingChunks (objects w1 !!! sid) = []
                ∧ isPaused (objects w1 !!! sid) = false
                ∧ sessions w1 = sessions w) as (w1 & Hrun1 & Hok1 & Hd1 & Hp1 & Hpaused1 & Hs1).
  { destruct (bool_decide (0 < length (pendingChunks (objects w !!! sid)))%nat) eqn:Hpending.
    - destruct (replay_spec E sid (pendingChunks (objects w !!! sid)) w0 Hok0)
        as (w1 & Hrun & (Hok1 & Hd1 & (Hpaused1 & _ & Hs1) & _) & _).
      rewrite run_bind, Hrun. mrun.
      eexists. split; [reflexivity|].
      match goal with |- storage_ok ?w2 _ ∧ _ =>
        destruct (storage_fields sid w1 w2) as [Hok2 Hd2];
          try (mrun; by rewrite ?lookup_total_insert_eq)
      end.
      split_and!; [auto|by rewrite Hd2, Hd1, Hd0| | |by rewrite <- Hs0, <- Hs1];
        mrun; rewrite lookup_total_insert_eq; [done|].
      cbn [isPaused set_pendingChunks]. by rewrite Hpaused1.
    - apply bool_decide_eq_false_1 in Hpending.
      destruct (pendingChunks (objects w !!! sid)) as [|? ?] eqn:Hnil;
        [|cbn [length] in Hpending; lia].
      exists w0. split; [done|]. cbn [concat]. rewrite app_nil_r.
      split_and!; try done.
      subst w0. mrun. rewrite lookup_total_insert_eq.
      cbn [pendingChunks set_isPaused]. exact Hnil. }
  mrun in Hrun1. rewrite Hrun1.
  destruct has_callback; mrun; (eexists; split; [reflexivity|]);
    match goal with |- storage_ok ?w2 _ ∧ _ =>
      destruct (storage_fields sid w1 w2) as [Hok2 Hd2]; try done
    end;
    (split_and!; [auto|congruence|done|done|done]).
Qed.

Lemma storage_rate (session : string) (w w' : World) :
  tempFile (objects w' !!! session) = tempFile (objects w !!! session) →
  writeStream (objects w' !!! session) = writeStream (objects w !!! session) →
  rate_ok (sampleRate (objects w' !!! session)) →
  files w' = files w →
  (storage_ok w session → storage_ok w' session)
  ∧ chunk_data w' session = chunk_data w session.
Proof.
  intros Ht Hw Hr Hf. unfold storage_ok, chunk_data, chunk_file.
  rewrite Ht, Hw, Hf. split; [|done].
  destruct (tempFile (objects w !!! session)); [done|]. intros [_ ?]. auto.
Qed.

(** A frame handled while the session records goes to the end of the
    chunk. *)
Lemma on_audio_recording (E : Env) (socket : Socket) (msg : AudioMsg) (has_ack : bool)
    (w : World) (f : Buffer) :
  socket_id socket ∈ sessions w →
  isPaused (objects w !!! socket_id socket) = false →
  storage_ok w (socket_id socket) →
  decode E msg = Some f → isWav f = true →
  (truthy_number (declaredRate msg) = true → rate_ok (default 0 (declaredRate msg))) →
  chunk_data (exec (on_audio E socket msg has_ack) w) (socket_id socket)
  = chunk_data w (socket_id socket) ++ f.
Proof.
  intros Hlive Hpaused Hok Hdec Hwav Hrate. unfold on_audio, on_audio_payload, fields. mrun.
  rewrite (bool_decide_eq_true_2 _ Hlive), Hpaused.
  destruct (truthy_number (declaredRate msg)) eqn:Hdeclared; mrun;
    match goal with
    | |- context [on_audio_frame ?a ?b ?c ?d ?e ?w2] =>
        assert (storage_ok w2 (socket_id socket)
                ∧ chunk_data w2 (socket_id socket) = chunk_data w (socket_id socket))
          as [Hok2 Hd2];
        [|destruct (on_audio_frame_spec a b c d e w2 f Hok2 Hdec Hwav)
            as (w3 & -> & (_ & Hd3 & _))]
    end.
  - destruct (storage_rate (socket_id socket) w
                (set_objects
                   (λ o, <[socket_id socket :=
                             set_sampleRate (default 0 (declaredRate msg))
                               (o !!! socket_id socket)]> o)
                   (set_objects
                      (λ o, <[socket_id socket :=
                                set_lastProcessed (Date_now E (tick w))
                                  (o !!! socket_id socket)]> o)
                      (set_tick S w)))) as [H1 H2];
      try (mrun; by rewrite ?lookup_total_insert_eq); [|auto].
    mrun. rewrite !lookup_total_insert_eq. cbn [sampleRate set_sampleRate]. auto.
  - mrun. by rewrite Hd3, Hd2.
  - destruct (storage_fields (socket_id socket) w
                (set_objects
                   (λ o, <[socket_id socket :=
                             set_lastProcessed (Date_now E (tick w))
                               (o !!! socket_id socket)]> o)
                   (set_tick S w))) as [H1 H2];
      try (mrun; by rewrite ?lookup_total_insert_eq); auto.
  - mrun. by rewrite Hd3, Hd2.
Qed.

(** What pause and resume do on a socket that carries the session id in
    its [sessionId] property (the connection handler does not set it),
    when every handler runs to its end before the next event is handled:
    the frames that arrive while the session is paused are kept in
    [pendingChunks], in arrival order, and none reaches the chunk; the
    resume handler appends them to the chunk in that order and empties
    [pendingChunks]; a frame handled after the resume lands behind them.
    The resume handler of the source clears [isPaused] before it awaits
    the first replayed write, so a frame that arrives during the replay is
    not covered here. *)
Lemma on_resume_with_sessionId (E : Env) (socket : Socket)
    (msgs : list AudioMsg) (has_ack has_callback : bool) (w : World) :
  socket_sessionId socket = Some (socket_id socket) →
  truthy_string (Some (socket_id socket)) = true →
  socket_id socket ∈ sessions w →
  storage_ok w (socket_id socket) →
  isPaused (objects w !!! socket_id socket) = true →
  let sid := socket_id socket in
  let paused := pendingChunks (objects w !!! sid) ++ omap (decode E) msgs in
  let w1 := foldl (λ w msg, exec (on_audio E socket msg has_ack) w) w msgs in
  let w2 := exec (on_resume E socket has_callback) w1 in
  chunk_data w1 sid = chunk_data w sid
  ∧ pendingChunks (objects w1 !!! sid) = paused
  ∧ chunk_data w2 sid = chunk_data w sid ++ concat paused
  ∧ pendingChunks (objects w2 !!! sid) = []
  ∧ isPaused (objects w2 !!! sid) = false
  ∧ ∀ msg f,
      decode E msg = Some f → isWav f = true →
      (truthy_number (declaredRate msg) = true →
       rate_ok (default 0 (declaredRate msg))) →
      chunk_data (exec (on_audio E socket msg has_ack) w2) sid
      = chunk_data w sid ++ concat paused ++ f.
Proof.
  intros Hsid Htruthy Hlive Hok Hpaused sid paused w1 w2. subst sid.
  destruct (on_audio_paused_all E socket has_ack msgs w Hlive Hpaused)
    as (Hp1 & Hpaused1 & Hlive1 & Hd1 & Hok1).
  fold w1 in Hp1, Hpaused1, Hlive1, Hd1, Hok1.
  destruct (on_resume_spec E socket (socket_id socket) has_callback w1
              Hsid Htruthy Hlive1 (Hok1 Hok))
    as (w2' & Hrun2 & Hok2 & Hd2 & Hp2 & Hpaused2 & Hs2).
  assert (w2 = w2') as -> by (subst w2; unfold exec; by rewrite Hrun2).
  split_and!; try done.
  - rewrite Hd2, Hd1, Hp1. reflexivity.
  - intros msg f Hdec Hwav Hrate.
    rewrite (on_audio_recording E socket msg has_ack w2' f); try done.
    + rewrite Hd2, Hd1, Hp1. fold paused. by rewrite app_assoc.
    + by rewrite Hs2.
Qed.

(** C4.  On the socket as the server has it - the [sessionId] property
    is not set - the client asks for a pause, sends a frame [A] of half a
    second and a frame [B], and asks to resume.  The pause is answered
    with "No session ID found" and the session is not paused: both frames
    are acknowledged as received, not buffered, and appended to the chunk
    as they come, [pendingChunks] stays empty, and the chunk is submitted
    for transcription after each of them, inside the pause.  The resume
    gets the same answer and replays nothing. *)
Theorem pause_holds_no_frame_back :
  let A := wav_frame (Z.to_nat 16000) 1 in
  let B := wav_frame 20 2 in
  let refused := Ack "s1" (PResult false "No session ID found" None None) in
  let w1 := exec (on_pause client true) (connected E_up) in
  let w2 := exec (on_audio E_up client (frame_msg A None) true) w1 in
  let w3 := exec (on_audio E_up client (frame_msg B None) true) w2 in
  let w4 := exec (on_resume E_up client true) w3 in
  log w1 = log (connected E_up) ++ [refused]
  ∧ isPaused (objects w1 !!! "s1") = false
  ∧ chunk_data w2 "s1" = A
  ∧ chunk_data w3 "s1" = A ++ B
  ∧ pendingChunks (objects w3 !!! "s1") = []
  ∧ filter (λ e, is_emit e = true) (log w3)
    = [refused;
       Ack "s1" (PAudioAck "received" 16000);
       Emit "s1" "transcript" (PTranscript "hello" true "groq" 2 1700000000007);
       Ack "s1" (PAudioAck "received" 20);
       Emit "s1" "transcript" (PTranscript "hello" true "groq" 2 1700000000014)]
  ∧ count is_groq (log w3) = 2%nat
  ∧ log w4 = log w3 ++ [refused]
  ∧ chunk_data w4 "s1" = chunk_data w3 "s1".
Proof. vm_compute. split_and!; reflexivity. Qed.

(** ** Further facts about the code *)

(** For every chunk with [n] data bytes whose file holds a header,
    [updateWavHeader] succeeds and leaves [28 + n] in the RIFF size field
    at offset 4 and [n] in the data size field at offset 40; the length of
    the file and every byte after the header are unchanged. *)
Theorem patched_header_fields (file : list Z) (n : Z) :
  (44 ≤ length file)%nat → 0 ≤ n → n + 28 < 2 ^ 32 →
  ∃ file', updateWavHeader_content file n = (file', true)
    ∧ readUInt32LE 4 file' = Some (28 + n)
    ∧ readUInt32LE 40 file' = Some n
    ∧ length file' = length file
    ∧ drop 44 file' = drop 44 file.
Proof. apply updateWavHeader_content_fields. Qed.

Lemma patched_header_fields_witness :
  ∃ file', updateWavHeader_content (replicate 50 7) 6 = (file', true)
    ∧ readUInt32LE 4 file' = Some (28 + 6)
    ∧ readUInt32LE 40 file' = Some 6
    ∧ length file' = length (replicate 50 7 : list Z)
    ∧ drop 44 file' = drop 44 (replicate 50 7).
Proof.
  apply (patched_header_fields (replicate 50 7) 6).
  - vm_compute. lia.
  - lia.
  - lia.
Defined.

(** Once the session's temp file, header included, holds 500 ms of audio
    at the session's rate (2 bytes per sample), [shouldProcessChunk]
    answers true. *)
Theorem chunk_is_ready_after_500ms (E : Env) (session path : string)
    (audioData : Buffer) (w : World) (content : list Z) :
  tempFile (objects w !!! session) = Some path → path ≠ "" →
  files w !! path = Some content →
  500 * (sampleRate (objects w !!! session) * 2) ≤ 1000 * Z.of_nat (length content) →
  (run (shouldProcessChunk E session audioData) w).1 = Return true.
Proof.
  intros Htemp Hpath Hfile Hsize. unfold shouldProcessChunk, fs_stat. mrun.
  rewrite Htemp, (truthy_path path Hpath). cbn [negb default from_option id]. mrun.
  rewrite Hfile. mrun.
  assert (Qle_bool (inject_Z (sampleRate (objects w !!! session) * 2) * (1 # 2))
            (inject_Z (Z.of_nat (length content))) = true) as ->.
  { apply Qle_bool_iff. unfold Qle. cbn. lia. }
  reflexivity.
Qed.

Lemma chunk_is_ready_after_500ms_witness :
  let A := wav_frame (Z.to_nat 16000) 1 in
  let w := exec (streamToDisk E_up "s1" A) (connected E_up) in
  (run (shouldProcessChunk E_up "s1" A) w).1 = Return true.
Proof.
  apply (chunk_is_ready_after_500ms E_up "s1" "/srv/temp/chunk-1.wav"
           (wav_frame (Z.to_nat 16000) 1)
           (exec (streamToDisk E_up "s1" (wav_frame (Z.to_nat 16000) 1)) (connected E_up))
           (default [] (files (exec (streamToDisk E_up "s1" (wav_frame (Z.to_nat 16000) 1))
                                 (connected E_up)) !! "/srv/temp/chunk-1.wav"))).
  - vm_compute. reflexivity.
  - discriminate.
  - vm_compute. reflexivity.
  - vm_compute. discriminate.
Defined.

(** The pause, resume, stop and disconnect handlers read the session id
    off the socket's [sessionId] property.  On a socket where it is not set
    the disconnect handler returns at once: nothing is processed, no file
    is removed, and the session stays in the session map; the pause handler
    only answers "No session ID found". *)
Theorem handlers_need_the_socket_sessionId (E : Env) (socket : Socket) (w : World) :
  socket_sessionId socket = None →
  run (on_disconnect E socket) w = (Return (), w)
  ∧ run (on_pause socket false) w = (Return (), w)
  ∧ log (exec (on_pause socket true) w)
    = log w ++ [Ack (socket_id socket) (PResult false "No session ID found" None None)]
  ∧ objects (exec (on_pause socket true) w) = objects w.
Proof.
  intros Hnone. unfold on_disconnect, on_pause. rewrite Hnone.
  cbn [truthy_string negb]. mrun. auto.
Qed.

Lemma handlers_need_the_socket_sessionId_witness :
  let w := small_chunk E_down in
  run (on_disconnect E_down client) w = (Return (), w)
  ∧ run (on_pause client false) w = (Return (), w)
  ∧ log (exec (on_pause client true) w)
    = log w ++ [Ack (socket_id client) (PResult false "No session ID found" None None)]
  ∧ objects (exec (on_pause client true) w) = objects w.
Proof.
  apply (handlers_need_the_socket_sessionId E_down client (small_chunk E_down)).
  reflexivity.
Defined.

(** ** More of the code *)

(** *** What [transcribeWithRetry] retries *)

Lemma transcribeAudio_no_key (E : Env) (path : string) (w : World) :
  truthy_string (GROQ_API_KEY E) = false →
  transcribeAudio E path w
  = (Throw (Error Primary "Groq API key not configured"),
     set_log (λ l, l ++ [CallTranscribeAudio path]) w).
Proof.
  intros Hkey. unfold transcribeAudio. mrun. by rewrite Hkey.
Qed.

Lemma transcribeAudio_no_file (E : Env) (path : string) (w : World) :
  truthy_string (GROQ_API_KEY E) = true → files w !! path = None →
  transcribeAudio E path w
  = (Throw (Error Primary "File not found or not readable"),
     set_log (λ l, l ++ [CallTranscribeAudio path]) w).
Proof.
  intros Hkey Hfile. unfold transcribeAudio, fs_access, fs_stat, fs_readFile. mrun.
  rewrite Hkey. cbn [negb]. mrun. rewrite Hfile. mrun. by rewrite ?Hfile.
Qed.

(** Without an API key [transcribeWithRetry] makes one attempt, whatever
    [maxRetries] is: one call of [transcribeAudio], no request to Groq or to
    the fallback engine, no sleep, and the error "Groq API key not
    configured". *)
Theorem missing_api_key_is_not_retried (E : Env) (path : string) (maxRetries : Z)
    (w : World) :
  truthy_string (GROQ_API_KEY E) = false →
  run (transcribeWithRetry E path maxRetries) w
  = (Throw (Error Primary "Groq API key not configured"),
     set_log (λ l, l ++ [CallTranscribeAudio path]) w).
Proof.
  intros Hkey. unfold transcribeWithRetry, run.
  set (m := if bool_decide (maxRetries ≤ 0) then 1 else maxRetries).
  assert (Hm : 1 ≤ m) by (unfold m; case_bool_decide; lia).
  destruct (Z.to_nat m) as [|n] eqn:Hn; [lia|].
  cbn [retry_loop]. rewrite run_try_catch, transcribeAudio_no_key by done.
  reflexivity.
Qed.

Lemma missing_api_key_is_not_retried_witness :
  run (transcribeWithRetry E_no_key "/srv/temp/a.wav" 3) empty_world
  = (Throw (Error Primary "Groq API key not configured"),
     set_log (λ l, l ++ [CallTranscribeAudio "/srv/temp/a.wav"]) empty_world).
Proof. apply missing_api_key_is_not_retried. reflexivity. Defined.

Lemma retry_loop_throw (E : Env) (path : string) (maxRetries : Z) (remaining : nat)
    (attempt : Z) (lastError : option JsError) (w w1 : World) (e : JsError) :
  transcribeAudio E path w = (Throw e, w1) → nonRetryable e = false →
  retry_loop E path maxRetries (S remaining) attempt lastError w
  = retry_loop E path maxRetries remaining (attempt + 1) (Some e)
      (if bool_decide (attempt < maxRetries) then exec (backoff E attempt) w1 else w1).
Proof.
  intros Hrun Hnon. cbn [retry_loop]. rewrite run_try_catch, Hrun, Hnon.
  rewrite run_bind. by case_bool_decide.
Qed.

(** A temp file that cannot be read is retried: the error thrown for it
    is "File not found or not readable", which the entry "file not found"
    of [nonRetryableErrors] does not match (the test is case sensitive).
    With the key configured [transcribeWithRetry] calls [transcribeAudio]
    three times and sleeps after the first and the second call, and no
    request leaves the server. *)
Theorem unreadable_file_is_retried (E : Env) (path : string) (w : World) :
  truthy_string (GROQ_API_KEY E) = true → files w !! path = None →
  ∃ w',
    run (transcribeWithRetry E path MAX_RETRIES) w
    = (Throw (Error Primary "File not found or not readable"), w')
    ∧ log w' = log w ++ [CallTranscribeAudio path;
                         Sleep 1 (jittered 1 (Math_random E (tick w)));
                         CallTranscribeAudio path;
                         Sleep 2 (jittered 2 (Math_random E (S (tick w))));
                         CallTranscribeAudio path]
    ∧ files w' = files w ∧ objects w' = objects w ∧ sessions w' = sessions w.
Proof.
  intros Hkey Hfile. rewrite transcribeWithRetry_MAX. unfold run.
  assert (Hnon : nonRetryable (Error Primary "File not found or not readable") = false)
    by (by vm_compute).
  erewrite retry_loop_throw; [|by apply transcribeAudio_no_file|done].
  erewrite retry_loop_throw; [|by apply transcribeAudio_no_file|done].
  erewrite retry_loop_throw; [|by apply transcribeAudio_no_file|done].
  rewrite (bool_decide_eq_true_2 (1 < 3)) by lia.
  rewrite (bool_decide_eq_true_2 (1 + 1 < 3)) by lia.
  rewrite (bool_decide_eq_false_2 (1 + 1 + 1 < 3)) by lia.
  change (1 + 1) with 2.
  cbn [retry_loop]. unfold rethrow_last, backoff. mrun.
  cbn [default from_option id].
  eexists. split; [reflexivity|].
  cbn [log files objects sessions tick set_log set_tick].
  split_and!; try done. rewrite <- !app_assoc. reflexivity.
Qed.

Lemma unreadable_file_is_retried_witness :
  ∃ w',
    run (transcribeWithRetry E_up "/srv/temp/gone.wav" MAX_RETRIES) empty_world
    = (Throw (Error Primary "File not found or not readable"), w')
    ∧ log w' = log empty_world ++ [CallTranscribeAudio "/srv/temp/gone.wav";
                         Sleep 1 (jittered 1 (Math_random E_up (tick empty_world)));
                         CallTranscribeAudio "/srv/temp/gone.wav";
                         Sleep 2 (jittered 2 (Math_random E_up (S (tick empty_world))));
                         CallTranscribeAudio "/srv/temp/gone.wav"]
    ∧ files w' = files empty_world ∧ objects w' = objects empty_world
    ∧ sessions w' = sessions empty_world.
Proof. apply unreadable_file_is_retried; reflexivity. Defined.

Lemma transcribeAudio_fallback (E : Env) (path : string) (w : World) (c : list Z)
    (e : JsError) :
  truthy_string (GROQ_API_KEY E) = true →
  files w !! path = Some c → ¬ MAX_AUDIO_SIZE < Z.of_nat (length c) →
  groq_error (groq E (tick w)) = Some e →
  ∃ w',
    transcribeAudio E path w = (after_fallback e (whisper E (S (tick w))), w')
    ∧ objects w' = objects w ∧ sessions w' = sessions w ∧ files w' = files w
    ∧ tick w' = S (S (tick w))
    ∧ log w' = log w ++ [CallTranscribeAudio path; GroqRequest c; WhisperRequest c 16000].
Proof.
  intros Hkey Hfile Hsize Hgroq.
  unfold transcribeAudio, fs_access, fs_stat, fs_readFile. mrun.
  rewrite Hkey. cbn [negb]. mrun. rewrite Hfile. mrun. rewrite Hfile. mrun.
  rewrite bool_decide_eq_false_2 by done. mrun. rewrite Hfile. mrun.
  assert (Hlog : ∀ l : list Event,
             ((l ++ [CallTranscribeAudio path]) ++ [GroqRequest c])
               ++ [WhisperRequest c 16000]
             = l ++ [CallTranscribeAudio path; GroqRequest c; WhisperRequest c 16000])
    by (intros l; by rewrite <- !app_assoc).
  unfold after_fallback, whisper_text.
  destruct (groq E (tick w)) eqn:Hr; cbn [groq_error] in Hgroq; simplify_eq;
    mrun; rewrite Hfile; mrun;
    (destruct (whisper E (S (tick w))) as [wmsg|text]; mrun;
     [|destruct (truthy_string (Some text)); mrun]);
    (eexists; split; [reflexivity|]);
    cbn [objects sessions files tick log set_log set_tick];
    by rewrite Hlog.
Qed.



(** A reply of Groq without a [text] string is not retried: when the
    fallback engine gives no text either, [transcribeWithRetry] throws
    "Invalid response format from Groq API" after one request to each,
    whatever [maxRetries] is. *)
Theorem malformed_reply_is_not_retried (E : Env) (path : string) (maxRetries : Z)
    (w : World) (c : list Z) :
  truthy_string (GROQ_API_KEY E) = true →
  files w !! path = Some c → Z.of_nat (length c) ≤ MAX_AUDIO_SIZE →
  groq E (tick w) = OkNoText →
  whisper_text (whisper E (S (tick w))) = None →
  ∃ w',
    run (transcribeWithRetry E path maxRetries) w
    = (Throw (Error Primary "Invalid response format from Groq API"), w')
    ∧ log w' = log w ++ [CallTranscribeAudio path; GroqRequest c;
                         WhisperRequest c 16000].
Proof.
  intros Hkey Hfile Hsize Hgroq Hwhisper.
  destruct (transcribeAudio_fallback E path w c
              (Error Primary "Invalid response format from Groq API"))
    as (w' & Hrun & _ & _ & _ & _ & Hlog); [done|done|lia|by rewrite Hgroq|].
  unfold after_fallback in Hrun. rewrite Hwhisper in Hrun.
  exists w'. split; [|done].
  unfold transcribeWithRetry, run.
  set (m := if bool_decide (maxRetries ≤ 0) then 1 else maxRetries).
  assert (Hm : 1 ≤ m) by (unfold m; case_bool_decide; lia).
  destruct (Z.to_nat m) as [|n] eqn:Hn; [lia|].
  cbn [retry_loop]. rewrite run_try_catch, Hrun. reflexivity.
Qed.

Lemma malformed_reply_is_not_retried_witness :
  ∃ w',
    run (transcribeWithRetry E_malformed "/srv/temp/a.wav" 3) one_file
    = (Throw (Error Primary "Invalid response format from Groq API"), w')
    ∧ log w' = log one_file
               ++ [CallTranscribeAudio "/srv/temp/a.wav"; GroqRequest (wav_frame 44 0);
                   WhisperRequest (wav_frame 44 0) 16000].
Proof.
  apply malformed_reply_is_not_retried.
  - reflexivity.
  - by vm_compute.
  - vm_compute. by intros ?.
  - reflexivity.
  - reflexivity.
Defined.

Lemma transcribeAudio_no_sleep (E : Env) (path : string) (w : World) :
  ∃ o w' evs,
    transcribeAudio E path w = (o, w') ∧ only_log w w' evs
    ∧ count is_call evs = 1%nat ∧ count is_sleep evs = 0%nat.
Proof.
  destruct (transcribeAudio_cases E path w) as (o & w' & evs & Hrun & Hlog & Hcases).
  exists o, w', (CallTranscribeAudio path :: evs).
  split_and!; [done|done|..].
  - destruct Hcases as [(_ & -> & _)|[(_ & _ & -> & _)|[(_ & c & _ & _ & -> & _)
                       |(_ & c & _ & _ & Hg)]]]; try done.
    destruct (groq_error _); [by destruct Hg as [-> _]|by destruct Hg as (t & _ & -> & _)].
  - destruct Hcases as [(_ & -> & _)|[(_ & _ & -> & _)|[(_ & c & _ & _ & -> & _)
                       |(_ & c & _ & _ & Hg)]]]; try done.
    destruct (groq_error _); [by destruct Hg as [-> _]|by destruct Hg as (t & _ & -> & _)].
Qed.

Lemma count_none_last (kind : Event → bool) (l : list Event) (e : Event) :
  count kind l = 0%nat → last l = Some e → kind e = false.
Proof.
  induction l as [|e' l IH]; [done|]. rewrite count_cons. intros Hc Hlast.
  destruct l as [|e'' l].
  - cbn in Hlast. simplify_eq. destruct (kind e); [lia|done].
  - apply IH; [lia|done].
Qed.

Lemma retry_loop_sleeps (E : Env) (path : string) (maxRetries : Z) (remaining : nat) :
  ∀ (attempt : Z) (lastError : option JsError) (w : World),
    attempt + Z.of_nat remaining = maxRetries →
    ∃ o w' evs,
      retry_loop E path maxRetries (S remaining) attempt lastError w = (o, w')
      ∧ only_log w w' evs
      ∧ (1 ≤ count is_call evs ≤ S remaining)%nat
      ∧ (count is_sleep evs + 1 = count is_call evs)%nat
      ∧ (∀ e, last evs = Some e → is_sleep e = false).
Proof.
  induction remaining as [|remaining IH]; intros attempt lastError w Hsum.
  - destruct (transcribeAudio_no_sleep E path w) as (o & w' & evs & Hrun & Hlog & Hc & Hs).
    pose proof (λ e, count_none_last is_sleep evs e Hs) as Hlast.
    rewrite retry_loop_unfold, run_try_catch, Hrun.
    destruct o as [t|e].
    { exists (Return t), w', evs. split_and!; [done|done|lia|lia|lia|done]. }
    destruct (nonRetryable e).
    { exists (Throw e), w', evs. split_and!; [done|done|lia|lia|lia|done]. }
    cbn [retry_loop]. rewrite bool_decide_eq_false_2 by lia. unfold rethrow_last. mrun.
    eexists _, w', evs. split_and!; [done|done|lia|lia|lia|done].
  - destruct (transcribeAudio_no_sleep E path w) as (o & w' & evs & Hrun & Hlog & Hc & Hs).
    pose proof (λ e, count_none_last is_sleep evs e Hs) as Hlast.
    rewrite retry_loop_unfold, run_try_catch, Hrun.
    destruct o as [t|e].
    { exists (Return t), w', evs. split_and!; [done|done|lia|lia|lia|done]. }
    destruct (nonRetryable e).
    { exists (Throw e), w', evs. split_and!; [done|done|lia|lia|lia|done]. }
    rewrite bool_decide_eq_true_2 by lia. unfold backoff. rewrite run_bind. mrun.
    match goal with |- context [retry_loop _ _ _ _ _ _ ?w0] => set (w1 := w0) end.
    destruct (IH (attempt + 1) (Some e) w1)
      as (o2 & w2 & evs2 & Hrun2 & Hlog2 & Hc2 & Hs2 & Hlast2); [lia|].
    rewrite Hrun2.
    exists o2, w2, (evs ++ Sleep attempt (jittered attempt (Math_random E (tick w'))) :: evs2).
    split_and!.
    + done.
    + eapply only_log_trans; [exact Hlog|].
      change (Sleep attempt (jittered attempt (Math_random E (tick w'))) :: evs2)
        with ([Sleep attempt (jittered attempt (Math_random E (tick w')))] ++ evs2).
      eapply only_log_trans; [|exact Hlog2].
      unfold w1, only_log. cbn [objects sessions files log tick set_log set_tick].
      split_and!; try done. lia.
    + rewrite !count_app, count_cons. cbn [is_call]. lia.
    + rewrite !count_app, count_cons. cbn [is_call]. lia.
    + rewrite !count_app, !count_cons. cbn [is_call is_sleep]. lia.
    + intros e'. destruct evs2 as [|e2 evs2].
      { unfold count in Hc2. cbn in Hc2. lia. }
      rewrite last_app, last_cons.
      destruct (last (e2 :: evs2)) as [e3|] eqn:H3; [|by apply last_None in H3].
      intros [= <-]. by apply Hlast2.
Qed.

(** [transcribeWithRetry] calls [transcribeAudio] at least once and at
    most [max 1 maxRetries] times; it sleeps one time fewer than it calls,
    and the last thing it does is never a sleep: no delay is spent once
    the outcome is settled. *)
Theorem one_sleep_between_attempts (E : Env) (path : string) (maxRetries : Z)
    (w : World) :
  ∃ o w' evs,
    run (transcribeWithRetry E path maxRetries) w = (o, w')
    ∧ log w' = log w ++ evs
    ∧ (1 ≤ count is_call evs ≤ Z.to_nat (Z.max 1 maxRetries))%nat
    ∧ (count is_sleep evs + 1 = count is_call evs)%nat
    ∧ (∀ e, last evs = Some e → is_sleep e = false).
Proof.
  unfold transcribeWithRetry, run.
  set (m := if bool_decide (maxRetries ≤ 0) then 1 else maxRetries).
  assert (Hm : m = Z.max 1 maxRetries) by (unfold m; case_bool_decide; lia).
  destruct (Z.to_nat m) as [|n] eqn:Hn; [lia|].
  destruct (retry_loop_sleeps E path m n 1 None w)
    as (o & w' & evs & Hrun & Hlog & Hc & Hs & Hlast); [lia|].
  exists o, w', evs. split_and!; [done|apply Hlog|lia|lia|done|done].
Qed.

Lemma transcribeAudio_text (E : Env) (path : string) (w : World) (c : list Z)
    (text : string) :
  truthy_string (GROQ_API_KEY E) = true →
  files w !! path = Some c → ¬ MAX_AUDIO_SIZE < Z.of_nat (length c) →
  groq E (tick w) = OkText text →
  transcribeAudio E path w
  = (Return text,
     set_tick S (set_log (λ l, l ++ [GroqRequest c])
                   (set_log (λ l, l ++ [CallTranscribeAudio path]) w))).
Proof.
  intros Hkey Hfile Hsize Hgroq.
  unfold transcribeAudio, fs_access, fs_stat, fs_readFile. mrun.
  rewrite Hkey. cbn [negb]. mrun. rewrite Hfile. mrun. rewrite Hfile. mrun.
  rewrite bool_decide_eq_false_2 by done. mrun. rewrite Hfile. mrun.
  by rewrite Hgroq.
Qed.

(** An empty text from Groq counts as a transcript for [transcribeAudio]
    (no fallback, no retry) and as a failure for [processAudioChunk]: the
    client gets the error event "Failed to process audio" and no
    [transcript] event, and no session object changes ([lastProcessed] is
    not advanced). *)
Theorem empty_transcript_is_reported_as_failure (E : Env)
    (socket sessionId session path : string) (w : World) (c : list Z) :
  tempFile (objects w !!! session) = Some path → path ≠ "" →
  files w !! path = Some c → (44 ≤ length c)%nat →
  Z.of_nat (length c) ≤ MAX_AUDIO_SIZE →
  truthy_string (GROQ_API_KEY E) = true →
  groq E (S (tick w)) = OkText "" →
  ∃ w' c',
    run (processAudioChunk E socket sessionId session) w = (Return (), w')
    ∧ updateWavHeader_content c (Z.of_nat (length c) - 44) = (c', true)
    ∧ log w' = log w ++ [CallTranscribeAudio path; GroqRequest c';
                         Emit socket "error" (PString "Failed to process audio")]
    ∧ objects w' = objects w.
Proof.
  intros Htemp Hpath Hfile Hlen Hmax Hkey Hgroq.
  assert (Hmax' : MAX_AUDIO_SIZE = 26214400) by reflexivity.
  destruct (updateWavHeader_content_fields c (Z.of_nat (length c) - 44))
    as (c' & Hc' & _ & _ & Hlen' & _); [done|lia|lia|].
  set (w1 := set_tick S (set_files (<[path := c']>) w)).
  pose proof (transcribeAudio_text E path w1 c' "") as Hrun.
  eexists _, c'. split_and!; [|done|..].
  - unfold processAudioChunk, updateWavHeader, fs_stat, fs_readFile, fs_writeFile.
    mrun.
    rewrite Htemp, (truthy_path path Hpath). cbn [negb default from_option id]. mrun.
    rewrite Hfile. mrun. rewrite bool_decide_eq_false_2 by lia. mrun.
    rewrite Hfile. mrun. rewrite Hc'. mrun.
    rewrite transcribeWithRetry_MAX. cbn [retry_loop]. mrun.
    fold w1. rewrite Hrun; [|done| |rewrite Hlen'; lia|done].
    + mrun. reflexivity.
    + unfold w1. cbn [files set_files set_tick]. by rewrite lookup_insert_eq.
  - cbn [log set_log set_tick]. unfold w1. cbn [log set_tick set_files].
    by rewrite <- !app_assoc.
  - cbn [objects set_log set_tick]. unfold w1. by cbn [objects set_tick set_files].
Qed.

Lemma empty_transcript_is_reported_as_failure_witness :
  ∃ w' c',
    run (processAudioChunk E_silent "s1" "s1" "s1") (small_chunk E_silent)
    = (Return (), w')
    ∧ updateWavHeader_content
        (default [] (files (small_chunk E_silent) !! small_chunk_path))
        (Z.of_nat (length (default [] (files (small_chunk E_silent) !! small_chunk_path)))
         - 44)
      = (c', true)
    ∧ log w' = log (small_chunk E_silent)
               ++ [CallTranscribeAudio small_chunk_path; GroqRequest c';
                   Emit "s1" "error" (PString "Failed to process audio")]
    ∧ objects w' = objects (small_chunk E_silent).
Proof.
  apply (empty_transcript_is_reported_as_failure E_silent "s1" "s1" "s1" small_chunk_path
           (small_chunk E_silent)).
  - by vm_compute.
  - done.
  - by vm_compute.
  - vm_compute. lia.
  - by vm_compute.
  - reflexivity.
  - reflexivity.
Defined.

(** *** Frames the audio handler turns down *)

Lemma on_audio_live (E : Env) (socket : Socket) (msg : AudioMsg) (has_ack : bool)
    (w : World) :
  socket_id socket ∈ sessions w →
  isPaused (objects w !!! socket_id socket) = false →
  ∃ w0,
    on_audio E socket msg has_ack w
    = try_catch (on_audio_frame E (socket_id socket) (socket_id socket) msg has_ack)
        (λ error, emit (socket_id socket) "error"
                    (PError "Error in audio handler" (Some (message error)))) w0
    ∧ files w0 = files w ∧ sessions w0 = sessions w ∧ log w0 = log w
    ∧ tick w0 = S (tick w)
    ∧ (∀ k, k ≠ socket_id socket → objects w0 !!! k = objects w !!! k)
    ∧ objects w0 !!! socket_id socket
      = set_sampleRate (rate_after msg (objects w !!! socket_id socket))
          (set_lastProcessed (Date_now E (tick w)) (objects w !!! socket_id socket)).
Proof.
  intros Hlive Hpaused. unfold on_audio, on_audio_payload, fields, rate_after. mrun.
  rewrite (bool_decide_eq_true_2 _ Hlive), Hpaused.
  destruct (truthy_number (declaredRate msg)) eqn:Hdeclared; mrun.
  - eexists. split; [reflexivity|]. mrun.
    split_and!; try done.
    + intros k Hk. by rewrite !lookup_total_insert_ne.
    + by rewrite !lookup_total_insert_eq.
  - eexists. split; [reflexivity|]. mrun.
    split_and!; try done.
    + intros k Hk. by rewrite !lookup_total_insert_ne.
    + rewrite !lookup_total_insert_eq. by destruct (objects w !!! socket_id socket).
Qed.

(** What a recording session does with a payload it has no fields to read
    from: [lastProcessed] is set, then the read throws into the outer
    [catch]. *)
Lemma on_audio_null (E : Env) (socket : Socket) (has_ack : bool) (w : World) :
  socket_id socket ∈ sessions w →
  isPaused (objects w !!! socket_id socket) = false →
  ∃ details w',
    run (on_audio_payload E socket None has_ack) w = (Return (), w')
    ∧ log w' = log w ++ [Emit (socket_id socket) "error"
                           (PError "Error in audio handler" (Some details))]
    ∧ files w' = files w ∧ sessions w' = sessions w
    ∧ objects w' !!! socket_id socket
      = set_lastProcessed (Date_now E (tick w)) (objects w !!! socket_id socket).
Proof.
  intros Hlive Hpaused. unfold run, on_audio_payload, fields. mrun.
  rewrite (bool_decide_eq_true_2 _ Hlive), Hpaused. mrun.
  do 2 eexists. split; [reflexivity|]. mrun.
  split_and!; try done. by rewrite lookup_total_insert_eq.
Qed.

(** A payload that is [null] or [undefined], a frame that does not
    decode, or one that lacks the RIFF/WAVE marks, is turned down while
    the session records: the client gets one error event and no
    acknowledgement, no file changes, and the session stays; yet
    [lastProcessed] has already been set.  For a payload with fields the
    event is "Error processing audio data" with the reason, and the
    session has taken the sample rate the frame declares, if any; for
    [null] or [undefined] it is "Error in audio handler" with the text of
    the [TypeError]. *)
Theorem invalid_frame_is_rejected (E : Env) (socket : Socket)
    (payload : option AudioMsg) (has_ack : bool) (w : World) :
  socket_id socket ∈ sessions w →
  isPaused (objects w !!! socket_id socket) = false →
  match payload with Some msg => rejection E msg ≠ None | None => True end →
  ∃ w' text details,
    run (on_audio_payload E socket payload has_ack) w = (Return (), w')
    ∧ log w' = log w ++ [Emit (socket_id socket) "error"
                           (PError text (Some details))]
    ∧ files w' = files w ∧ sessions w' = sessions w
    ∧ match payload with
      | Some msg =>
          text = "Error processing audio data"
          ∧ rejection E msg = Some details
          ∧ objects w' !!! socket_id socket
            = set_sampleRate (rate_after msg (objects w !!! socket_id socket))
                (set_lastProcessed (Date_now E (tick w))
                   (objects w !!! socket_id socket))
      | None =>
          text = "Error in audio handler"
          ∧ objects w' !!! socket_id socket
            = set_lastProcessed (Date_now E (tick w))
                (objects w !!! socket_id socket)
      end.
Proof.
  intros Hlive Hpaused Hrej. destruct payload as [msg|].
  - destruct (rejection E msg) as [reason|] eqn:Hreason; [clear Hrej|done].
    destruct (on_audio_live E socket msg has_ack w Hlive Hpaused)
      as (w0 & Hrun & Hf & Hs & Hl & Ht & Hk & Ho).
    unfold rejection in Hreason. unfold run.
    change (on_audio_payload E socket (Some msg) has_ack)
      with (on_audio E socket msg has_ack).
    rewrite Hrun. unfold on_audio_frame. mrun.
    destruct (decode E msg) as [b|]; [destruct (isWav b) eqn:Hwav; [done|]|];
      simplify_eq; mrun; rewrite ?Hwav; mrun;
      (do 3 eexists; split; [reflexivity|]; mrun; by rewrite Hl).
  - destruct (on_audio_null E socket has_ack w Hlive Hpaused)
      as (details & w' & Hrun & Hlog & Hf & Hs & Ho).
    by exists w', "Error in audio handler", details.
Qed.

Lemma invalid_frame_is_rejected_witness :
  (∃ w' text details,
     run (on_audio_payload E_up client
            (Some {| data := DString "UklGRg=="; format := Some "pcm";
                     declaredRate := Some 8000 |})
            true) (connected E_up)
     = (Return (), w')
     ∧ log w' = log (connected E_up)
                ++ [Emit (socket_id client) "error" (PError text (Some details))]
     ∧ files w' = files (connected E_up) ∧ sessions w' = sessions (connected E_up)
     ∧ text = "Error processing audio data"
     ∧ rejection E_up {| data := DString "UklGRg=="; format := Some "pcm";
                         declaredRate := Some 8000 |} = Some details
     ∧ objects w' !!! socket_id client
       = set_sampleRate
           (rate_after {| data := DString "UklGRg=="; format := Some "pcm";
                          declaredRate := Some 8000 |}
              (objects (connected E_up) !!! socket_id client))
           (set_lastProcessed (Date_now E_up (tick (connected E_up)))
              (objects (connected E_up) !!! socket_id client)))
  ∧ (∃ w' text details,
       run (on_audio_payload E_up client None true) (connected E_up) = (Return (), w')
       ∧ log w' = log (connected E_up)
                  ++ [Emit (socket_id client) "error" (PError text (Some details))]
       ∧ files w' = files (connected E_up) ∧ sessions w' = sessions (connected E_up)
       ∧ text = "Error in audio handler"
       ∧ objects w' !!! socket_id client
         = set_lastProcessed (Date_now E_up (tick (connected E_up)))
             (objects (connected E_up) !!! socket_id client)).
Proof.
  split.
  - apply (invalid_frame_is_rejected E_up client
             (Some {| data := DString "UklGRg=="; format := Some "pcm";
                      declaredRate := Some 8000 |})).
    + by vm_compute.
    + by vm_compute.
    + by vm_compute.
  - apply (invalid_frame_is_rejected E_up client None).
    + by vm_compute.
    + by vm_compute.
    + exact I.
Defined.

Lemma createWavHeader_range (r : Z) :
  ¬ rate_ok r →
  createWavHeader {| Wav.sampleRate := r; channels := 1; bitDepth := 16; Wav.format := 1 |}
  = None.
Proof.
  intros Hbad. unfold createWavHeader, writeUInt32LE, writeUInt16LE, writeUIntLE.
  cbn [Wav.sampleRate channels bitDepth Wav.format].
  destruct (bool_decide (0 ≤ r < 2 ^ (8 * Z.of_nat 4))) eqn:H1.
  - apply bool_decide_eq_true_1 in H1.
    change (2 ^ (8 * Z.of_nat 4)) with (2 ^ 32) in H1.
    header_fields.
    rewrite (bool_decide_eq_false_2 (0 ≤ r * 1 * 16 ≤ _)); [done|].
    intros H2. apply Hbad. unfold rate_ok. lia.
  - header_fields. done.
Qed.

Lemma join_nonempty (dir name : string) : join dir name ≠ "".
Proof. unfold join. by destruct dir. Qed.

(** A session without temp file whose sample rate cannot be written into
    a WAV header (negative, or with a byte rate of 2^32 or more) is
    stranded by its first well-formed frame: [streamToDisk] has stored the
    new file name in the session before [createWavHeader] throws, so the
    session is left with a temp file name, no file and no write stream;
    the client gets an error event. *)
Theorem unwritable_rate_strands_the_session (E : Env) (socket : Socket)
    (msg : AudioMsg) (has_ack : bool) (w : World) :
  socket_id socket ∈ sessions w →
  isPaused (objects w !!! socket_id socket) = false →
  tempFile (objects w !!! socket_id socket) = None →
  writeStream (objects w !!! socket_id socket) = None →
  rejection E msg = None →
  ¬ rate_ok (rate_after msg (objects w !!! socket_id socket)) →
  ∃ w' reason,
    run (on_audio E socket msg has_ack) w = (Return (), w')
    ∧ log w' = log w ++ [Emit (socket_id socket) "error"
                           (PError "Error processing audio data" (Some reason))]
    ∧ files w' = files w
    ∧ stranded w' (socket_id socket).
Proof.
  intros Hlive Hpaused Htemp Hstream Hrej Hbad.
  destruct (on_audio_live E socket msg has_ack w Hlive Hpaused)
    as (w0 & Hrun & Hf & Hs & Hl & Ht & Hk & Ho).
  unfold rejection in Hrej. unfold run. rewrite Hrun.
  unfold on_audio_frame, streamToDisk. mrun.
  destruct (decode E msg) as [b|]; [|done].
  destruct (isWav b) eqn:Hwav; [|done]. mrun. rewrite ?Hwav. cbn [negb]. mrun.
  rewrite Ho. cbn [tempFile set_sampleRate set_lastProcessed]. rewrite Htemp.
  cbn [truthy_string]. mrun. rewrite lookup_total_insert_eq.
  cbn [sampleRate set_tempFile set_sampleRate]. rewrite Ho.
  cbn [sampleRate set_sampleRate set_lastProcessed]. rewrite createWavHeader_range by done.
  mrun. eexists _, _. split; [reflexivity|]. mrun. rewrite Hl, Hf.
  split_and!; [done|done|].
  unfold stranded. mrun. rewrite lookup_total_insert_eq.
  cbn [tempFile writeStream set_tempFile]. eexists.
  split_and!; [reflexivity|apply join_nonempty|].
  rewrite Ho. by cbn [writeStream set_sampleRate set_lastProcessed].
Qed.

Lemma unwritable_rate_strands_the_session_witness :
  ∃ w' reason,
    run (on_audio E_up client (frame_msg (wav_frame 16 0) (Some (-1))) true)
      (connected E_up)
    = (Return (), w')
    ∧ log w' = log (connected E_up)
               ++ [Emit (socket_id client) "error"
                     (PError "Error processing audio data" (Some reason))]
    ∧ files w' = files (connected E_up)
    ∧ stranded w' (socket_id client).
Proof.
  apply unwritable_rate_strands_the_session.
  - by vm_compute.
  - by vm_compute.
  - by vm_compute.
  - by vm_compute.
  - by vm_compute.
  - vm_compute. intros [H _]. by apply H.
Defined.

(** Once stranded, a recording session stores no audio: whatever the
    payload, the client gets one error event and no acknowledgement, no
    file changes, and the session stays stranded.  For a payload with
    fields the event is "Error processing audio data", with the reason the
    frame is turned down for or else "Write stream not initialized"; for
    [null] or [undefined] it is "Error in audio handler". *)
Theorem stranded_session_stores_nothing (E : Env) (socket : Socket)
    (payload : option AudioMsg) (has_ack : bool) (w : World) :
  socket_id socket ∈ sessions w →
  isPaused (objects w !!! socket_id socket) = false →
  stranded w (socket_id socket) →
  ∃ w' text details,
    run (on_audio_payload E socket payload has_ack) w = (Return (), w')
    ∧ log w' = log w ++ [Emit (socket_id socket) "error"
                           (PError text (Some details))]
    ∧ match payload with
      | Some msg =>
          text = "Error processing audio data"
          ∧ details = default "Write stream not initialized" (rejection E msg)
      | None => text = "Error in audio handler"
      end
    ∧ files w' = files w
    ∧ stranded w' (socket_id socket).
Proof.
  intros Hlive Hpaused (path & Htemp & Hpath & Hstream).
  destruct payload as [msg|].
  - destruct (on_audio_live E socket msg has_ack w Hlive Hpaused)
      as (w0 & Hrun & Hf & Hs & Hl & Ht & Hk & Ho).
    assert (Hstranded : stranded w0 (socket_id socket)).
    { exists path. rewrite Ho. by cbn [tempFile writeStream set_sampleRate set_lastProcessed]. }
    unfold rejection, run.
    change (on_audio_payload E socket (Some msg) has_ack)
      with (on_audio E socket msg has_ack).
    rewrite Hrun.
    unfold on_audio_frame, streamToDisk. mrun.
    destruct (decode E msg) as [b|]; [destruct (isWav b) eqn:Hwav|];
      mrun; rewrite ?Hwav; cbn [negb default from_option id]; mrun.
    + rewrite Ho. cbn [tempFile writeStream set_sampleRate set_lastProcessed].
      rewrite Htemp, (truthy_path path Hpath). mrun. rewrite Ho.
      cbn [tempFile writeStream set_sampleRate set_lastProcessed]. rewrite Hstream. mrun.
      do 3 eexists. split; [reflexivity|]. mrun. by rewrite Hl, Hf.
    + do 3 eexists. split; [reflexivity|]. mrun. by rewrite Hl, Hf.
    + do 3 eexists. split; [reflexivity|]. mrun. by rewrite Hl, Hf.
  - destruct (on_audio_null E socket has_ack w Hlive Hpaused)
      as (details & w' & Hrun & Hlog & Hf & Hs & Ho).
    exists w', "Error in audio handler", details. split_and!; try done.
    exists path. rewrite Ho. by cbn [tempFile writeStream set_lastProcessed].
Qed.

Lemma stranded_session_stores_nothing_witness :
  (∃ w' text details,
     run (on_audio_payload E_up client
            (Some (frame_msg (wav_frame 16 0) (Some 16000))) true)
       (exec (on_audio E_up client (frame_msg (wav_frame 16 0) (Some (-1))) true)
          (connected E_up))
     = (Return (), w')
     ∧ log w' = log (exec (on_audio E_up client
                             (frame_msg (wav_frame 16 0) (Some (-1))) true)
                       (connected E_up))
                ++ [Emit (socket_id client) "error" (PError text (Some details))]
     ∧ (text = "Error processing audio data"
        ∧ details = default "Write stream not initialized"
                      (rejection E_up (frame_msg (wav_frame 16 0) (Some 16000))))
     ∧ files w' = files (exec (on_audio E_up client
                                 (frame_msg (wav_frame 16 0) (Some (-1))) true)
                           (connected E_up))
     ∧ stranded w' (socket_id client))
  ∧ (∃ w' text details,
       run (on_audio_payload E_up client None true)
         (exec (on_audio E_up client (frame_msg (wav_frame 16 0) (Some (-1))) true)
            (connected E_up))
       = (Return (), w')
       ∧ log w' = log (exec (on_audio E_up client
                               (frame_msg (wav_frame 16 0) (Some (-1))) true)
                         (connected E_up))
                  ++ [Emit (socket_id client) "error" (PError text (Some details))]
       ∧ text = "Error in audio handler"
       ∧ files w' = files (exec (on_audio E_up client
                                   (frame_msg (wav_frame 16 0) (Some (-1))) true)
                             (connected E_up))
       ∧ stranded w' (socket_id client)).
Proof.
  split.
  - apply (stranded_session_stores_nothing E_up client
             (Some (frame_msg (wav_frame 16 0) (Some 16000)))).
    + by vm_compute.
    + by vm_compute.
    + exists "/srv/temp/chunk-2.wav". by vm_compute.
  - apply (stranded_session_stores_nothing E_up client None).
    + by vm_compute.
    + by vm_compute.
    + exists "/srv/temp/chunk-2.wav". by vm_compute.
Defined.

(** *** Stopping a recording *)

Lemma truthy_string_Some (o : option string) :
  truthy_string o = true → ∃ s, o = Some s ∧ s ≠ "".
Proof.
  destruct o as [s|]; [|done]. cbn [truthy_string]. intros H. exists s. split; [done|].
  intros ->. done.
Qed.

(** For a session it finds, the stop handler always answers
    [success: true] with the session's temp file, also when the final
    transcription failed (the client then gets the error event "Failed to
    process audio" before the answer).  It processes nothing when the
    session has no temp file, leaves [pendingFinalize] false, and releases
    nothing: the session stays in the map, it keeps its temp file name,
    and no file is created or removed. *)
Theorem stop_reports_success_and_keeps_the_session (E : Env) (socket : Socket)
    (sid : string) (w : World) :
  socket_sessionId socket = Some sid → sid ≠ "" → sid ∈ sessions w →
  ∃ w' evs,
    run (on_stop E socket true) w = (Return (), w')
    ∧ log w' = log w ++ evs
               ++ [Ack (socket_id socket)
                     (PResult true "Recording stopped and final chunk processed"
                        (tempFile (objects w !!! sid)) None)]
    ∧ (error_events (socket_id socket) evs = []
       ∨ error_events (socket_id socket) evs = [PString "Failed to process audio"])
    ∧ (truthy_string (tempFile (objects w !!! sid)) = false → evs = [])
    ∧ pendingFinalize (objects w' !!! sid) = false
    ∧ tempFile (objects w' !!! sid) = tempFile (objects w !!! sid)
    ∧ sessions w' = sessions w
    ∧ (∀ path, files w !! path = None → files w' !! path = None)
    ∧ (∀ path, is_Some (files w !! path) → is_Some (files w' !! path)).
Proof.
  intros Hsid Hne Hlive. unfold on_stop, run. rewrite Hsid, (truthy_path sid Hne).
  cbn [negb default from_option id]. mrun. rewrite (bool_decide_eq_true_2 _ Hlive).
  mrun. rewrite lookup_total_insert_eq. cbn [tempFile set_pendingFinalize].
  destruct (truthy_string (tempFile (objects w !!! sid))) eqn:Htruthy.
  - destruct (truthy_string_Some _ Htruthy) as (path & Htemp & Hpath).
    match goal with
    | |- context [processAudioChunk ?E ?a ?b ?c ?w0] =>
        destruct (processAudioChunk_spec E a b c path w0)
          as (w1 & evs & Hrun & Hs & Hl & Ht & Ho & Hf & He & _)
    end.
    { mrun. rewrite lookup_total_insert_eq. by cbn [tempFile set_pendingFinalize]. }
    { done. }
    rewrite Hrun. mrun. rewrite !lookup_total_insert_eq.
    cbn [tempFile pendingFinalize set_pendingFinalize].
    mrun in Hs. mrun in Hl. mrun in Ho. mrun in Hf.
    assert (Htemp1 : tempFile (objects w1 !!! sid) = tempFile (objects w !!! sid)).
    { destruct Ho as [->|[t ->]]; rewrite !lookup_total_insert_eq; done. }
    eexists _, evs. split; [reflexivity|]. mrun. rewrite !lookup_total_insert_eq.
    cbn [tempFile pendingFinalize set_pendingFinalize].
    split_and!; try done.
    + by rewrite Hl, Htemp1, <- app_assoc.
    + intros p Hp. destruct Hf as [->|(c & c' & Hc & _ & -> & _)]; [done|].
      rewrite lookup_insert_ne; [done|]. intros ->. by rewrite Hp in Hc.
    + intros p Hp. destruct Hf as [->|(c & c' & Hc & _ & -> & _)]; [done|].
      destruct (decide (path = p)) as [->|Hpp].
      * by rewrite lookup_insert_eq.
      * by rewrite lookup_insert_ne.
  - mrun. rewrite !lookup_total_insert_eq.
    cbn [tempFile pendingFinalize set_pendingFinalize].
    eexists _, []. split; [reflexivity|]. mrun. rewrite !lookup_total_insert_eq.
    cbn [tempFile pendingFinalize set_pendingFinalize].
    split_and!; try done. by left.
Qed.

Lemma stop_reports_success_and_keeps_the_session_witness :
  ∃ w' evs,
    run (on_stop E_down client_with_id true) (small_chunk E_down) = (Return (), w')
    ∧ log w' = log (small_chunk E_down) ++ evs
               ++ [Ack (socket_id client_with_id)
                     (PResult true "Recording stopped and final chunk processed"
                        (tempFile (objects (small_chunk E_down) !!! "s1")) None)]
    ∧ (error_events (socket_id client_with_id) evs = []
       ∨ error_events (socket_id client_with_id) evs = [PString "Failed to process audio"])
    ∧ (truthy_string (tempFile (objects (small_chunk E_down) !!! "s1")) = false → evs = [])
    ∧ pendingFinalize (objects w' !!! "s1") = false
    ∧ tempFile (objects w' !!! "s1") = tempFile (objects (small_chunk E_down) !!! "s1")
    ∧ sessions w' = sessions (small_chunk E_down)
    ∧ (∀ path, files (small_chunk E_down) !! path = None → files w' !! path = None)
    ∧ (∀ path, is_Some (files (small_chunk E_down) !! path) → is_Some (files w' !! path)).
Proof.
  apply stop_reports_success_and_keeps_the_session.
  - reflexivity.
  - done.
  - by vm_compute.
Defined.

(** *** The idle-session sweep *)

Lemma cleanupSession_frame (k : string) (w : World) :
  ∃ w',
    cleanupSession k k w = (Return (), w')
    ∧ sessions w' = sessions w ∖ {[k]}
    ∧ log w' = log w ∧ tick w' = tick w
    ∧ (∀ j, j ≠ k → objects w' !!! j = objects w !!! j)
    ∧ (∀ j, lastProcessed (objects w' !!! j) = lastProcessed (objects w !!! j))
    ∧ (∀ j, tempFile (objects w' !!! j) = tempFile (objects w !!! j))
    ∧ (∀ p, files w !! p = None → files w' !! p = None)
    ∧ (∀ p, tempFile (objects w !!! k) = Some p → p ≠ "" → files w' !! p = None).
Proof.
  assert (Hobj : ∀ (v : SessionData) (j : string),
             lastProcessed v = lastProcessed (objects w !!! k) →
             tempFile v = tempFile (objects w !!! k) →
             lastProcessed (<[k := v]> (objects w) !!! j) = lastProcessed (objects w !!! j)
             ∧ tempFile (<[k := v]> (objects w) !!! j) = tempFile (objects w !!! j)).
  { intros v j H1 H2. rewrite lookup_total_update. by destruct (decide (k = j)) as [<-|]. }
  unfold cleanupSession, fs_unlink, fs_stat. mrun.
  destruct (writeStream (objects w !!! k)) as [ws|] eqn:Hws; mrun;
    rewrite ?lookup_total_insert_eq; cbn [tempFile set_writeStream];
    (destruct (tempFile (objects w !!! k)) as [path|] eqn:Htemp;
     [destruct (String.eqb_spec path "") as [->|Hne];
      [|rewrite (truthy_path path Hne); cbn [default from_option id]; mrun;
        destruct (files w !! path) eqn:Hfile; mrun]|]);
    cbn [truthy_string String.eqb negb]; mrun;
    (eexists; split; [reflexivity|]; mrun;
     split_and!; try done;
     try (intros j Hj; by rewrite lookup_total_insert_ne);
     try (intros j; by apply Hobj);
     try (intros p Hp; destruct (decide (path = p)) as [->|Hpp];
          [apply lookup_delete_eq|by rewrite lookup_delete_ne]);
     try (intros p [= <-] ?; first [done | apply lookup_delete_eq])).
Qed.

Lemma sweep_spec (now : Z) (order : list string) :
  ∀ w, ∃ w',
    sweep now order w = (Return (), w')
    ∧ (∀ j, j ∈ sessions w' ↔ j ∈ sessions w ∧ ¬ (j ∈ order ∧ idle now w j))
    ∧ log w' = log w ∧ tick w' = tick w
    ∧ (∀ j, ¬ (j ∈ order ∧ idle now w j) → objects w' !!! j = objects w !!! j)
    ∧ (∀ j, lastProcessed (objects w' !!! j) = lastProcessed (objects w !!! j))
    ∧ (∀ j, tempFile (objects w' !!! j) = tempFile (objects w !!! j))
    ∧ (∀ p, files w !! p = None → files w' !! p = None)
    ∧ (∀ j p, j ∈ order → idle now w j → tempFile (objects w !!! j) = Some p →
              p ≠ "" → files w' !! p = None).
Proof.
  induction order as [|k order IH]; intros w.
  - exists w. cbn [sweep]. split_and!; try done.
    + intros j. split; [intros H; split; [done|]; by intros [?%elem_of_nil _]|by intros [? _]].
    + by intros j p ?%elem_of_nil.
  - cbn [sweep]. rewrite run_bind. unfold read at 1. cbn beta iota.
    rewrite run_bind.
    assert (Hidle : ∀ w1 : World,
               (∀ j, lastProcessed (objects w1 !!! j) = lastProcessed (objects w !!! j)) →
               ∀ j, idle now w1 j ↔ idle now w j).
    { intros w1 H j. unfold idle. by rewrite H. }
    case_bool_decide as Hk.
    + destruct (cleanupSession_frame k w)
        as (w1 & -> & Hs1 & Hl1 & Ht1 & Ho1 & Hlp1 & Htf1 & Hf1 & Hd1).
      destruct (IH w1) as (w2 & -> & Hs2 & Hl2 & Ht2 & Ho2 & Hlp2 & Htf2 & Hf2 & Hd2).
      exists w2. split_and!; try done.
      * intros j. rewrite Hs2, Hs1, elem_of_difference, elem_of_singleton, elem_of_cons.
        rewrite (Hidle w1 Hlp1 j). split.
        -- intros [[Hj Hjk] Hno]. split; [done|]. intros [[->|Hin] Hid]; [done|].
           apply Hno. by split.
        -- intros [Hj Hno]. split; [split; [done|]|].
           ++ intros ->. apply Hno. split; [by left|done].
           ++ intros [Hin Hid]. apply Hno. split; [by right|done].
      * congruence.
      * congruence.
      * intros j Hno. rewrite Ho2, Ho1; [done| |].
        -- intros ->. apply Hno. split; [by apply elem_of_cons; left|done].
        -- intros [Hin Hid]. apply Hno. split; [by apply elem_of_cons; right|].
           by apply (Hidle w1 Hlp1 j).
      * intros j. by rewrite Hlp2, Hlp1.
      * intros j. by rewrite Htf2, Htf1.
      * intros p Hp. by apply Hf2, Hf1.
      * intros j p [->|Hin]%elem_of_cons Hid Htemp Hp.
        -- apply Hf2. by apply Hd1.
        -- apply (Hd2 j p Hin); [by apply (Hidle w1 Hlp1 j)|by rewrite Htf1|done].
    + mrun.
      destruct (IH w) as (w2 & -> & Hs2 & Hl2 & Ht2 & Ho2 & Hlp2 & Htf2 & Hf2 & Hd2).
      exists w2. split_and!; try done.
      * intros j. rewrite Hs2, elem_of_cons. split.
        -- intros [Hj Hno]. split; [done|]. intros [[->|Hin] Hid]; [done|].
           apply Hno. by split.
        -- intros [Hj Hno]. split; [done|]. intros [Hin Hid]. apply Hno.
           split; [by right|done].
      * intros j Hno. apply Ho2. intros [Hin Hid]. apply Hno.
        split; [by apply elem_of_cons; right|done].
      * intros j p [->|Hin]%elem_of_cons Hid Htemp Hp; [done|].
        by apply (Hd2 j p).
Qed.

(** One run of the sweep removes exactly the sessions whose last activity
    is more than [SESSION_TIMEOUT] (five minutes) before the sweep's clock
    reading: those are gone from the session map and their temp files are
    unlinked, the others stay with their objects untouched.  Nothing is
    transcribed and nothing is sent to a client: the chunk of a swept
    session is dropped silently. *)
Theorem sweep_removes_exactly_the_idle_sessions (E : Env) (order : list string)
    (w : World) :
  enumerates order w →
  ∃ w',
    run (reap E order) w = (Return (), w')
    ∧ (∀ k, k ∈ sessions w' ↔ k ∈ sessions w ∧ ¬ idle (Date_now E (tick w)) w k)
    ∧ (∀ k, k ∈ sessions w' → objects w' !!! k = objects w !!! k)
    ∧ (∀ k path, k ∈ sessions w → idle (Date_now E (tick w)) w k →
                 tempFile (objects w !!! k) = Some path → path ≠ "" →
                 files w' !! path = None)
    ∧ log w' = log w.
Proof.
  intros [_ Horder]. unfold reap, run. mrun.
  destruct (sweep_spec (Date_now E (tick w)) order (set_tick S w))
    as (w' & -> & Hs & Hl & Ht & Ho & Hlp & Htf & Hf & Hd).
  exists w'. split_and!; [done|..|done].
  - intros k. rewrite Hs. cbn [sessions set_tick]. split.
    + intros [Hk Hno]. split; [done|]. intros Hid. apply Hno. split; [|done].
      by apply Horder.
    + intros [Hk Hno]. split; [done|]. by intros [_ Hid].
  - intros k Hk. apply Hs in Hk as [_ Hno]. by apply Ho.
  - intros k path Hk Hid Htemp Hpath. apply (Hd k path); [by apply Horder|done..].
Qed.

Lemma sweep_removes_exactly_the_idle_sessions_witness :
  ∃ w',
    run (reap E_slow ["s1"]) (connected E_slow) = (Return (), w')
    ∧ (∀ k, k ∈ sessions w' ↔ k ∈ sessions (connected E_slow)
                               ∧ ¬ idle (Date_now E_slow (tick (connected E_slow)))
                                     (connected E_slow) k)
    ∧ (∀ k, k ∈ sessions w' → objects w' !!! k = objects (connected E_slow) !!! k)
    ∧ (∀ k path, k ∈ sessions (connected E_slow) →
                 idle (Date_now E_slow (tick (connected E_slow))) (connected E_slow) k →
                 tempFile (objects (connected E_slow) !!! k) = Some path → path ≠ "" →
                 files w' !! path = None)
    ∧ log w' = log (connected E_slow).
Proof.
  apply sweep_removes_exactly_the_idle_sessions. split.
  - apply NoDup_singleton.
  - intros k. unfold connected, exec, on_connection. mrun. cbn [socket_id client].
    rewrite list_elem_of_singleton, elem_of_union, elem_of_singleton.
    split; [by left|by intros [?|?%elem_of_empty]].
Defined.

(** After the sweep has removed a session, the audio handler ignores
    every frame of its socket: no acknowledgement, no error event, nothing
    stored.  The session is not created again. *)
Theorem reaped_session_ignores_frames (E : Env) (order : list string)
    (socket : Socket) (msg : AudioMsg) (has_ack : bool) (w : World) :
  enumerates order w →
  idle (Date_now E (tick w)) w (socket_id socket) →
  run (on_audio E socket msg has_ack) (exec (reap E order) w)
  = (Return (), exec (reap E order) w).
Proof.
  intros [_ Horder] Hidle. unfold reap, exec at 1 2. mrun.
  destruct (sweep_spec (Date_now E (tick w)) order (set_tick S w))
    as (w' & -> & Hs & _).
  cbn [snd]. unfold on_audio, on_audio_payload, fields, run. mrun.
  rewrite bool_decide_eq_false_2; [done|].
  intros [Hk Hno]%Hs. apply Hno. split; [by apply Horder|done].
Qed.

Lemma reaped_session_ignores_frames_witness :
  run (on_audio E_slow client (frame_msg (wav_frame 16 0) None) true)
    (exec (reap E_slow ["s1"]) (connected E_slow))
  = (Return (), exec (reap E_slow ["s1"]) (connected E_slow)).
Proof.
  apply reaped_session_ignores_frames.
  - split.
    + apply NoDup_singleton.
    + intros k. unfold connected, exec, on_connection. mrun. cbn [socket_id client].
      rewrite list_elem_of_singleton, elem_of_union, elem_of_singleton.
      split; [by left|by intros [?|?%elem_of_empty]].
  - vm_compute. reflexivity.
Defined.

(** *** An invariant of the stored audio *)

Lemma same_storage (sid : string) (w w' : World) :
  tempFile (objects w' !!! sid) = tempFile (objects w !!! sid) →
  writeStream (objects w' !!! sid) = writeStream (objects w !!! sid) →
  sampleRate (objects w' !!! sid) = sampleRate (objects w !!! sid)
  ∨ rate_ok (sampleRate (objects w' !!! sid)) →
  files w' = files w → sessions w' = sessions w →
  sid ∈ sessions w → storage_ok w sid →
  sid ∈ sessions w' ∧ storage_ok w' sid
  ∧ chunk_data w sid `prefix_of` chunk_data w' sid.
Proof.
  intros Ht Hws [Hr|Hr] Hf Hs Hlive Hok.
  - destruct (storage_fields sid w w' Ht Hws Hr Hf) as [H1 H2].
    rewrite Hs, H2. auto.
  - destruct (storage_rate sid w w' Ht Hws Hr Hf) as [H1 H2].
    rewrite Hs, H2. auto.
Qed.

Lemma on_stop_run (E : Env) (socket : Socket) (sid : string) (cb : bool) (w : World) :
  socket_sessionId socket = Some sid → sid ≠ "" → sid ∈ sessions w →
  let w1 := set_objects (λ o, <[sid := set_pendingFinalize true (o !!! sid)]> o) w in
  let w2 := if truthy_string (tempFile (objects w !!! sid))
            then exec (processAudioChunk E (socket_id socket) sid sid) w1 else w1 in
  let w3 := set_objects (λ o, <[sid := set_pendingFinalize false (o !!! sid)]> o) w2 in
  run (on_stop E socket cb) w
  = (Return (),
     exec (ack cb (socket_id socket)
             (PResult true "Recording stopped and final chunk processed"
                (tempFile (objects w3 !!! sid)) None)) w3).
Proof.
  intros Hsid Hne Hlive. cbv zeta. unfold on_stop, run.
  rewrite Hsid, (truthy_path sid Hne). cbn [negb default from_option id].
  destruct cb; mrun; rewrite (bool_decide_eq_true_2 _ Hlive); mrun;
    rewrite lookup_total_insert_eq; cbn [tempFile set_pendingFinalize];
    (destruct (truthy_string (tempFile (objects w !!! sid))) eqn:Htruthy;
     [destruct (truthy_string_Some _ Htruthy) as (path & Htemp & Hpath);
      destruct (processAudioChunk_spec E (socket_id socket) sid sid path
                  (set_objects (λ o, <[sid := set_pendingFinalize true (o !!! sid)]> o) w))
        as (w' & evs & Hrun & _);
      [mrun; rewrite lookup_total_insert_eq; by cbn [tempFile set_pendingFinalize]|done|];
      rewrite Hrun; mrun; reflexivity
     |mrun; reflexivity]).
Qed.

Ltac same_storage_from w0 :=
  match goal with
  | |- _ ∧ storage_ok ?w' ?sid ∧ _ => apply (same_storage sid w0 w')
  end.

Lemma handle_keeps_storage (E : Env) (socket : Socket) (ev : ClientEvent) (w : World) :
  (∀ id, socket_sessionId socket = Some id → id = socket_id socket) →
  socket_id socket ∈ sessions w → storage_ok w (socket_id socket) → rates_fit ev →
  socket_id socket ∈ sessions (exec (handle E socket ev) w)
  ∧ storage_ok (exec (handle E socket ev) w) (socket_id socket)
  ∧ chunk_data w (socket_id socket)
    `prefix_of` chunk_data (exec (handle E socket ev) w) (socket_id socket).
Proof.
  intros Hid Hlive Hok Hfit.
  assert (Hquiet : ∀ b p, socket_id socket
                          ∈ sessions (exec (ack b (socket_id socket) p) w)
            ∧ storage_ok (exec (ack b (socket_id socket) p) w) (socket_id socket)
            ∧ chunk_data w (socket_id socket)
              `prefix_of` chunk_data (exec (ack b (socket_id socket) p) w)
                            (socket_id socket)).
  { intros b p. same_storage_from w; try done; destruct b; mrun; auto. }
  assert (Hsid : truthy_string (socket_sessionId socket) = true →
                 socket_sessionId socket = Some (socket_id socket)
                 ∧ socket_id socket ≠ "").
  { intros Htr. destruct (truthy_string_Some _ Htr) as (s & Hs & Hne).
    pose proof (Hid s Hs) as ->. done. }
  destruct ev as [data cb|[msg|] has_ack| |cb|cb|cb]; cbn [handle].
  - (* init *)
    unfold on_init. destruct data as [data|].
    + cbn [rates_fit] in Hfit.
      destruct (truthy_number (init_sampleRate data)) eqn:Hrate; mrun.
      * same_storage_from w; try done; destruct cb; mrun;
          rewrite ?lookup_total_insert_eq; cbn [tempFile writeStream sampleRate set_sampleRate];
          auto; right; by apply Hfit.
      * same_storage_from w; try done; destruct cb; mrun; auto.
    + mrun. same_storage_from w; try done; mrun; auto.
  - (* audio *)
    cbn [rates_fit] in Hfit.
    change (on_audio_payload E socket (Some msg) has_ack)
      with (on_audio E socket msg has_ack).
    destruct (isPaused (objects w !!! socket_id socket)) eqn:Hpaused.
    + destruct (on_audio_paused E socket msg has_ack w Hlive Hpaused)
        as (w' & Hrun & _ & _ & Hs & Hd & Hok').
      unfold exec. rewrite Hrun. cbn [snd]. rewrite Hs, Hd. auto.
    + destruct (on_audio_live E socket msg has_ack w Hlive Hpaused)
        as (w0 & Hrun & Hf & Hs & Hl & Ht & Hk & Ho).
      assert (H0 : socket_id socket ∈ sessions w0 ∧ storage_ok w0 (socket_id socket)
                   ∧ chunk_data w (socket_id socket)
                     `prefix_of` chunk_data w0 (socket_id socket)).
      { same_storage_from w; try done; rewrite Ho;
          cbn [tempFile writeStream sampleRate set_sampleRate set_lastProcessed]; try done.
        unfold rate_after. destruct (truthy_number (declaredRate msg)); [right; by apply Hfit|by left]. }
      destruct H0 as (Hlive0 & Hok0 & Hpre0).
      unfold exec. rewrite Hrun, run_try_catch.
      destruct (decode E msg) as [f|] eqn:Hdec; [destruct (isWav f) eqn:Hwav|].
      * destruct (on_audio_frame_spec E (socket_id socket) (socket_id socket) msg has_ack
                    w0 f Hok0 Hdec Hwav) as (w' & -> & Hok' & Hd' & (_ & _ & Hs') & _).
        cbn [snd]. rewrite Hs', Hd'. split_and!; [done|done|].
        etrans; [exact Hpre0|]. by apply prefix_app_r.
      * unfold on_audio_frame. mrun. rewrite Hdec. mrun. rewrite Hwav. mrun. done.
      * unfold on_audio_frame. mrun. rewrite Hdec. mrun. done.
  - (* audio, the payload being null or undefined *)
    unfold on_audio_payload, fields. mrun. rewrite (bool_decide_eq_true_2 _ Hlive).
    destruct (isPaused (objects w !!! socket_id socket)); mrun;
      same_storage_from w; try done; mrun;
      rewrite ?lookup_total_insert_eq;
      cbn [tempFile writeStream sampleRate set_lastProcessed]; auto.
  - (* process-audio *)
    unfold on_process_audio, exec. mrun. rewrite (bool_decide_eq_true_2 _ Hlive). mrun.
    case_bool_decide; [|done].
    destruct (tempFile (objects w !!! socket_id socket)) as [path|] eqn:Htemp.
    + destruct (processAudioChunk_keeps_chunk E (socket_id socket) (socket_id socket)
                  (socket_id socket) w Hok) as (w2 & Hrun & Happ & _); [by rewrite Htemp|].
      rewrite Hrun. cbn [snd].
      destruct Happ as (Hok2 & Hd2 & (_ & _ & Hs2) & _). rewrite app_nil_r in Hd2.
      by rewrite Hs2, Hd2.
    + unfold processAudioChunk. mrun. rewrite Htemp. cbn [truthy_string negb]. done.
  - (* pause *)
    unfold on_pause.
    destruct (truthy_string (socket_sessionId socket)) eqn:Htruthy; cbn [negb];
      [|apply Hquiet].
    destruct (Hsid eq_refl) as [-> Hne]. cbn [default from_option id]. mrun.
    rewrite (bool_decide_eq_true_2 _ Hlive). mrun.
    same_storage_from w; try done; destruct cb; mrun;
      rewrite ?lookup_total_insert_eq; cbn [tempFile writeStream sampleRate set_isPaused];
      auto.
  - (* resume *)
    destruct (truthy_string (socket_sessionId socket)) eqn:Htruthy.
    + destruct (Hsid eq_refl) as [Hs Hne].
      destruct (on_resume_spec E socket (socket_id socket) cb w Hs (truthy_path _ Hne)
                  Hlive Hok) as (w' & Hrun & Hok' & Hd' & _ & _ & Hs').
      unfold exec. rewrite Hrun. cbn [snd]. rewrite Hs', Hd'.
      split_and!; [done|done|]. by apply prefix_app_r.
    + unfold on_resume. rewrite Htruthy. cbn [negb]. apply Hquiet.
  - (* stop *)
    destruct (truthy_string (socket_sessionId socket)) eqn:Htruthy;
      [|unfold on_stop; rewrite Htruthy; apply Hquiet].
    destruct (Hsid eq_refl) as [Hs Hne].
    pose proof (on_stop_run E socket (socket_id socket) cb w Hs Hne Hlive) as Hstop.
    cbv zeta in Hstop. unfold run in Hstop.
    unfold exec at 1 2 3. rewrite Hstop. cbn [snd].
    set (w1 := set_objects (λ o, <[socket_id socket :=
                                     set_pendingFinalize true (o !!! socket_id socket)]> o) w).
    assert (socket_id socket ∈ sessions w1 ∧ storage_ok w1 (socket_id socket)
            ∧ chunk_data w (socket_id socket) `prefix_of` chunk_data w1 (socket_id socket))
      as (Hlive1 & Hok1 & Hpre1).
    { apply same_storage; try done; unfold w1; mrun; rewrite ?lookup_total_insert_eq;
        cbn [tempFile writeStream sampleRate set_pendingFinalize]; auto. }
    assert (H2 : ∃ w2, (if truthy_string (tempFile (objects w !!! socket_id socket))
                        then exec (processAudioChunk E (socket_id socket) (socket_id socket)
                                     (socket_id socket)) w1
                        else w1) = w2
                       ∧ socket_id socket ∈ sessions w2
                       ∧ storage_ok w2 (socket_id socket)
                       ∧ chunk_data w (socket_id socket)
                         `prefix_of` chunk_data w2 (socket_id socket)).
    { destruct (truthy_string (tempFile (objects w !!! socket_id socket))) eqn:Htemp;
        [|by exists w1].
      destruct (truthy_string_Some _ Htemp) as (path & Hpath & _).
      destruct (processAudioChunk_keeps_chunk E (socket_id socket) (socket_id socket)
                  (socket_id socket) w1 Hok1) as (w2 & Hrun & Happ & _).
      { unfold w1. mrun. rewrite lookup_total_insert_eq.
        cbn [tempFile set_pendingFinalize]. by rewrite Hpath. }
      exists w2. unfold exec. rewrite Hrun. cbn [snd].
      destruct Happ as (Hok2 & Hd2 & (_ & _ & Hs2) & _). rewrite app_nil_r in Hd2.
      split_and!; [done|by rewrite Hs2|done|by rewrite Hd2]. }
    destruct H2 as (w2 & -> & Hlive2 & Hok2 & Hpre2).
    match goal with
    | |- _ ∧ storage_ok ?w3 _ ∧ _ =>
        assert (socket_id socket ∈ sessions w3 ∧ storage_ok w3 (socket_id socket)
                ∧ chunk_data w2 (socket_id socket)
                  `prefix_of` chunk_data w3 (socket_id socket))
          as (H1 & H2 & H3)
    end.
    { apply same_storage; try done; destruct cb; mrun; rewrite ?lookup_total_insert_eq;
        cbn [tempFile writeStream sampleRate set_pendingFinalize]; auto. }
    split_and!; [done|done|]. by etrans.
Qed.

(** Stored audio is append-only.  Take a socket whose [sessionId]
    property, if set, is its own id, a session that can take a frame, and
    any sequence of [init], [audio], [process-audio], [pause-recording],
    [resume-recording] and [stop-recording] events whose declared sample
    rates fit a WAV header.  After the sequence the session is still in the
    session map, it can still take a frame, and the chunk data it had at
    the start is a prefix of its chunk data: no handler but the disconnect
    handler removes, reorders or rewrites stored audio bytes. *)
Theorem stored_audio_is_append_only (E : Env) (socket : Socket)
    (evs : list ClientEvent) (w : World) :
  (∀ id, socket_sessionId socket = Some id → id = socket_id socket) →
  socket_id socket ∈ sessions w → storage_ok w (socket_id socket) →
  Forall rates_fit evs →
  socket_id socket ∈ sessions (handle_all E socket evs w)
  ∧ storage_ok (handle_all E socket evs w) (socket_id socket)
  ∧ chunk_data w (socket_id socket)
    `prefix_of` chunk_data (handle_all E socket evs w) (socket_id socket).
Proof.
  intros Hid Hlive Hok Hfit. revert w Hlive Hok.
  induction Hfit as [|ev evs Hev _ IH]; intros w Hlive Hok.
  - by cbn.
  - cbn [handle_all foldl].
    destruct (handle_keeps_storage E socket ev w Hid Hlive Hok Hev) as (H1 & H2 & H3).
    destruct (IH _ H1 H2) as (H4 & H5 & H6).
    split_and!; [done|done|]. by etrans.
Qed.

Lemma stored_audio_is_append_only_witness :
  socket_id client_with_id
  ∈ sessions (handle_all E_up client_with_id
                [Audio (Some (frame_msg (wav_frame 16 0) (Some 8000))) true; Process; Pause true;
                 Audio (Some (frame_msg (wav_frame 16 1) None)) true; Resume true; Stop true]
                (connected E_up))
  ∧ storage_ok (handle_all E_up client_with_id
                  [Audio (Some (frame_msg (wav_frame 16 0) (Some 8000))) true; Process; Pause true;
                   Audio (Some (frame_msg (wav_frame 16 1) None)) true; Resume true; Stop true]
                  (connected E_up)) (socket_id client_with_id)
  ∧ chunk_data (connected E_up) (socket_id client_with_id)
    `prefix_of` chunk_data
                  (handle_all E_up client_with_id
                     [Audio (Some (frame_msg (wav_frame 16 0) (Some 8000))) true; Process; Pause true;
                      Audio (Some (frame_msg (wav_frame 16 1) None)) true; Resume true; Stop true]
                     (connected E_up)) (socket_id client_with_id).
Proof.
  apply stored_audio_is_append_only.
  - by intros id [= <-].
  - by vm_compute.
  - unfold storage_ok, rate_ok. vm_compute. split_and!; [by intros ?|done|done].
  - repeat apply Forall_cons_2; [..|apply Forall_nil_2];
      first [exact I | by intros [=] | (intros _; cbn [frame_msg declaredRate default from_option id]; lia)].
Defined.

(** *** The WAV header and the frames behind it *)

Lemma le_value_le_bytes_2 (v : Z) :
  0 ≤ v < 2 ^ 16 → le_value (le_bytes 2 v) = v.
Proof.
  intros Hv. unfold le_bytes. cbn [seq fmap list_fmap le_value].
  change 255 with (Z.ones 8).
  rewrite !Z.land_ones, !Z.shiftr_div_pow2 by lia.
  change (2 ^ (8 * Z.of_nat 0)) with 1.
  change (2 ^ (8 * Z.of_nat 1)) with 256.
  change (2 ^ 8) with 256.
  rewrite Z.div_1_r.
  set (q1 := v / 256).
  pose proof (Z.div_mod v 256 ltac:(lia)) as H0.
  assert (0 ≤ q1 < 256) as H1.
  { subst q1. split.
    - apply Z.div_pos; lia.
    - apply Z.div_lt_upper_bound; lia. }
  rewrite (Z.mod_small q1 256) by lia.
  fold q1 in H0. lia.
Qed.

(** For options whose fields fit their header fields, and whose byte rate
    and block align, fractions included, are at most 2^32 - 1 and 2^16 - 1,
    [createWavHeader] returns 44 bytes from which every field reads back:
    the marks "RIFF", "WAVE", "fmt " and "data", 36 as RIFF size, 16 as
    format chunk size, the format, the channels, the sample rate, the
    integer part of the byte rate and of the block align, the bit depth
    and 0 as data size. *)
Theorem header_fields_read_back (o : WavOptions) :
  0 ≤ Wav.format o < 2 ^ 16 → 0 ≤ channels o < 2 ^ 16 → 0 ≤ bitDepth o < 2 ^ 16 →
  0 ≤ Wav.sampleRate o < 2 ^ 32 →
  Wav.sampleRate o * channels o * bitDepth o ≤ 8 * (2 ^ 32 - 1) →
  channels o * bitDepth o ≤ 8 * (2 ^ 16 - 1) →
  ∃ header,
    createWavHeader o = Some header
    ∧ length header = 44%nat
    ∧ ascii_at 0 4 header "RIFF" = true
    ∧ readUInt32LE 4 header = Some 36
    ∧ ascii_at 8 12 header "WAVE" = true
    ∧ ascii_at 12 16 header "fmt " = true
    ∧ readUInt32LE 16 header = Some 16
    ∧ readUInt16LE 20 header = Some (Wav.format o)
    ∧ readUInt16LE 22 header = Some (channels o)
    ∧ readUInt32LE 24 header = Some (Wav.sampleRate o)
    ∧ readUInt32LE 28 header = Some (Wav.sampleRate o * channels o * bitDepth o / 8)
    ∧ readUInt16LE 32 header = Some (channels o * bitDepth o / 8)
    ∧ readUInt16LE 34 header = Some (bitDepth o)
    ∧ ascii_at 36 40 header "data" = true
    ∧ readUInt32LE 40 header = Some 0.
Proof.
  intros Hformat Hchannels Hbits Hrate Hbyte Hblock.
  assert (Hp : 0 ≤ Wav.sampleRate o * channels o * bitDepth o) by nia.
  assert (Hq : 0 ≤ channels o * bitDepth o) by nia.
  assert (Hbr : 0 ≤ Wav.sampleRate o * channels o * bitDepth o / 8 < 2 ^ 32).
  { split; [by apply Z.div_pos|]. apply Z.div_lt_upper_bound; lia. }
  assert (Hba : 0 ≤ channels o * bitDepth o / 8 < 2 ^ 16).
  { split; [by apply Z.div_pos|]. apply Z.div_lt_upper_bound; lia. }
  unfold createWavHeader, writeUInt32LE, writeUInt16LE, writeUIntLE.
  header_fields.
  eexists. split; [reflexivity|].
  pose proof (le_value_le_bytes_2 (Wav.format o) Hformat) as E1.
  pose proof (le_value_le_bytes_2 (channels o) Hchannels) as E2.
  pose proof (le_value_le_bytes_4 (Wav.sampleRate o) Hrate) as E3.
  pose proof (le_value_le_bytes_4 _ Hbr) as E4.
  pose proof (le_value_le_bytes_2 _ Hba) as E5.
  pose proof (le_value_le_bytes_2 (bitDepth o) Hbits) as E6.
  unfold le_bytes in *. cbn [seq fmap list_fmap] in *.
  unfold readUInt32LE, readUInt16LE, ascii_at.
  cbn [replicate blit length Nat.add Nat.sub take drop app insert list_insert
       String.list_ascii_of_string fmap list_fmap write ascii_codes alloc].
  rewrite !(bool_decide_eq_true_2 (_ ≤ _)%nat) by (cbn [length]; lia).
  split_and!; try (f_equal; assumption); try reflexivity; try (by vm_compute).
Qed.

Lemma header_fields_read_back_witness :
  ∃ header,
    createWavHeader speech_options = Some header
    ∧ length header = 44%nat
    ∧ ascii_at 0 4 header "RIFF" = true
    ∧ readUInt32LE 4 header = Some 36
    ∧ ascii_at 8 12 header "WAVE" = true
    ∧ ascii_at 12 16 header "fmt " = true
    ∧ readUInt32LE 16 header = Some 16
    ∧ readUInt16LE 20 header = Some (Wav.format speech_options)
    ∧ readUInt16LE 22 header = Some (channels speech_options)
    ∧ readUInt32LE 24 header = Some (Wav.sampleRate speech_options)
    ∧ readUInt32LE 28 header
      = Some (Wav.sampleRate speech_options * channels speech_options
              * bitDepth speech_options / 8)
    ∧ readUInt16LE 32 header
      = Some (channels speech_options * bitDepth speech_options / 8)
    ∧ readUInt16LE 34 header = Some (bitDepth speech_options)
    ∧ ascii_at 36 40 header "data" = true
    ∧ readUInt32LE 40 header = Some 0.
Proof.
  apply header_fields_read_back; vm_compute; first [done | split; [by intros ?|done] | by intros ?].
Defined.

(** A byte rate above 2^32 - 1 is turned down also when its integer part
    fits: with every field in range, [createWavHeader] throws. *)
Lemma createWavHeader_byteRate_range (o : WavOptions) :
  0 ≤ Wav.format o < 2 ^ 16 → 0 ≤ channels o < 2 ^ 16 →
  0 ≤ Wav.sampleRate o < 2 ^ 32 →
  8 * (2 ^ 32 - 1) < Wav.sampleRate o * channels o * bitDepth o →
  createWavHeader o = None.
Proof.
  intros Hformat Hchannels Hrate Hbyte.
  unfold createWavHeader, writeUInt32LE, writeUInt16LE, writeUIntLE.
  header_fields.
  rewrite (bool_decide_eq_false_2 (0 ≤ _ ≤ _)) by lia. done.
Qed.

Example fractional_byteRate_out_of_range :
  createWavHeader {| Wav.sampleRate := 3817748707; channels := 1; bitDepth := 9;
                     Wav.format := 1 |} = None.
Proof. by apply createWavHeader_byteRate_range. Qed.

Lemma ascii_at_app (l f : list Z) (a b : nat) (s : string) :
  ascii_at (length l + a) (length l + b) (l ++ f) s = ascii_at a b f s.
Proof.
  unfold ascii_at. rewrite drop_app_add.
  by replace (length l + b - (length l + a))%nat with (b - a)%nat by lia.
Qed.

(** An accepted frame is appended whole.  The audio handler only accepts
    frames that start with their own RIFF/WAVE header, and it does not
    strip that header: where the frame was appended, the data section of
    the session's temp file holds the bytes "RIFF" and, eight bytes on,
    "WAVE". *)
Theorem frame_headers_are_stored_as_audio (E : Env) (socket : Socket)
    (msg : AudioMsg) (has_ack : bool) (w : World) (f : Buffer) :
  socket_id socket ∈ sessions w →
  isPaused (objects w !!! socket_id socket) = false →
  storage_ok w (socket_id socket) →
  decode E msg = Some f → isWav f = true →
  (truthy_number (declaredRate msg) = true → rate_ok (default 0 (declaredRate msg))) →
  chunk_data (exec (on_audio E socket msg has_ack) w) (socket_id socket)
  = chunk_data w (socket_id socket) ++ f
  ∧ ascii_at (length (chunk_data w (socket_id socket)) + 0)
      (length (chunk_data w (socket_id socket)) + 4)
      (chunk_data (exec (on_audio E socket msg has_ack) w) (socket_id socket)) "RIFF"
    = true
  ∧ ascii_at (length (chunk_data w (socket_id socket)) + 8)
      (length (chunk_data w (socket_id socket)) + 12)
      (chunk_data (exec (on_audio E socket msg has_ack) w) (socket_id socket)) "WAVE"
    = true.
Proof.
  intros Hlive Hpaused Hok Hdec Hwav Hrate.
  rewrite (on_audio_recording E socket msg has_ack w f) by done.
  rewrite !ascii_at_app. unfold isWav in Hwav.
  apply andb_prop in Hwav as [[_ H1]%andb_prop H2]. done.
Qed.

Lemma frame_headers_are_stored_as_audio_witness :
  chunk_data (exec (on_audio E_up client (frame_msg (wav_frame 16 0) None) true)
                (connected E_up)) (socket_id client)
  = chunk_data (connected E_up) (socket_id client) ++ from_array (wav_frame 16 0)
  ∧ ascii_at (length (chunk_data (connected E_up) (socket_id client)) + 0)
      (length (chunk_data (connected E_up) (socket_id client)) + 4)
      (chunk_data (exec (on_audio E_up client (frame_msg (wav_frame 16 0) None) true)
                     (connected E_up)) (socket_id client)) "RIFF"
    = true
  ∧ ascii_at (length (chunk_data (connected E_up) (socket_id client)) + 8)
      (length (chunk_data (connected E_up) (socket_id client)) + 12)
      (chunk_data (exec (on_audio E_up client (frame_msg (wav_frame 16 0) None) true)
                     (connected E_up)) (socket_id client)) "WAVE"
    = true.
Proof.
  apply frame_headers_are_stored_as_audio.
  - by vm_compute.
  - by vm_compute.
  - unfold storage_ok, rate_ok. vm_compute. split_and!; [by intros ?|done|done].
  - reflexivity.
  - by vm_compute.
  - by intros [=].
Defined.

(** *** The explicit processing request *)

#[global] Instance same_chunks_preorder : PreOrder same_chunks.
Proof.
  split.
  - intros w k. reflexivity.
  - intros w1 w2 w3 H12 H23 k. rewrite H23. apply H12.
Qed.

Lemma chunks_modify (f : World → World) :
  (∀ w, objects (f w) = objects w) → preserves same_chunks (modify f).
Proof. intros Hf w k. mrun. by rewrite Hf. Qed.

Lemma chunks_update (session : string) (f : SessionData → SessionData) :
  (∀ s, audioChunks (f s) = audioChunks s) → preserves same_chunks (update session f).
Proof.
  intros Hf w k. mrun. rewrite lookup_total_update. case_decide; subst; auto.
Qed.

Lemma chunks_ask {A} (oracle : nat → A) : preserves same_chunks (ask oracle).
Proof. intros w k. reflexivity. Qed.

Lemma chunks_get_world : preserves same_chunks get_world.
Proof. intros w k. reflexivity. Qed.

Lemma chunks_read (session : string) : preserves same_chunks (read session).
Proof. intros w k. reflexivity. Qed.

Lemma chunks_sessions_get (id : string) : preserves same_chunks (sessions_get id).
Proof. intros w k. reflexivity. Qed.

Lemma chunks_emit (socket event : string) (p : Payload) :
  preserves same_chunks (emit socket event p).
Proof. intros w k. reflexivity. Qed.

Lemma chunks_ack (has_callback : bool) (socket : string) (p : Payload) :
  preserves same_chunks (ack has_callback socket p).
Proof. intros w k. by destruct has_callback. Qed.

Lemma chunks_record (e : Event) : preserves same_chunks (record e).
Proof. intros w k. reflexivity. Qed.

Create HintDb chunks discriminated.
#[global] Hint Resolve chunks_ask chunks_get_world chunks_read chunks_sessions_get
  chunks_emit chunks_ack chunks_record : chunks.

(** One step of a proof that an operation leaves [audioChunks] alone. *)
Ltac chunks_step :=
  lazymatch goal with
  | |- preserves _ (ret _) => apply preserves_ret; apply _
  | |- preserves _ (throw _) => apply preserves_throw; apply _
  | |- preserves _ (mbind _ _) => apply preserves_bind; [apply _| |intros ?]
  | |- preserves _ (try_catch _ _) => apply preserves_try_catch; [apply _| |intros ?]
  | |- preserves _ (finally _ _) => apply preserves_finally; [apply _| |]
  | |- preserves _ (modify _) => apply chunks_modify; intros ?; reflexivity
  | |- preserves _ (update _ _) => apply chunks_update; intros ?; reflexivity
  | |- preserves _ (match ?x with _ => _ end) => destruct x
  | |- preserves _ _ => solve [eauto with chunks]
  end.

Ltac chunks := repeat chunks_step.

Lemma chunks_fs_stat (o : Origin) (path : string) : preserves same_chunks (fs_stat o path).
Proof. unfold fs_stat. chunks. Qed.

Lemma chunks_fs_readFile (o : Origin) (path : string) :
  preserves same_chunks (fs_readFile o path).
Proof. unfold fs_readFile. chunks. Qed.

#[global] Hint Resolve chunks_fs_stat chunks_fs_readFile : chunks.

Lemma chunks_fs_access (o : Origin) (path : string) :
  preserves same_chunks (fs_access o path).
Proof. unfold fs_access. chunks. Qed.

Lemma chunks_fs_writeFile (path : string) (content : list Z) :
  preserves same_chunks (fs_writeFile path content).
Proof. unfold fs_writeFile. chunks. Qed.

Lemma chunks_fs_unlink (o : Origin) (path : string) :
  preserves same_chunks (fs_unlink o path).
Proof. unfold fs_unlink. chunks. Qed.

Lemma chunks_stream_write (ws : WriteStream) (data : list Z) :
  preserves same_chunks (stream_write ws data).
Proof. unfold stream_write. chunks. Qed.

#[global] Hint Resolve chunks_fs_access chunks_fs_writeFile chunks_fs_unlink
  chunks_stream_write : chunks.

Lemma chunks_streamToDisk (E : Env) (session : string) (audioData : Buffer) :
  preserves same_chunks (streamToDisk E session audioData).
Proof. unfold streamToDisk. chunks. Qed.

Lemma chunks_updateWavHeader (path : string) (dataSize : Z) :
  preserves same_chunks (updateWavHeader path dataSize).
Proof. unfold updateWavHeader. chunks. Qed.

Lemma chunks_cleanupSession (sessionId session : string) :
  preserves same_chunks (cleanupSession sessionId session).
Proof. unfold cleanupSession. chunks. Qed.

Lemma chunks_transcribeAudio (E : Env) (path : string) :
  preserves same_chunks (transcribeAudio E path).
Proof. unfold transcribeAudio. chunks. Qed.

#[global] Hint Resolve chunks_streamToDisk chunks_updateWavHeader chunks_cleanupSession
  chunks_transcribeAudio : chunks.

Lemma chunks_retry_loop (E : Env) (path : string) (maxRetries : Z) (remaining : nat) :
  ∀ attempt lastError,
    preserves same_chunks (retry_loop E path maxRetries remaining attempt lastError).
Proof.
  induction remaining as [|remaining IH]; intros attempt lastError;
    cbn [retry_loop]; unfold rethrow_last, backoff; chunks.
Qed.

Lemma chunks_transcribeWithRetry (E : Env) (path : string) (maxRetries : Z) :
  preserves same_chunks (transcribeWithRetry E path maxRetries).
Proof. unfold transcribeWithRetry. apply chunks_retry_loop. Qed.

#[global] Hint Resolve chunks_retry_loop chunks_transcribeWithRetry : chunks.

Lemma chunks_processAudioChunk (E : Env) (socket sessionId session : string) :
  preserves same_chunks (processAudioChunk E socket sessionId session).
Proof. unfold processAudioChunk. chunks. Qed.

Lemma chunks_shouldProcessChunk (E : Env) (session : string) (audioData : Buffer) :
  preserves same_chunks (shouldProcessChunk E session audioData).
Proof. unfold shouldProcessChunk. chunks. Qed.

#[global] Hint Resolve chunks_processAudioChunk chunks_shouldProcessChunk : chunks.

Lemma chunks_on_audio_frame (E : Env) (sessionId session : string) (msg : AudioMsg)
    (has_ack : bool) :
  preserves same_chunks (on_audio_frame E sessionId session msg has_ack).
Proof. unfold on_audio_frame. chunks. Qed.

Lemma chunks_replay (E : Env) (session : string) (chunks : list Buffer) :
  preserves same_chunks (replay E session chunks).
Proof. induction chunks as [|chunk chunks IH]; cbn [replay]; chunks. Qed.

#[global] Hint Resolve chunks_on_audio_frame chunks_replay : chunks.

Lemma chunks_handle (E : Env) (socket : Socket) (ev : ClientEvent) :
  preserves same_chunks (handle E socket ev).
Proof.
  destruct ev; cbn [handle];
    unfold on_init, on_audio, on_audio_payload, fields, on_process_audio, on_pause, on_resume, on_stop; chunks.
Qed.

Lemma chunks_on_disconnect (E : Env) (socket : Socket) :
  preserves same_chunks (on_disconnect E socket).
Proof. unfold on_disconnect. chunks. Qed.

Lemma chunks_sweep (now : Z) (order : list string) : preserves same_chunks (sweep now order).
Proof. induction order as [|k order IH]; cbn [sweep]; chunks. Qed.

Lemma chunks_reap (E : Env) (order : list string) : preserves same_chunks (reap E order).
Proof. unfold reap. chunks. apply chunks_sweep. Qed.

Lemma server_keeps_audioChunks_empty (E : Env) (history : list Step) :
  ∀ w, (∀ k, audioChunks (objects w !!! k) = []) →
       ∀ k, audioChunks (objects (server E history w) !!! k) = [].
Proof.
  induction history as [|s history IH]; intros w Hw; [done|].
  cbn [server foldl]. apply IH. intros k.
  destruct s as [socket|socket ev|socket|order]; cbn [step].
  - unfold on_connection. mrun. rewrite lookup_total_update. by case_decide.
  - unfold exec. by rewrite (chunks_handle E socket ev w k).
  - unfold exec. by rewrite (chunks_on_disconnect E socket w k).
  - unfold exec. by rewrite (chunks_reap E order w k).
Qed.

(** The [process-audio] handler tests [session.audioChunks.length], and
    nothing ever writes to [audioChunks]: after every history of the server
    (connections, events, disconnections, sweeps) the explicit processing
    request of any socket does nothing. *)
Theorem process_audio_request_does_nothing (E : Env) (history : list Step)
    (socket : Socket) :
  run (on_process_audio E socket) (server E history empty_world)
  = (Return (), server E history empty_world).
Proof.
  unfold on_process_audio, run. mrun.
  case_bool_decide; [|done]. mrun.
  rewrite (server_keeps_audioChunks_empty E history empty_world); [done|].
  intros k. unfold empty_world. cbn [objects]. by rewrite lookup_total_empty.
Qed.

(** *** Rooms *)

Import Rooms.

Lemma rooms_get_Undefined (rooms : gmap string Room) (roomId : string) :
  rooms_get rooms roomId = Undefined →
  rooms !! roomId = None ∧ roomId ∉ inherited_names.
Proof.
  unfold rooms_get. destruct (rooms !! roomId); [done|].
  case_bool_decide; done.
Qed.

(** Joining a room that does not exist fails.  The [join-room] handler
    creates a room, but under a freshly generated id, and then adds the
    participant to the room named in the message: unless the generated id
    happens to be that name, [addParticipant] returns [null], the client
    gets the error "Failed to join room", and the new, empty room stays in
    the service. *)
Theorem join_of_unknown_room_fails (d : Draw) (socket roomId : string) (user : User)
    (rooms : gmap string Room) :
  rooms_get rooms roomId = Undefined → generateRoomId d ≠ roomId →
  on_join_room d socket roomId user rooms
  = ([JoinError socket "Failed to join room"],
     <[generateRoomId d :=
         {| room_id := generateRoomId d; participants := ∅;
            metadata := {| title := draw_title d; createdAt := draw_createdAt d;
                           createdBy := userId user |} |}]> rooms).
Proof.
  intros Hget Hfresh. destruct (rooms_get_Undefined _ _ Hget) as [Hnone Hown].
  unfold on_join_room, getRoom. rewrite Hget. unfold createRoom, addParticipant, rooms_get.
  rewrite lookup_insert_ne by done. rewrite Hnone.
  by rewrite bool_decide_eq_false_2.
Qed.

Lemma join_of_unknown_room_fails_witness :
  on_join_room draw1 "socket-1" "consult-42" ann ∅
  = ([JoinError "socket-1" "Failed to join room"],
     <[generateRoomId draw1 :=
         {| room_id := generateRoomId draw1; participants := ∅;
            metadata := {| title := draw_title draw1; createdAt := draw_createdAt draw1;
                           createdBy := userId ann |} |}]> ∅).
Proof.
  apply join_of_unknown_room_fails.
  - by vm_compute.
  - by vm_compute.
Defined.

(** Joining an existing room and leaving it again restores the service's
    rooms.  The join adds a participant under a fresh uuid, lets the socket
    join the socket.io room, tells the others, and sends the joiner the
    room with the new participant in it; [leave-room] for that participant
    id, from any socket, removes it and tells the others. *)
Theorem join_then_leave_restores_the_room (d : Draw) (socket leaver roomId : string)
    (user : User) (rooms : gmap string Room) (room : Room) :
  rooms !! roomId = Some room →
  participants room !! draw_uuid d = None →
  ∃ joined rooms',
    participants joined
    = <[draw_uuid d := {| p_user := user; p_id := draw_uuid d;
                          p_joinedAt := draw_joinedAt d |}]> (participants room)
    ∧ on_join_room d socket roomId user rooms
      = ([SocketJoin socket roomId;
          ParticipantJoined socket roomId
            {| p_user := user; p_id := draw_uuid d; p_joinedAt := draw_joinedAt d |};
          RoomInfo socket (Own joined) (draw_uuid d)], rooms')
    ∧ rooms' !! roomId = Some joined
    ∧ on_leave_room leaver roomId (draw_uuid d) rooms'
      = (Ok [ParticipantLeft leaver roomId (draw_uuid d); SocketLeave leaver roomId],
         rooms).
Proof.
  intros Hroom Hfresh.
  eexists _, _. split_and!.
  2:{ unfold on_join_room, getRoom, addParticipant, rooms_get. rewrite Hroom.
      cbn [p_id]. rewrite Hroom. cbn [p_id]. rewrite lookup_insert_eq. reflexivity. }
  - reflexivity.
  - by rewrite lookup_insert_eq.
  - unfold on_leave_room, removeParticipant, rooms_get. rewrite lookup_insert_eq.
    cbn [participants room_id metadata]. rewrite lookup_insert_eq.
    rewrite bool_decide_eq_true_2 by done. cbn [app]. f_equal.
    rewrite insert_insert_eq, delete_insert_eq, delete_id by done.
    destruct room. by apply insert_id.
Qed.

Lemma join_then_leave_restores_the_room_witness :
  ∃ joined rooms',
    participants joined
    = <[draw_uuid draw1 := {| p_user := ann; p_id := draw_uuid draw1;
                              p_joinedAt := draw_joinedAt draw1 |}]>
        (participants room_abc)
    ∧ on_join_room draw1 "socket-1" "room_abc" ann {["room_abc" := room_abc]}
      = ([SocketJoin "socket-1" "room_abc";
          ParticipantJoined "socket-1" "room_abc"
            {| p_user := ann; p_id := draw_uuid draw1;
               p_joinedAt := draw_joinedAt draw1 |};
          RoomInfo "socket-1" (Own joined) (draw_uuid draw1)], rooms')
    ∧ rooms' !! "room_abc" = Some joined
    ∧ on_leave_room "socket-2" "room_abc" (draw_uuid draw1) rooms'
      = (Ok [ParticipantLeft "socket-2" "room_abc" (draw_uuid draw1);
             SocketLeave "socket-2" "room_abc"],
         {["room_abc" := room_abc]}).
Proof.
  apply join_then_leave_restores_the_room.
  - by vm_compute.
  - by vm_compute.
Defined.

Lemma inherited_not_generated (rooms : gmap string Room) (roomId : string) :
  generated_keys rooms → roomId ∈ inherited_names → rooms_get rooms roomId = Inherited.
Proof.
  intros Hgen Hin. unfold rooms_get.
  destruct (rooms !! roomId) as [room|] eqn:Hroom.
  - assert (Hp : String.prefix "room_" roomId = true) by (by apply Hgen).
    unfold inherited_names in Hin.
    repeat (apply elem_of_cons in Hin as [->|Hin]; [by vm_compute in Hp|]).
    by apply elem_of_nil in Hin.
  - by rewrite bool_decide_eq_true_2.
Qed.

(** Room names that an object inherits from [Object.prototype]
    ("constructor", "__proto__", "toString", ...) are taken for rooms by
    [this.rooms[roomId]]: [leave-room] for such a name throws out of the
    handler, which has no [try], and [join-room] answers with an error that
    is not the handler's own "Failed to join room". *)
Theorem inherited_room_names_throw (d : Draw) (socket roomId participantId : string)
    (user : User) (rooms : gmap string Room) :
  generated_keys rooms → roomId ∈ inherited_names →
  (∃ msg, on_leave_room socket roomId participantId rooms = (Raise msg, rooms))
  ∧ (∃ msg, on_join_room d socket roomId user rooms = ([JoinError socket msg], rooms)
            ∧ msg ≠ "Failed to join room").
Proof.
  intros Hgen Hin. pose proof (inherited_not_generated rooms roomId Hgen Hin) as Hget.
  split.
  - unfold on_leave_room, removeParticipant. rewrite Hget. by eexists.
  - unfold on_join_room, getRoom, addParticipant. rewrite Hget. cbn beta iota zeta.
    rewrite Hget. eexists. split; [reflexivity|done].
Qed.

Lemma inherited_room_names_throw_witness :
  (∃ msg, on_leave_room "socket-1" "constructor" "uuid-1" ∅ = (Raise msg, ∅))
  ∧ (∃ msg, on_join_room draw1 "socket-1" "constructor" ann ∅
            = ([JoinError "socket-1" msg], ∅)
            ∧ msg ≠ "Failed to join room").
Proof.
  apply inherited_room_names_throw.
  - intros k [r Hr]. by rewrite lookup_empty in Hr.
  - unfold inherited_names. apply elem_of_cons. by left.
Defined.

Lemma generated_keys_insert (rooms : gmap string Room) (roomId : string) (room : Room) :
  generated_keys rooms → String.prefix "room_" roomId = true →
  generated_keys (<[roomId := room]> rooms).
Proof.
  intros Hgen Hp k Hk. destruct (decide (roomId = k)) as [<-|Hne]; [done|].
  rewrite lookup_insert_ne in Hk by done. by apply Hgen.
Qed.

Lemma generated_keys_addParticipant (d : Draw) (roomId : string) (user : User)
    (rooms : gmap string Room) :
  generated_keys rooms → generated_keys (addParticipant d roomId user rooms).2.
Proof.
  intros Hgen. unfold addParticipant, rooms_get.
  destruct (rooms !! roomId) as [room|] eqn:Hroom; [|by case_bool_decide].
  cbn [snd]. apply generated_keys_insert; [done|]. by apply Hgen.
Qed.

(** Rooms are only ever stored under generated ids: if every key of the
    rooms starts with "room_", then so it is after [join-room] and after
    [leave-room], whatever the message.  Hence a [join-room] for a name
    that does not start with "room_" always ends in an error event. *)
Theorem rooms_are_stored_under_generated_ids (d : Draw) (socket roomId participantId : string)
    (user : User) (rooms : gmap string Room) :
  generated_keys rooms →
  generated_keys (on_join_room d socket roomId user rooms).2
  ∧ generated_keys (on_leave_room socket roomId participantId rooms).2
  ∧ (String.prefix "room_" roomId = false →
     ∃ details, (on_join_room d socket roomId user rooms).1 = [JoinError socket details]).
Proof.
  intros Hgen. split_and!.
  - unfold on_join_room, getRoom.
    assert (H1 : ∀ created rooms1,
               generated_keys rooms1 →
               generated_keys
                 (match addParticipant d roomId user rooms1 with
                  | (Raise msg, rooms2) => ([JoinError socket msg], rooms2)
                  | (Ok None, rooms2) => ([JoinError socket "Failed to join room"], rooms2)
                  | (Ok (Some participant), rooms2) =>
                      ([SocketJoin socket roomId;
                        ParticipantJoined socket roomId participant;
                        RoomInfo socket
                          (match created with
                           | Some room => rooms_get rooms2 (room_id room)
                           | None => rooms_get rooms2 roomId
                           end) (p_id participant)], rooms2)
                  end).2).
    { intros created rooms1 Hgen1.
      pose proof (generated_keys_addParticipant d roomId user rooms1 Hgen1) as H2.
      by destruct (addParticipant d roomId user rooms1) as [[[p|]|msg] rooms2]. }
    destruct (rooms_get rooms roomId); [by apply (H1 None)|by apply (H1 None)|].
    unfold createRoom. cbv beta iota zeta. apply (H1 (Some _)).
    apply generated_keys_insert; [done|]. unfold generateRoomId. cbn. by destruct (draw_digits d).
  - unfold on_leave_room, removeParticipant, rooms_get.
    destruct (rooms !! roomId) as [room|] eqn:Hroom; [|by case_bool_decide].
    cbn [snd]. apply generated_keys_insert; [done|]. by apply Hgen.
  - intros Hprefix. unfold on_join_room, getRoom, createRoom, addParticipant, rooms_get.
    assert (Hnone : rooms !! roomId = None).
    { destruct (rooms !! roomId) eqn:Hroom; [|done].
      rewrite Hgen in Hprefix; by eauto. }
    rewrite Hnone. case_bool_decide; cbn beta iota zeta.
    + rewrite Hnone. by eexists.
    + rewrite lookup_insert_ne.
      * rewrite Hnone. by eexists.
      * intros <-. unfold generateRoomId in Hprefix. cbn in Hprefix.
        by destruct (draw_digits d).
Qed.

Lemma rooms_are_stored_under_generated_ids_witness :
  generated_keys (on_join_room draw1 "socket-1" "consult-42" ann ∅).2
  ∧ generated_keys (on_leave_room "socket-1" "consult-42" "uuid-1" ∅).2
  ∧ (String.prefix "room_" "consult-42" = false →
     ∃ details,
       (on_join_room draw1 "socket-1" "consult-42" ann ∅).1
       = [JoinError "socket-1" details]).
Proof.
  apply rooms_are_stored_under_generated_ids.
  intros k [r Hr]. by rewrite lookup_empty in Hr.
Defined.

(** *** The local fallback engine *)

Import WhisperService.

(** Whatever goes wrong in the fallback engine (the process cannot be
    spawned, ends with a non-zero code or by a signal, prints no JSON or
    prints [null]), [transcribe] throws the same error, "Whisper fallback
    transcription failed"; and on every path, success included, the
    temporary audio file it wrote is removed again, and nothing else of the
    world changes. *)
Theorem whisper_failures_are_masked (E : Env) (H : Host) (S : Service)
    (audioData : Buffer) (sampleRate : Z) (w : World) :
  ∃ o w',
    run (transcribe E H S audioData sampleRate) w = (o, w')
    ∧ (∀ e, o = Throw e → e = Error Fallback "Whisper fallback transcription failed")
    ∧ files w' = delete (join (tempDir S) (uuidv4 E (tick w) +:+ ".wav")) (files w)
    ∧ objects w' = objects w ∧ sessions w' = sessions w ∧ log w' = log w.
Proof.
  unfold transcribe, executeCommand, parseTranscriptionResult, fs_writeFile, fs_unlink,
    fs_stat.
  mrun.
  destruct (spawn H _ _) as [msg|[[| |]|] out err]; mrun;
    rewrite ?lookup_insert_eq; mrun;
    try (destruct (JSON_parse H _); mrun; rewrite ?lookup_insert_eq; mrun);
    (eexists _, _; split; [reflexivity|]; mrun;
     split_and!; [by intros e [= <-]|by rewrite delete_insert_eq|done..]).
Qed.

(** When the script ends with code 0 and prints a JSON value,
    [transcribe] returns; a missing or empty [text] becomes the empty
    string and a missing [language] becomes "en".  A result with an empty
    text is one [transcribeAudio] does not return: it rethrows the error of
    the Groq request. *)
Theorem whisper_reply_without_text_counts_as_failure (E : Env) (H : Host)
    (S : Service) (audioData : Buffer) (sampleRate : Z) (w : World)
    (out err : string) (t l : option string) (d c : option Q) :
  spawn H (pythonPath S)
    (script_args S (join (tempDir S) (uuidv4 E (tick w) +:+ ".wav")) sampleRate)
  = Exit (Some 0) out err →
  JSON_parse H (trim H out) = Fields t l d c →
  ∃ r w',
    run (transcribe E H S audioData sampleRate) w = (Return r, w')
    ∧ text r = (if truthy_string t then default "" t else "")
    ∧ language r = (if truthy_string l then default "" l else "en")
    ∧ whisper_text (reply (Return r)) = (if truthy_string t then t else None).
Proof.
  intros Hspawn Hparse.
  unfold transcribe, executeCommand, parseTranscriptionResult, fs_writeFile, fs_unlink,
    fs_stat.
  mrun. rewrite Hspawn. mrun. rewrite Hparse. mrun.
  rewrite lookup_insert_eq. mrun.
  eexists _, _. split; [reflexivity|]. cbn [text language reply whisper_text].
  split_and!; [done|done|].
  destruct t as [t|]; [|done]. cbn [truthy_string default from_option id].
  destruct (String.eqb t "") eqn:Ht; cbn [negb]; [done|by rewrite Ht].
Qed.

Lemma whisper_reply_without_text_counts_as_failure_witness :
  ∃ r w',
    run (transcribe E_up host_empty service (wav_frame 44 0) 16000) empty_world
    = (Return r, w')
    ∧ text r = (if truthy_string None then default "" None else "")
    ∧ language r = (if truthy_string None then default "" None else "en")
    ∧ whisper_text (reply (Return r)) = (if truthy_string None then None else None).
Proof.
  apply (whisper_reply_without_text_counts_as_failure E_up host_empty service
           (wav_frame 44 0) 16000 empty_world "{}" "" None None None None);
    reflexivity.
Defined.
